(** * TOON Pi client: codec, identity check and protocol client

    A shallow embedding of [toon_client/toon.py], [toon_client/keys.py],
    [toon_client/storage.py] and [toon_client/client.py], with the
    properties of the protocol specification stated over it.

    Conventions of the embedding.
    - A Python [str] is a [string]; each [ascii] stands for one code point
      below 256, so ordering by [String.compare] is ordering by code point,
      the only decimal digits are 0-9 and the whitespace characters are
      the ones [str.isspace] accepts below 256; [int()] skips fewer of
      them ([PyStr.int_isspace]) and converts at most 4300 digits.
    - A Python [dict] is an association list in insertion order with
      pairwise distinct keys ([dict_wf]); a value of a token mapping is a
      [pyval], [None] standing for Python's [None].
    - Effects of the client (clock, random nonces, transport, audit sink,
      nonce ledger, staging files) are calls to a [World] whose answers may
      depend on everything that happened before; every call is logged in
      the trace of the client state.  Exceptions are values of [exc].
      The table of nonces is kept row by row, with rowid and timestamp;
      [asyncio.sleep] raises for a delay out of the range of floats.
    - The key file of [keys.py] lives on a disk that maps paths to files;
      its file operations may fail one by one ([KeyFile]). *)

From Stdlib Require Import List String Ascii Bool Arith ZArith QArith Qround Lia.
From Stdlib Require Import Permutation Sorting.Sorted DecimalString DecimalNat.
Import ListNotations.

Local Close Scope Q_scope.
Local Open Scope string_scope.
Local Open Scope list_scope.

(* ------------------------------------------------------------------ *)
(** ** Python string built-ins used by the sources *)
(* ------------------------------------------------------------------ *)

Module PyStr.

(** [c in s] for a one-character [c]. *)
Fixpoint contains (c : ascii) (s : string) : bool :=
  match s with
  | EmptyString => false
  | String a s' => Ascii.eqb a c || contains c s'
  end.

(** [s.split(sep)] for a one-character separator: never empty. *)
Fixpoint split (sep : ascii) (s : string) : list string :=
  match s with
  | EmptyString => [EmptyString]
  | String a s' =>
      if Ascii.eqb a sep then EmptyString :: split sep s'
      else match split sep s' with
           | [] => [String a EmptyString]
           | p :: ps => String a p :: ps
           end
  end.

(** [s.split(sep, 1)] when [sep in s]: the text before and after the first
    separator; [None] when the separator does not occur (Python then
    returns a one-element list). *)
Fixpoint split1 (sep : ascii) (s : string) : option (string * string) :=
  match s with
  | EmptyString => None
  | String a s' =>
      if Ascii.eqb a sep then Some (EmptyString, s')
      else match split1 sep s' with
           | Some (k, v) => Some (String a k, v)
           | None => None
           end
  end.

(** [str.isspace] on one code point below 256. *)
Definition isspace (a : ascii) : bool :=
  let n := nat_of_ascii a in
  (((9 <=? n) && (n <=? 13)) || ((28 <=? n) && (n <=? 32))
   || (n =? 133) || (n =? 160))%nat.

Fixpoint lstrip (s : string) : string :=
  match s with
  | EmptyString => EmptyString
  | String a s' => if isspace a then lstrip s' else s
  end.

Fixpoint rstrip (s : string) : string :=
  match s with
  | EmptyString => EmptyString
  | String a s' =>
      match rstrip s' with
      | EmptyString => if isspace a then EmptyString else String a EmptyString
      | r => String a r
      end
  end.

(** [s.strip()] *)
Definition strip (s : string) : string := rstrip (lstrip s).

(** [s.startswith(p)] and [s.startswith((p1, ..., pn))]. *)
Definition startswith (s p : string) : bool := String.prefix p s.

Definition startswith_any (s : string) (ps : list string) : bool :=
  existsb (startswith s) ps.

(** [sep.join(items)] *)
Definition join (sep : string) (items : list string) : string :=
  String.concat sep items.

(** [not s]: the empty string is the only false one. *)
Definition falsy (s : string) : bool :=
  match s with EmptyString => true | _ => false end.

(** [str(n)] for a non-negative [int] and for any [int]. *)
Definition of_nat (n : nat) : string :=
  NilZero.string_of_uint (Nat.to_uint n).

Definition of_Z (z : Z) : string :=
  NilZero.string_of_int (Z.to_int z).

Definition isdigit (a : ascii) : bool :=
  let n := nat_of_ascii a in ((48 <=? n) && (n <=? 57))%nat.

Definition digit_val (a : ascii) : nat := nat_of_ascii a - 48.

(** Value of a run of decimal digits, most significant first. *)
Definition digits_val (s : string) : nat :=
  fold_left (fun acc a => 10 * acc + digit_val a) (list_ascii_of_string s) 0.

Fixpoint all_chars (p : ascii -> bool) (s : string) : bool :=
  match s with
  | EmptyString => true
  | String a s' => p a && all_chars p s'
  end.

(** Digits with single underscores between them, as [int()] accepts. *)
Fixpoint int_body (s : string) (acc : nat) (prev_digit : bool) : option nat :=
  match s with
  | EmptyString => if prev_digit then Some acc else None
  | String a s' =>
      if isdigit a then int_body s' (10 * acc + digit_val a) true
      else if Ascii.eqb a "_"%char then
             if prev_digit then
               match s' with
               | EmptyString => None
               | _ => int_body s' acc false
               end
             else None
      else None
  end.

(** The whitespace [int()] skips around a number.  Below 256 these are
    the characters 9-13 and 32, which the C parser skips, and 133 and
    160, which [int()] turns into blanks first; the separators 28-31,
    although [str.isspace] accepts them, are left in place and make the
    literal invalid. *)
Definition int_isspace (a : ascii) : bool :=
  let n := nat_of_ascii a in
  (((9 <=? n) && (n <=? 13)) || (n =? 32) || (n =? 133) || (n =? 160))%nat.

Fixpoint int_lstrip (s : string) : string :=
  match s with
  | EmptyString => EmptyString
  | String a s' => if int_isspace a then int_lstrip s' else s
  end.

Fixpoint int_rstrip (s : string) : string :=
  match s with
  | EmptyString => EmptyString
  | String a s' =>
      match int_rstrip s' with
      | EmptyString => if int_isspace a then EmptyString else String a EmptyString
      | r => String a r
      end
  end.

(** How many decimal digits a literal holds. *)
Fixpoint count_digits (s : string) : nat :=
  match s with
  | EmptyString => 0
  | String a s' => (if isdigit a then 1 else 0) + count_digits s'
  end.

(** [sys.int_max_str_digits], at its default. *)
Definition INT_MAX_STR_DIGITS : nat := 4300.

(** The digits of a literal after its sign: [ValueError] when they are
    not digits with single underscores between them, and also when there
    are more of them than the conversion limit allows. *)
Definition int_digits (r : string) : option nat :=
  if (INT_MAX_STR_DIGITS <? count_digits r)%nat then None
  else int_body r 0 false.

(** [int(s)] in base ten: surrounding whitespace, an optional sign,
    digits.  [None] stands for [ValueError]. *)
Definition int (s : string) : option Z :=
  match int_rstrip (int_lstrip s) with
  | String "+"%char r => option_map Z.of_nat (int_digits r)
  | String "-"%char r => option_map (fun n => Z.opp (Z.of_nat n)) (int_digits r)
  | r => option_map Z.of_nat (int_digits r)
  end.

(** [s.encode()]: UTF-8 of code points below 256. *)
Definition encode_char (a : ascii) : string :=
  let n := nat_of_ascii a in
  if (n <? 128)%nat then String a EmptyString
  else String (ascii_of_nat (192 + n / 64))
         (String (ascii_of_nat (128 + n mod 64)) EmptyString).

Fixpoint encode (s : string) : string :=
  match s with
  | EmptyString => EmptyString
  | String a s' => encode_char a ++ encode s'
  end.

(** [int(x)] for a float [x]: truncation towards zero. *)
Definition int_of_float (x : Q) : Z :=
  if Qle_bool 0 x then Qfloor x else Qceiling x.

End PyStr.

(* ------------------------------------------------------------------ *)
(** ** Python dictionaries *)
(* ------------------------------------------------------------------ *)

Definition dict (V : Type) : Type := list (string * V).

Section Dict.
Context {V : Type}.

Definition keys (d : dict V) : list string := map fst d.

(** [d[k]], [None] standing for [KeyError]. *)
Fixpoint lookup (k : string) (d : dict V) : option V :=
  match d with
  | [] => None
  | (k', v) :: d' => if String.eqb k' k then Some v else lookup k d'
  end.

(** [k in d] *)
Definition mem (k : string) (d : dict V) : bool :=
  match lookup k d with Some _ => true | None => false end.

(** [d[k] = v]: an existing key keeps its position, a new one goes last. *)
Fixpoint dict_set (k : string) (v : V) (d : dict V) : dict V :=
  match d with
  | [] => [(k, v)]
  | (k', v') :: d' =>
      if String.eqb k' k then (k', v) :: d' else (k', v') :: dict_set k v d'
  end.

Definition dict_wf (d : dict V) : Prop := NoDup (keys d).

(** Python's [d1 == d2]: same keys with equal values, in any order. *)
Definition dict_eq (d1 d2 : dict V) : Prop :=
  forall k, lookup k d1 = lookup k d2.
End Dict.

(** A token value; [None] is Python's [None]. *)
Definition pyval : Type := option string.
Definition tokens : Type := dict pyval.

(** [d.get(k)]: [None] for a missing key and for a [None] value alike. *)
Definition get (d : tokens) (k : string) : pyval :=
  match lookup k d with Some v => v | None => None end.

(** [d.get(k, default)] *)
Definition get_default (d : tokens) (k : string) (default : pyval) : pyval :=
  match lookup k d with Some v => v | None => default end.

(** Truthiness of an optional string: [None] and [""] are false. *)
Definition truthy (v : pyval) : bool :=
  match v with
  | Some s => negb (PyStr.falsy s)
  | None => false
  end.

(** [sorted(keys)]: strings are ordered by code point; equal strings are
    indistinguishable, so the sorting algorithm does not show. *)
Fixpoint insert_sorted (k : string) (l : list string) : list string :=
  match l with
  | [] => [k]
  | x :: l' => if String.leb k x then k :: l else x :: insert_sorted k l'
  end.

Definition sorted (l : list string) : list string :=
  fold_right insert_sorted [] l.

(* ------------------------------------------------------------------ *)
(** ** toon.py *)
(* ------------------------------------------------------------------ *)

Definition SIG_PREFIX : list string := ["SIG"; "FW_SIG"; "SIG_SERV"].

(** f"{k}:{v}" *)
Definition kv (k v : string) : string := k ++ ":" ++ v.

(** One turn of the loop of [to_canonical_string]: the items appended
    for key [k]. *)
Definition canonical_item (toks : tokens) (k : string) : list string :=
  if PyStr.startswith_any k SIG_PREFIX then []
  else match lookup k toks with
       | Some (Some v) => [kv k v]
       | _ => []
       end.

Definition to_canonical_string (toks : tokens) : string :=
  PyStr.join "|" (flat_map (canonical_item toks) (sorted (keys toks))).

Definition payload_item (e : string * pyval) : list string :=
  match snd e with
  | Some v => [kv (fst e) v]
  | None => []
  end.

Definition build_payload (toks : tokens) : string :=
  PyStr.join "|" (flat_map payload_item toks).

(** One turn of the loop of [parse_tokens]. *)
Definition parse_part (out : tokens) (p : string) : tokens :=
  match PyStr.split1 ":"%char p with
  | None => out
  | Some (k, v) => dict_set k (Some v) out
  end.

Definition parse_tokens (payload : string) : tokens :=
  if PyStr.falsy payload then []
  else fold_left parse_part (PyStr.split "|"%char (PyStr.strip payload)) [].

(** *** The array-key pattern

    [_array_key_re] is
    [^(?P<prefix>[A-Z0-9]+)\[(?P<idx>\d+)\]\.(?P<key>[A-Z0-9_]+)$],
    used with [re.match].  Each repeated class is followed by a literal
    outside the class (or by the end), so the greedy repetition takes the
    longest run and backtracking finds nothing else; [$] matches at the
    end and also just before a final line feed. *)

Definition is_upper (a : ascii) : bool :=
  let n := nat_of_ascii a in ((65 <=? n) && (n <=? 90))%nat.

(** [[A-Z0-9]] *)
Definition is_prefix_char (a : ascii) : bool := is_upper a || PyStr.isdigit a.

(** [[A-Z0-9_]] *)
Definition is_key_char (a : ascii) : bool :=
  is_prefix_char a || Ascii.eqb a "_"%char.

(** The longest prefix of [s] made of characters in the class, and the rest. *)
Fixpoint span (p : ascii -> bool) (s : string) : string * string :=
  match s with
  | EmptyString => (EmptyString, EmptyString)
  | String a s' =>
      if p a then let (m, r) := span p s' in (String a m, r)
      else (EmptyString, s)
  end.

Definition LF : ascii := ascii_of_nat 10.

(** The groups (prefix, idx, key) of a match, or [None]. *)
Definition array_key_match (k : string) : option (string * string * string) :=
  let (pre, r1) := span is_prefix_char k in
  if PyStr.falsy pre then None
  else match r1 with
       | String "["%char r2 =>
           let (idx, r3) := span PyStr.isdigit r2 in
           if PyStr.falsy idx then None
           else match r3 with
                | String "]"%char (String "."%char r4) =>
                    let (key, r5) := span is_key_char r4 in
                    if PyStr.falsy key then None
                    else if String.eqb r5 EmptyString
                            || String.eqb r5 (String LF EmptyString)
                         then Some (pre, idx, key)
                         else None
                | _ => None
                end
       | _ => None
       end.

(** [buckets: Dict[int, Dict[str, str]]], in insertion order. *)
Definition buckets : Type := list (nat * tokens).

(** [item = buckets.setdefault(idx, {}); item[key] = v] *)
Fixpoint bucket_put (idx : nat) (key : string) (v : pyval) (b : buckets)
  : buckets :=
  match b with
  | [] => [(idx, dict_set key v [])]
  | (i, item) :: b' =>
      if Nat.eqb i idx then (i, dict_set key v item) :: b'
      else (i, item) :: bucket_put idx key v b'
  end.

Fixpoint bucket_get (idx : nat) (b : buckets) : option tokens :=
  match b with
  | [] => None
  | (i, item) :: b' => if Nat.eqb i idx then Some item else bucket_get idx b'
  end.

Fixpoint insert_sorted_nat (k : nat) (l : list nat) : list nat :=
  match l with
  | [] => [k]
  | x :: l' => if Nat.leb k x then k :: l else x :: insert_sorted_nat k l'
  end.

Definition sorted_nat (l : list nat) : list nat :=
  fold_right insert_sorted_nat [] l.

(** One turn of the loop of [parse_array_tokens]; [int(idx)] of a run of
    digits is its decimal value (leading zeros allowed, so "010" and "10"
    name the same element).  This holds for the indices [int()]
    converts, those of at most [PyStr.INT_MAX_STR_DIGITS] digits; the
    ValueError of a longer index is not part of this function. *)
Definition parse_array_entry (prefix : string) (b : buckets)
  (e : string * pyval) : buckets :=
  match array_key_match (fst e) with
  | None => b
  | Some (pre, idx, key) =>
      if negb (String.eqb pre prefix) then b
      else bucket_put (PyStr.digits_val idx) key (snd e) b
  end.

Definition parse_array_tokens (toks : tokens) (prefix : string)
  : list tokens :=
  let b := fold_left (parse_array_entry prefix) toks [] in
  flat_map (fun i => match bucket_get i b with
                     | Some item => [item]
                     | None => []
                     end)
           (sorted_nat (map fst b)).

(** [enumerate(items)] *)
Definition enumerate {A : Type} (l : list A) : list (nat * A) :=
  combine (seq 0 (List.length l)) l.

(** f"{prefix}[{i}].{k}" *)
Definition array_key (prefix : string) (i : nat) (k : string) : string :=
  prefix ++ "[" ++ PyStr.of_nat i ++ "]." ++ k.

(** The inner loop of [build_array_tokens] for element [i]. *)
Definition build_item (prefix : string) (out : tokens) (ie : nat * tokens)
  : tokens :=
  fold_left (fun o e => dict_set (array_key prefix (fst ie) (fst e)) (snd e) o)
            (snd ie) out.

Definition build_array_tokens (items : list tokens) (prefix : string)
  : tokens :=
  dict_set (prefix ++ "_COUNT") (Some (PyStr.of_nat (List.length items)))
           (fold_left (build_item prefix) (enumerate items) []).

(* ------------------------------------------------------------------ *)
(** ** Exceptions and results *)
(* ------------------------------------------------------------------ *)

(** The exception classes the client can meet.  [ValueError] stands for
    the built-in class and its subclasses ([binascii.Error],
    [nacl.exceptions.ValueError], [UnicodeError]); every class here is a
    subclass of [Exception]. *)
Inductive exc_class : Type :=
| BadSignatureError
| ValueError
| TypeError
| RuntimeError
| ClientError
| OSError
| DatabaseError
| OverflowError.

Record exc : Type := mk_exc { exc_cls : exc_class; exc_msg : string }.

(** [type(e).__name__] *)
Definition exc_name (e : exc) : string :=
  match exc_cls e with
  | BadSignatureError => "BadSignatureError"
  | ValueError => "ValueError"
  | TypeError => "TypeError"
  | RuntimeError => "RuntimeError"
  | ClientError => "ClientError"
  | OSError => "OSError"
  | DatabaseError => "DatabaseError"
  | OverflowError => "OverflowError"
  end.

Inductive result (A : Type) : Type :=
| Ok (a : A)
| Raise (e : exc).
Arguments Ok {A} a.
Arguments Raise {A} e.

Definition rbind {A B : Type} (r : result A) (k : A -> result B) : result B :=
  match r with
  | Ok a => k a
  | Raise e => Raise e
  end.

(* ------------------------------------------------------------------ *)
(** ** keys.py *)
(* ------------------------------------------------------------------ *)

(** The base64 and PyNaCl calls of [keys.py], and the device key pair
    [load_or_create_keys] returned.  Byte strings are [string]s. *)
Record Nacl : Type := {
  b64decode : string -> result string;
  b64encode : string -> string;
  VerifyKey : string -> result string;
  vk_verify : string -> string -> string -> result string;
  sk_sign : string -> string;
  verify_key_bytes : string
}.

Section Keys.
Variable lib : Nacl.

(** [DeviceKeys.public_key_b64] *)
Definition public_key_b64 : string := b64encode lib (verify_key_bytes lib).

(** [DeviceKeys.sign] *)
Definition sign (data : string) : string := b64encode lib (sk_sign lib data).

(** [except (exceptions.BadSignatureError, ValueError)] *)
Definition verify_handler_catches (e : exc) : bool :=
  match exc_cls e with
  | BadSignatureError | ValueError => true
  | _ => false
  end.

(** The body of the [try] of [verify_with_public_b64]. *)
Definition verify_try (public_key_b64 data signature_b64 : string)
  : result bool :=
  rbind (b64decode lib public_key_b64) (fun kb =>
  rbind (VerifyKey lib kb) (fun vk =>
  rbind (b64decode lib signature_b64) (fun sg =>
  rbind (vk_verify lib vk data sg) (fun _ =>
  Ok true)))).

Definition verify_with_public_b64 (public_key_b64 data signature_b64 : string)
  : result bool :=
  match verify_try public_key_b64 data signature_b64 with
  | Ok b => Ok b
  | Raise e => if verify_handler_catches e then Ok false else Raise e
  end.
End Keys.

(* ------------------------------------------------------------------ *)
(** ** The world of the client and its state *)
(* ------------------------------------------------------------------ *)

Record Config : Type := {
  DEVICE_ID : string;
  MANUFACTURER : string;
  MODEL : string;
  FIRMWARE_VERSION : string;
  DEFAULT_RTO_SECONDS : Z;
  MAX_BACKOFF_SECONDS : Z;
  SERVER_PUBLIC_KEY_BASE64 : string;
  OTA_STAGING_DIR : string
}.

(** The readings of [device.py], already formatted as the heartbeat
    sends them (HB2 .. HB6). *)
Record Telemetry : Type := {
  tm_uptime : string;
  tm_memory : string;
  tm_cpu_temp : string;
  tm_last_boot : string;
  tm_network : string
}.

(** Every call that leaves the client, with its answer. *)
Inductive event : Type :=
| EvTs (ts : string)
| EvNonce (nonce : string)
| EvClock (t : Q)
| EvTelemetry (tm : Telemetry)
| EvInitDb (r : result unit)
| EvAudit (kind direction raw : string) (r : result unit)
| EvAddNonce (nonce : string) (r : result unit)
| EvPost (path payload : string) (r : result (Z * string))
| EvGet (path query : string) (r : result (Z * string))
| EvDownload (url path : string) (ok : bool)
| EvDigest (path : string) (r : result string)
| EvExists (path : string) (b : bool)
| EvSleep (seconds : Z).

(** The answers of the outside, each a function of the calls so far.
    - [w_ts]: [time.strftime] of [_ts]; [w_nonce]: [secrets.token_hex(16)];
      [w_clock]: [time.time()], a float idealised as a rational.
    - [w_audit], [w_add_nonce], [w_init_db]: the sqlite calls of
      [storage.py]; [w_db_now]: the CURRENT_TIMESTAMP the database stamps
      a new row with; [w_post], [w_get]: status and body text of
      [http.py].
    - [w_download]: whether [_download_to] got status 200 and streamed
      the body to the path (its own handler turns any exception into
      [False]); [w_digest]: the SHA-256 hex digest of the staged file;
      [w_exists]: [os.path.exists]; [w_path_join]: pathlib's [/]. *)
Record World : Type := {
  w_ts : list event -> string;
  w_nonce : list event -> string;
  w_clock : list event -> Q;
  w_telemetry : list event -> Telemetry;
  w_init_db : list event -> result unit;
  w_audit : list event -> string -> string -> string -> result unit;
  w_add_nonce : list event -> string -> result unit;
  w_db_now : list event -> string;
  w_post : list event -> string -> string -> result (Z * string);
  w_get : list event -> string -> string -> result (Z * string);
  w_download : list event -> string -> string -> bool;
  w_digest : list event -> string -> result string;
  w_exists : list event -> string -> bool;
  w_path_join : string -> string -> string
}.

(** A row of the table [nonces]: its rowid, the nonce (the primary key)
    and the [ts] column. *)
Record NonceRow : Type := {
  row_id : Z;
  row_nonce : string;
  row_ts : string
}.

(** The fields of [DeviceClient], the rows of the table [nonces] in
    rowid order, and the log of calls. *)
Record State : Type := {
  rto_sec : Z;
  current_fw : string;
  ledger : list NonceRow;
  trace : list event
}.

Definition set_rto_sec (z : Z) (s : State) : State :=
  {| rto_sec := z; current_fw := current_fw s;
     ledger := ledger s; trace := trace s |}.

Definition set_current_fw (v : string) (s : State) : State :=
  {| rto_sec := rto_sec s; current_fw := v;
     ledger := ledger s; trace := trace s |}.

Definition set_ledger (l : list NonceRow) (s : State) : State :=
  {| rto_sec := rto_sec s; current_fw := current_fw s;
     ledger := l; trace := trace s |}.

Definition log (e : event) (s : State) : State :=
  {| rto_sec := rto_sec s; current_fw := current_fw s;
     ledger := ledger s; trace := trace s ++ [e] |}.

(** Computations of the client: a result or an exception, and the state
    left behind in both cases. *)
Definition M (A : Type) : Type := State -> result A * State.

Definition ret {A : Type} (a : A) : M A := fun s => (Ok a, s).

Definition raise {A : Type} (e : exc) : M A := fun s => (Raise e, s).

Definition bind {A B : Type} (m : M A) (k : A -> M B) : M B :=
  fun s => match m s with
           | (Ok a, s') => k a s'
           | (Raise e, s') => (Raise e, s')
           end.

Definition lift {A : Type} (r : result A) : M A := fun s => (r, s).

Definition gets {A : Type} (f : State -> A) : M A := fun s => (Ok (f s), s).

Definition modify (f : State -> State) : M unit := fun s => (Ok tt, f s).

(** A call whose answer is a value. *)
Definition ask {A : Type} (q : list event -> A) (ev : A -> event) : M A :=
  fun s => let a := q (trace s) in (Ok a, log (ev a) s).

(** A call that may raise. *)
Definition ask_r {A : Type} (q : list event -> result A)
  (ev : result A -> event) : M A :=
  fun s => let r := q (trace s) in (r, log (ev r) s).

Declare Scope client_scope.
Delimit Scope client_scope with client.
Notation "x <- m ;; k" := (bind m (fun x => k))
  (at level 61, m at next level, right associativity) : client_scope.
Notation "m ;;; k" := (bind m (fun _ => k))
  (at level 61, right associativity) : client_scope.

(** [for x in l: body(x)] *)
Fixpoint for_each {A : Type} (body : A -> M unit) (l : list A) : M unit :=
  match l with
  | [] => ret tt
  | x :: l' => bind (body x) (fun _ => for_each body l')
  end.

(** The string an f-string shows for a value. *)
Definition fstr (v : pyval) : string :=
  match v with Some x => x | None => "None" end.

(** [v == "text"] *)
Definition pyval_eqb (v : pyval) (x : string) : bool :=
  match v with Some y => String.eqb y x | None => false end.

(** [a or b] *)
Definition py_or (a b : pyval) : pyval := if truthy a then a else b.

(** [int(v)] of a token value.  The messages are cut short: Python's go
    on with the type of the argument, and with the base and the
    literal. *)
Definition int_of_val (v : pyval) : result Z :=
  match v with
  | None => Raise (mk_exc TypeError "int() argument must be a string")
  | Some x =>
      match PyStr.int x with
      | Some z => Ok z
      | None => Raise (mk_exc ValueError "invalid literal for int()")
      end
  end.

(* ------------------------------------------------------------------ *)
(** ** storage.py, http.py and client.py *)
(* ------------------------------------------------------------------ *)

Section Client.
Variable cfg : Config.
Variable lib : Nacl.
Variable w : World.

Local Open Scope client_scope.

(** *** storage.py *)

Definition init_db : M unit := ask_r (w_init_db w) EvInitDb.

Definition audit (kind direction raw_toon : string) : M unit :=
  ask_r (fun h => w_audit w h kind direction raw_toon)
        (EvAudit kind direction raw_toon).

(** The rowid SQLite gives a new row: one more than the largest in the
    table, 1 in an empty table (the table is taken to stay below SQLite's
    largest rowid, 2^63 - 1). *)
Definition next_rowid (l : list NonceRow) : Z :=
  fold_right (fun row m => Z.max (row_id row) m) 0%Z l + 1.

(** [INSERT OR REPLACE INTO nonces(nonce) VALUES(?)]: the new row takes
    its rowid from the table as it stands, a row with the same primary
    key is then deleted, and the new row is inserted with the default
    [ts], the current timestamp. *)
Definition ledger_insert (n ts : string) (l : list NonceRow) : list NonceRow :=
  filter (fun row => negb (String.eqb (row_nonce row) n)) l
  ++ [{| row_id := next_rowid l; row_nonce := n; row_ts := ts |}].

Definition add_nonce (nonce : pyval) : M unit :=
  ask_r (fun h => w_add_nonce w h (fstr nonce)) (EvAddNonce (fstr nonce)) ;;;
  modify (fun s => set_ledger (ledger_insert (fstr nonce) (w_db_now w (trace s))
                                             (ledger s)) s).


(** *** http.py *)

Definition post (path toon_payload : string) : M (Z * string * tokens) :=
  r <- ask_r (fun h => w_post w h path toon_payload) (EvPost path toon_payload) ;;
  ret (fst r, snd r, parse_tokens (snd r)).

Definition http_get (path toon_query : string) : M (Z * string * tokens) :=
  r <- ask_r (fun h => w_get w h path toon_query) (EvGet path toon_query) ;;
  ret (fst r, snd r, parse_tokens (snd r)).

(** *** client.py *)

Definition _ts : M string := ask (w_ts w) EvTs.
Definition _nonce : M string := ask (w_nonce w) EvNonce.
Definition time_time : M Q := ask (w_clock w) EvClock.
Definition telemetry : M Telemetry := ask (w_telemetry w) EvTelemetry.

(** [sig = self.keys.sign(to_canonical_string(tokens).encode());
    tokens["SIG1"] = sig; build_payload(tokens)] *)
Definition signed_payload (toks : tokens) : string :=
  let sig := sign lib (PyStr.encode (to_canonical_string toks)) in
  build_payload (dict_set "SIG1" (Some sig) toks).

(** [DeviceClient.__init__] *)
Definition init_state : State :=
  {| rto_sec := DEFAULT_RTO_SECONDS cfg;
     current_fw := FIRMWARE_VERSION cfg;
     ledger := [];
     trace := [] |}.

Definition register : M unit :=
  ts <- _ts ;;
  nonce <- _nonce ;;
  let toks : tokens :=
    [ ("D1", Some (DEVICE_ID cfg));
      ("D2", Some "RPI_TERMINAL");
      ("D3", Some (public_key_b64 lib));
      ("D4", Some (MANUFACTURER cfg));
      ("D5", Some (MODEL cfg));
      ("TS", Some ts);
      ("NONCE", Some nonce) ] in
  let payload := signed_payload toks in
  audit "register" "out" payload ;;;
  r <- post "/api/devices/register" payload ;;
  let '(_, text, resp) := r in
  audit "register" "in" text ;;;
  if negb (pyval_eqb (get resp "S1") "registered"
           || pyval_eqb (get resp "S1") "ok")
  then raise (mk_exc RuntimeError ("Registration failed: " ++ text)%string)
  else if mem "RTO" resp
       then z <- lift (int_of_val (get resp "RTO")) ;;
            modify (set_rto_sec (Z.max 10 z))
       else ret tt.

(** The dictionary literal of [heartbeat_once]. *)
Definition heartbeat_tokens (now : Q) (tm : Telemetry) (fw ts nonce : string)
  : tokens :=
  [ ("D1", Some (DEVICE_ID cfg));
    ("HB1", Some ("hb_" ++ PyStr.of_Z (PyStr.int_of_float now))%string);
    ("HB2", Some (tm_uptime tm));
    ("HB3", Some (tm_memory tm));
    ("HB4", Some (tm_cpu_temp tm));
    ("HB5", Some (tm_last_boot tm));
    ("HB6", Some (tm_network tm));
    ("FW2", Some fw);
    ("TS", Some ts);
    ("NONCE", Some nonce) ].

Definition heartbeat_once : M tokens :=
  now <- time_time ;;
  tm <- telemetry ;;
  fw <- gets current_fw ;;
  ts <- _ts ;;
  nonce <- _nonce ;;
  let toks := heartbeat_tokens now tm fw ts nonce in
  let payload := signed_payload toks in
  add_nonce (get toks "NONCE") ;;;
  audit "heartbeat" "out" payload ;;;
  r <- post "/api/devices/heartbeat" payload ;;
  let '(_, text, resp) := r in
  audit "heartbeat" "in" text ;;;
  (if truthy (get resp "RTO")
   then z <- lift (int_of_val (get resp "RTO")) ;;
        modify (set_rto_sec (Z.min (MAX_BACKOFF_SECONDS cfg) (Z.max 10 z)))
   else ret tt) ;;;
  ret resp.

Definition _verify_server_signature (tokens_subset : tokens)
  (signature_b64 : string) : result bool :=
  if PyStr.falsy (SERVER_PUBLIC_KEY_BASE64 cfg) then Ok false
  else
    let data := PyStr.encode (to_canonical_string tokens_subset) in
    verify_with_public_b64 lib (SERVER_PUBLIC_KEY_BASE64 cfg) data
                           signature_b64.

Definition COMMAND_SIGNABLE : list string :=
  ["CMD1"; "CMD2"; "CMD3"; "CMD4"; "CMD5"; "TS"].

(** [{k: v for k, v in c.items() if k in {...}}] *)
Definition command_subset (c : tokens) : tokens :=
  filter (fun e => existsb (String.eqb (fst e)) COMMAND_SIGNABLE) c.

(** One turn of the loop over [cmds] in [commands_poll]. *)
Definition poll_step (verified : list tokens) (c : tokens)
  : result (list tokens) :=
  match get c "SIG_SERV" with
  | None => Ok verified
  | Some sig_serv =>
      if PyStr.falsy sig_serv || PyStr.falsy (SERVER_PUBLIC_KEY_BASE64 cfg)
      then Ok verified
      else rbind (_verify_server_signature (command_subset c) sig_serv)
                 (fun b => Ok (if b then verified ++ [c] else verified))
  end.

Fixpoint poll_loop (verified : list tokens) (cmds : list tokens)
  : result (list tokens) :=
  match cmds with
  | [] => Ok verified
  | c :: cmds' => rbind (poll_step verified c) (fun v => poll_loop v cmds')
  end.

Definition commands_poll : M (list tokens) :=
  ts <- _ts ;;
  nonce <- _nonce ;;
  let toks : tokens :=
    [ ("D1", Some (DEVICE_ID cfg)); ("TS", Some ts); ("NONCE", Some nonce) ] in
  let query := signed_payload toks in
  audit "commands_poll" "out" query ;;;
  r <- http_get "/api/devices/commands" query ;;
  let '(_, text, resp) := r in
  audit "commands_poll" "in" text ;;;
  let cmds := parse_array_tokens resp "CMD" in
  lift (poll_loop [] cmds).

(** The dictionary literal of [command_ack]. *)
Definition command_ack_tokens (cmd_id : pyval) (ok : bool) (message : pyval)
  (duration_ms : Z) (ts nonce : string) : tokens :=
  [ ("D1", Some (DEVICE_ID cfg));
    ("CMD1", cmd_id);
    ("ACK1", Some (if ok then "OK" else "ERROR"));
    ("ACK2", message);
    ("ACK3", Some (PyStr.of_Z duration_ms));
    ("TS", Some ts);
    ("NONCE", Some nonce) ].

Definition command_ack (cmd_id : pyval) (ok : bool) (message : pyval)
  (duration_ms : Z) : M tokens :=
  ts <- _ts ;;
  nonce <- _nonce ;;
  let toks := command_ack_tokens cmd_id ok message duration_ms ts nonce in
  let payload := signed_payload toks in
  audit "command_ack" "out" payload ;;;
  r <- post "/api/devices/command-ack" payload ;;
  let '(_, text, resp) := r in
  audit "command_ack" "in" text ;;;
  ret resp.

Definition firmware_check : M tokens :=
  fw <- gets current_fw ;;
  ts <- _ts ;;
  nonce <- _nonce ;;
  let toks : tokens :=
    [ ("D1", Some (DEVICE_ID cfg)); ("FW2", Some fw);
      ("TS", Some ts); ("NONCE", Some nonce) ] in
  let payload := signed_payload toks in
  audit "fw_check" "out" payload ;;;
  r <- post "/api/devices/firmware/check" payload ;;
  let '(_, text, resp) := r in
  audit "fw_check" "in" text ;;;
  ret resp.

Definition _download_to (url : pyval) (path : string) : M bool :=
  if negb (truthy url) then ret false
  else ask (fun h => w_download w h (fstr url) path)
           (EvDownload (fstr url) path).

Definition _apply_staged (path : string) : M bool :=
  ask (fun h => w_exists w h path) (EvExists path).

(** [hashlib.sha256] over the chunks of the staged file. *)
Definition file_sha256_hex (path : string) : M string :=
  ask_r (fun h => w_digest w h path) (EvDigest path).

(** [{k: resp[k] for k in ["FW1", "FW2", "FW4", "FW5"] if k in resp}] *)
Definition manifest_subset (resp : tokens) : tokens :=
  flat_map (fun k => match lookup k resp with
                     | Some v => [(k, v)]
                     | None => []
                     end)
           ["FW1"; "FW2"; "FW4"; "FW5"].

(** The dictionary literal [ack_tokens] of [firmware_apply_flow]. *)
Definition firmware_ack_tokens (resp : tokens) (fw_id : pyval)
  (applied : bool) (ts nonce : string) : tokens :=
  [ ("D1", Some (DEVICE_ID cfg));
    ("FW1", fw_id);
    ("FW2", get_default resp "FW2" (Some ""));
    ("ACK1", Some (if applied then "OK" else "ERROR"));
    ("ACK2", Some (if applied then "Firmware applied successfully"
                   else "Apply failed, rolled back"));
    ("TS", Some ts);
    ("NONCE", Some nonce) ].

(** The acknowledgment stage of [firmware_apply_flow]. *)
Definition firmware_ack (resp : tokens) (fw_id : pyval) (applied : bool)
  : M bool :=
  ts <- _ts ;;
  nonce <- _nonce ;;
  let ack_tokens := firmware_ack_tokens resp fw_id applied ts nonce in
  let ack_payload := signed_payload ack_tokens in
  audit "fw_ack" "out" ack_payload ;;;
  r <- post "/api/devices/firmware/ack" ack_payload ;;
  let '(_, ack_text, _) := r in
  audit "fw_ack" "in" ack_text ;;;
  (if applied
   then modify (fun s =>
          set_current_fw
            (fstr (get_default resp "FW2" (Some (current_fw s)))) s)
   else ret tt) ;;;
  ret applied.

Definition firmware_apply_flow (resp : tokens) (force_fail : bool)
  : M bool :=
  let fw_sig := get resp "FW_SIG" in
  let vt := manifest_subset resp in
  sig_ok <- (if negb (truthy fw_sig) then ret false
             else lift (_verify_server_signature vt (fstr fw_sig))) ;;
  if negb sig_ok
  then audit "fw_manifest" "in" "ERR: invalid FW_SIG" ;;; ret false
  else
    let url := get resp "FW3" in
    let checksum_hex := get resp "FW4" in
    let fw_id := get_default resp "FW1" (Some "fw") in
    let path := w_path_join w (OTA_STAGING_DIR cfg) (fstr fw_id ++ ".bin")%string in
    ok <- _download_to url path ;;
    if negb ok
    then audit "fw_download" "in" "ERR: download failed" ;;; ret false
    else
      mismatch <- (if truthy checksum_hex
                   then h <- file_sha256_hex path ;;
                        ret (negb (String.eqb h (fstr checksum_hex)))
                   else ret false) ;;
      if (mismatch : bool)
      then audit "fw_checksum" "in" "ERR: checksum mismatch" ;;; ret false
      else
        applied <- (if force_fail then ret false else _apply_staged path) ;;
        firmware_ack resp fw_id applied.

(** The [try] block of [_handle_command]: outcome and message. *)
Definition dispatch (cmd : tokens) : result (bool * pyval) :=
  let ctype := get_default cmd "CMD2" (Some "") in
  if pyval_eqb ctype "RESTART" then Ok (true, Some "Restart simulated")
  else if pyval_eqb ctype "FETCH_LOGS"
       then Ok (true, py_or (get_default cmd "CMD3" (Some ""))
                            (Some "logs captured"))
       else Ok (false, Some ("unsupported command " ++ fstr ctype)%string).

Definition _handle_command (cmd : tokens) : M unit :=
  let cmd_id := get_default cmd "CMD1" (Some "") in
  start <- time_time ;;
  let '(ok, message) :=
    match dispatch cmd with
    | Ok r => r
    | Raise e => (false, Some ("error: " ++ exc_msg e)%string)
    end in
  (* finally *)
  stop <- time_time ;;
  let dur_ms := PyStr.int_of_float ((stop - start) * 1000)%Q in
  command_ack cmd_id ok message dur_ms ;;;
  ret tt.

(** The [try] block of the loop of [run_forever]. *)
Definition loop_try : M unit :=
  resp <- heartbeat_once ;;
  let pending := get resp "PENDING_CMDS" in
  poll <- (if truthy pending
           then z <- lift (int_of_val pending) ;; ret (0 <? z)%Z
           else ret false) ;;
  cmds <- (if (poll : bool) then commands_poll else ret []) ;;
  for_each _handle_command cmds ;;;
  if pyval_eqb (get resp "FW_AVAILABLE") "true" || truthy (get resp "FW2")
  then fw_resp <- firmware_check ;;
       if pyval_eqb (get fw_resp "S1") "update_available"
       then firmware_apply_flow fw_resp false ;;; ret tt
       else ret tt
  else ret tt.

(** The integers [asyncio.sleep] cannot turn into a float: those that
    round to 2^1024 or more. *)
Definition FLOAT_OVERFLOW : Z := 2 ^ 1024 - 2 ^ 970.

(** [await asyncio.sleep(seconds)] for an [int]: a delay of zero or less
    returns at once; any other is added to the loop's clock, a float,
    which raises [OverflowError] when the delay is out of the range of
    floats.  [EvSleep] records a sleep that took place. *)
Definition sleep_overflow : exc :=
  mk_exc OverflowError "int too large to convert to float".

Definition sleep (seconds : Z) : M unit :=
  if (seconds <? FLOAT_OVERFLOW)%Z
  then fun s => (Ok tt, log (EvSleep seconds) s)
  else raise sleep_overflow.

(** One turn of the loop: the interval slept, which is the next
    [backoff]. *)
Definition loop_iteration (backoff : Z) : M Z :=
  fun s =>
    match loop_try s with
    | (Ok _, s1) =>
        (b <- gets rto_sec ;; sleep b ;;; ret b) s1
    | (Raise e, s1) =>
        (audit "error" "in" (exc_name e ++ ":" ++ exc_msg e)%string ;;;
         let b := Z.min (MAX_BACKOFF_SECONDS cfg) (Z.max 10 (backoff * 2)) in
         sleep b ;;; ret b) s1
    end.

(** The first [n] turns of the loop. *)
Fixpoint run_loop (n : nat) (backoff : Z) : M Z :=
  match n with
  | O => ret backoff
  | S n' => b <- loop_iteration backoff ;; run_loop n' b
  end.

(** [run_forever], cut after [n] turns of its loop. *)
Definition run_forever (n : nat) : M Z :=
  init_db ;;;
  register ;;;
  backoff <- gets rto_sec ;;
  run_loop n backoff.

End Client.

(* ------------------------------------------------------------------ *)
(** ** keys.py: the key file *)
(* ------------------------------------------------------------------ *)

(** [load_or_create_keys] and [_write_secure] over a disk that is a
    mapping from paths to files.  A key object of PyNaCl is given by its
    bytes.  A file holds a JSON object of strings - what [json.dump]
    writes for the dictionary of [load_or_create_keys] and [json.load]
    reads back - or anything else; every file operation may fail with an
    [OSError], as the disk world says. *)
Module KeyFile.

Record DeviceKeys : Type := {
  signing_key : string;
  verify_key : string
}.

(** The library calls: [base64.b64decode], [base64.b64encode],
    [signing.SigningKey(seed)], the key drawn by
    [signing.SigningKey.generate()], and [sk.verify_key]. *)
Record KeyLib : Type := {
  kl_b64decode : string -> result string;
  kl_b64encode : string -> string;
  kl_signing_key : string -> result string;
  kl_generate : string;
  kl_verify_key : string -> string
}.

Inductive file_content : Type :=
| JsonObject (doc : dict string)
| OtherContent.

Record File : Type := {
  f_content : file_content;
  f_mode : Z
}.

Definition Disk : Type := dict File.

Inductive disk_op : Type :=
| OpenRead (path : string)
| OpenWrite (path : string)
| WriteJson (path : string)
| Chmod (path : string) (mode : Z)
| Replace (src dst : string).

(** The outside of the key file: which file operations fail, the
    permission bits a newly created file gets, and pathlib's
    [with_suffix]. *)
Record DiskWorld : Type := {
  dw_fails : disk_op -> option exc;
  dw_create_mode : Z;
  dw_with_suffix : string -> string -> string
}.

(** What [load_or_create_keys] can raise: the [KeyError] of [doc[...]],
    the error of reading a file that holds no JSON object of strings, an
    exception of base64 or PyNaCl, the [OSError] of a file operation. *)
Inductive key_exc : Type :=
| KeyError (key : string)
| JsonError
| LibError (e : exc)
| FileError (e : exc).

Inductive key_result (A : Type) : Type :=
| Got (a : A)
| Failed (e : key_exc).
Arguments Got {A} a.
Arguments Failed {A} e.

(** [del d[k]] *)
Definition disk_remove (k : string) (d : Disk) : Disk :=
  filter (fun e => negb (String.eqb (fst e) k)) d.

(** [os.replace(src, dst)] for an existing [src]. *)
Definition disk_replace (src dst : string) (d : Disk) : Disk :=
  if String.eqb src dst then d
  else match lookup src d with
       | Some f => dict_set dst f (disk_remove src d)
       | None => d
       end.

(** 0o600 *)
Definition OWNER_ONLY : Z := 384.

Section Store.
Variable kl : KeyLib.
Variable dw : DiskWorld.
Variable KEYS_PATH : string.

(** [DeviceKeys.private_key_b64] and [DeviceKeys.public_key_b64] *)
Definition private_key_b64 (k : DeviceKeys) : string :=
  kl_b64encode kl (signing_key k).

Definition public_key_b64 (k : DeviceKeys) : string :=
  kl_b64encode kl (verify_key k).

Definition _write_secure (path : string) (data : dict string) (d : Disk)
  : key_result unit * Disk :=
  let tmp := dw_with_suffix dw path ".tmp" in
  (* with open(tmp, "w") as f *)
  match dw_fails dw (OpenWrite tmp) with
  | Some e => (Failed (FileError e), d)
  | None =>
      let mode := match lookup tmp d with
                  | Some f => f_mode f
                  | None => dw_create_mode dw
                  end in
      let d1 := dict_set tmp {| f_content := OtherContent; f_mode := mode |} d in
      (* json.dump(data, f) *)
      match dw_fails dw (WriteJson tmp) with
      | Some e => (Failed (FileError e), d1)
      | None =>
          let d2 := dict_set tmp {| f_content := JsonObject data;
                                    f_mode := mode |} d1 in
          (* os.chmod(tmp, 0o600) *)
          match dw_fails dw (Chmod tmp OWNER_ONLY) with
          | Some e => (Failed (FileError e), d2)
          | None =>
              let d3 := dict_set tmp {| f_content := JsonObject data;
                                        f_mode := OWNER_ONLY |} d2 in
              (* os.replace(tmp, path) *)
              match dw_fails dw (Replace tmp path) with
              | Some e => (Failed (FileError e), d3)
              | None => (Got tt, disk_replace tmp path d3)
              end
          end
      end
  end.

(** The branch of [load_or_create_keys] for an existing key file. *)
Definition load_keys (d : Disk) : key_result DeviceKeys :=
  match dw_fails dw (OpenRead KEYS_PATH) with
  | Some e => Failed (FileError e)
  | None =>
      match option_map f_content (lookup KEYS_PATH d) with
      | Some (JsonObject doc) =>
          match lookup "private_key_b64" doc with
          | None => Failed (KeyError "private_key_b64")
          | Some b64 =>
              match kl_b64decode kl b64 with
              | Raise e => Failed (LibError e)
              | Ok sk_bytes =>
                  match kl_signing_key kl sk_bytes with
                  | Raise e => Failed (LibError e)
                  | Ok sk => Got {| signing_key := sk;
                                    verify_key := kl_verify_key kl sk |}
                  end
              end
          end
      | _ => Failed JsonError
      end
  end.

Definition load_or_create_keys (d : Disk) : key_result DeviceKeys * Disk :=
  if mem KEYS_PATH d then (load_keys d, d)
  else
    let sk := kl_generate kl in
    let keys := {| signing_key := sk; verify_key := kl_verify_key kl sk |} in
    match _write_secure KEYS_PATH
            [ ("private_key_b64", private_key_b64 keys);
              ("public_key_b64", public_key_b64 keys) ] d with
    | (Got _, d') => (Got keys, d')
    | (Failed e, d') => (Failed e, d')
    end.

End Store.

End KeyFile.

(* ================================================================== *)
(** * Vocabulary of the properties *)
(* ================================================================== *)

(* ------------------------------------------------------------------ *)
(** ** Canonical form *)
(* ------------------------------------------------------------------ *)

(** Keys in ascending and in strictly ascending order, as [sorted] compares
    them. *)
Definition key_le (a b : string) : Prop := String.leb a b = true.
Definition key_lt (a b : string) : Prop := String.ltb a b = true.

(** What [k.startswith(SIG_PREFIX)] amounts to: "SIG_SERV" begins with
    "SIG", so two prefixes decide. *)
Definition reserved (k : string) : bool :=
  PyStr.startswith k "SIG" || PyStr.startswith k "FW_SIG".

(** The reserved keys as the specification lists them: equal to or
    starting with SIG, equal to FW_SIG, equal to SIG_SERV. *)
Definition reserved_as_specified (k : string) : bool :=
  PyStr.startswith k "SIG" || String.eqb k "FW_SIG" || String.eqb k "SIG_SERV".

(** The canonical form with the reserved keys of the specification. *)
Definition canonicalize_as_specified (toks : tokens) : string :=
  PyStr.join "|"
    (flat_map (fun k => if reserved_as_specified k then []
                        else match lookup k toks with
                             | Some (Some v) => [kv k v]
                             | _ => []
                             end)
              (sorted (keys toks))).

(** The entries the canonical form shows, in the order it shows them. *)
Definition signable_item (toks : tokens) (k : string) : list (string * string) :=
  if reserved k then []
  else match lookup k toks with
       | Some (Some v) => [(k, v)]
       | _ => []
       end.

Definition signable_entries (toks : tokens) : list (string * string) :=
  flat_map (signable_item toks) (sorted (keys toks)).

(** A signed message as the client builds it, with one absent value. *)
Definition canonical_demo : tokens :=
  [("TS", Some "t1"); ("SIG1", Some "zz"); ("D1", Some "dev"); ("X", None)].

(* ------------------------------------------------------------------ *)
(** ** Wire form *)
(* ------------------------------------------------------------------ *)

(** The (key, value) pairs of a wire string, in order: the parts
    between "|" that hold a ":", cut at their first ":". *)
Definition wire_pairs (payload : string) : list (string * string) :=
  flat_map (fun p => match PyStr.split1 ":"%char p with
                     | Some e => [e]
                     | None => []
                     end)
           (PyStr.split "|"%char (PyStr.strip payload)).

(** The value of the last pair with key [k]. *)
Fixpoint last_binding (k : string) (l : list (string * string))
  : option string :=
  match l with
  | [] => None
  | (k', v) :: l' =>
      match last_binding k l' with
      | Some v' => Some v'
      | None => if String.eqb k' k then Some v else None
      end
  end.

(** The entries of a mapping whose values are all present. *)
Definition present_entries (d : tokens) : list (string * string) :=
  flat_map (fun e => match snd e with
                     | Some x => [(fst e, x)]
                     | None => []
                     end) d.

(** What a mapping needs for its wire form to be read back: values
    present, no delimiter inside a key, no "|" inside a value. *)
Definition wire_safe (d : tokens) : Prop :=
  forall k v, In (k, v) d ->
    exists x, v = Some x
              /\ PyStr.contains "|"%char k = false
              /\ PyStr.contains ":"%char k = false
              /\ PyStr.contains "|"%char x = false.

(** A message whose values hold a blank, colons and dots, but no "|". *)
Definition wire_demo : tokens :=
  [("D1", Some "dev 1"); ("TS", Some "2025-12-02T10:30:00.000Z"); ("SIG1", Some "c2ln")].

(* ------------------------------------------------------------------ *)
(** ** Array tokens *)
(* ------------------------------------------------------------------ *)

(** [r] is empty or begins outside the character class [p]. *)
Definition not_in_class (p : ascii -> bool) (r : string) : Prop :=
  match r with
  | EmptyString => True
  | String c _ => p c = false
  end.

(** Names the pattern accepts: a non-empty run of [[A-Z0-9]] for the
    prefix, of [[A-Z0-9_]] for a field. *)
Definition prefix_ok (p : string) : Prop :=
  PyStr.all_chars is_prefix_char p = true /\ PyStr.falsy p = false.

Definition field_ok (k : string) : Prop :=
  PyStr.all_chars is_key_char k = true /\ PyStr.falsy k = false.

(** The entries [build_array_tokens] writes for element [i], and for the
    elements of a sequence numbered from [a]. *)
Definition item_entries (pre : string) (i : nat) (item : tokens) : tokens :=
  map (fun e => (array_key pre i (fst e), snd e)) item.

Fixpoint flat_entries (pre : string) (a : nat) (items : list tokens) : tokens :=
  match items with
  | [] => []
  | item :: rest => item_entries pre a item ++ flat_entries pre (S a) rest
  end.

(** A field-mapping the array encoding can carry: at least one field,
    distinct field names, each accepted by the pattern. *)
Definition item_ok (item : tokens) : Prop :=
  item <> [] /\ dict_wf item /\ Forall field_ok (keys item).

(** Two commands, the second with an absent argument. *)
Definition commands_demo : list tokens :=
  [ [("CMD1", Some "c-1"); ("CMD2", Some "RESTART"); ("SIG_SERV", Some "s1")];
    [("CMD1", Some "c-2"); ("CMD2", Some "FETCH_LOGS"); ("CMD3", None)] ].

(* ------------------------------------------------------------------ *)
(** ** Signature check *)
(* ------------------------------------------------------------------ *)

(** What the documentation of [base64] and PyNaCl promises for text and
    byte-string arguments: decoding fails with [binascii.Error] or
    [ValueError], key construction with [nacl.exceptions.ValueError],
    verification with [BadSignatureError] or that [ValueError]. *)
Definition library_contract (lib : Nacl) : Prop :=
  (forall t x, b64decode lib t = Raise x -> exc_cls x = ValueError)
  /\ (forall kb x, VerifyKey lib kb = Raise x -> exc_cls x = ValueError)
  /\ (forall vk data sg x, vk_verify lib vk data sg = Raise x ->
        exc_cls x = ValueError \/ exc_cls x = BadSignatureError).

(** All four steps of the check go through. *)
Definition signature_valid (lib : Nacl) (public_key_b64 data signature_b64 : string)
  : Prop :=
  exists kb vk sg m,
    b64decode lib public_key_b64 = Ok kb /\ VerifyKey lib kb = Ok vk
    /\ b64decode lib signature_b64 = Ok sg /\ vk_verify lib vk data sg = Ok m.

(* ------------------------------------------------------------------ *)
(** ** What a trace shows *)
(* ------------------------------------------------------------------ *)

(** The payloads of the acknowledgment calls begun ([command_ack] audits
    its payload first) and of the acknowledgments put on the transport. *)
Definition ack_calls (tr : list event) : list string :=
  flat_map (fun e => match e with
                     | EvAudit kind dir raw _ =>
                         if String.eqb kind "command_ack" && String.eqb dir "out"
                         then [raw] else []
                     | _ => []
                     end) tr.

Definition ack_posts (tr : list event) : list string :=
  flat_map (fun e => match e with
                     | EvPost path payload _ =>
                         if String.eqb path "/api/devices/command-ack"
                         then [payload] else []
                     | _ => []
                     end) tr.

(** Stage events of the firmware pipeline: the digest of the staged
    file, the apply stage ([os.path.exists] of [_apply_staged]), and any
    message put on the transport. *)
Definition is_digest (e : event) : bool :=
  match e with EvDigest _ _ => true | _ => false end.

Definition is_apply (e : event) : bool :=
  match e with EvExists _ _ => true | _ => false end.

Definition is_post (e : event) : bool :=
  match e with EvPost _ _ _ => true | _ => false end.

(** The exception a logged call raised, if it did. *)
Definition raised (e : event) : option exc :=
  match e with
  | EvInitDb (Raise x) | EvAudit _ _ _ (Raise x) | EvAddNonce _ (Raise x)
  | EvPost _ _ (Raise x) | EvGet _ _ (Raise x) | EvDigest _ (Raise x) => Some x
  | _ => None
  end.

(** The last call of the trace raised [x]. *)
Definition failed_call (tr : list event) (x : exc) : Prop :=
  exists tr' e, tr = tr' ++ [e] /\ raised e = Some x.

(** An audit call that begins an acknowledgment of a command. *)
Definition is_ack_call (e : event) : bool :=
  match e with
  | EvAudit kind dir _ _ =>
      String.eqb kind "command_ack" && String.eqb dir "out"
  | _ => false
  end.

(** [payload] is an acknowledgment of the command [c]: it is signed by
    the device and carries the identifier CMD1 of [c]. *)
Definition acks_command (cfg : Config) (lib : Nacl) (c : tokens)
  (payload : string) : Prop :=
  exists ok message dur ts nonce,
    payload = signed_payload lib
                (command_ack_tokens cfg (get_default c "CMD1" (Some ""))
                                    ok message dur ts nonce).

(** What one run of [_handle_command] does, from state [s] to the result
    [r] and the state [s']. *)
Definition acknowledged_once (cfg : Config) (lib : Nacl) (cmd : tokens)
  (s : State) (r : result unit) (s' : State) : Prop :=
  let ctype := get_default cmd "CMD2" (Some "") in
  exists t0 t1 ok message ts nonce r1 rest,
    let payload :=
      signed_payload lib
        (command_ack_tokens cfg (get_default cmd "CMD1" (Some "")) ok message
           (PyStr.int_of_float ((t1 - t0) * 1000)%Q) ts nonce) in
    trace s' = trace s ++ [EvClock t0; EvClock t1; EvTs ts; EvNonce nonce;
                           EvAudit "command_ack" "out" payload r1] ++ rest
    /\ ack_calls rest = []
    /\ (ack_posts rest = [payload]
        \/ (ack_posts rest = [] /\ exists x, r = Raise x))
    /\ (pyval_eqb ctype "RESTART" || pyval_eqb ctype "FETCH_LOGS" = true
        -> ok = true)
    /\ (pyval_eqb ctype "RESTART" || pyval_eqb ctype "FETCH_LOGS" = false
        -> ok = false
           /\ message = Some ("unsupported command " ++ fstr ctype)%string)
    /\ (r = Ok tt \/ exists x, r = Raise x /\ failed_call (trace s') x).

(** A field that never changes. *)
Definition no_field (s : State) : unit := tt.

(** Calls of [add_nonce]. *)
Definition is_add_nonce (e : event) : bool :=
  match e with EvAddNonce _ _ => true | _ => false end.

(** No event at all. *)
Definition no_event (e : event) : bool := false.

(** [m] never changes the field [f] and never logs an event in [p]. *)
Definition preserves {X A : Type} (f : State -> X) (p : event -> bool)
  (m : M A) : Prop :=
  forall s, f (snd (m s)) = f s
            /\ exists evs, trace (snd (m s)) = trace s ++ evs
                           /\ existsb p evs = false.

(** A command carries a server signature that verifies, under the
    configured server key, over the canonical form of its signable
    fields. *)
Definition server_signed (cfg : Config) (lib : Nacl) (c : tokens) : bool :=
  match get c "SIG_SERV" with
  | Some sig_serv =>
      negb (PyStr.falsy sig_serv)
      && negb (PyStr.falsy (SERVER_PUBLIC_KEY_BASE64 cfg))
      && match verify_with_public_b64 lib (SERVER_PUBLIC_KEY_BASE64 cfg)
                 (PyStr.encode (to_canonical_string (command_subset c)))
                 sig_serv with
         | Ok true => true
         | _ => false
         end
  | None => false
  end.

(* ------------------------------------------------------------------ *)
(** ** Signed messages and array keys *)
(* ------------------------------------------------------------------ *)

(** The mapping a signed message is serialized from:
    [tokens["SIG1"] = sig] with the signature of the canonical form. *)
Definition signed_tokens (lib : Nacl) (toks : tokens) : tokens :=
  dict_set "SIG1" (Some (sign lib (PyStr.encode (to_canonical_string toks)))) toks.

(** The token [e] belongs to the array [pre]: its key matches the
    pattern, with that prefix. *)
Definition array_token (pre : string) (e : string * pyval) : bool :=
  match array_key_match (fst e) with
  | Some (p, _, _) => String.eqb p pre
  | None => false
  end.

(** What every decoded element of the array [pre] of [toks] is like: it
    has a field, its field names are distinct and accepted by the
    pattern, and each field was a token of [toks] under an array key
    with that prefix and that field name. *)
Definition decoded_from (toks : tokens) (pre : string) (item : tokens) : Prop :=
  item <> [] /\ dict_wf item
  /\ forall f v, In (f, v) item ->
       field_ok f
       /\ exists key idx, In (key, v) toks
                          /\ array_key_match key = Some (pre, idx, f).

(** The index and the field that a token of the array [pre] names; the
    index is the number its digits spell. *)
Definition token_index (pre : string) (e : string * pyval)
  : option (nat * string) :=
  match array_key_match (fst e) with
  | Some (p, idx, key) =>
      if String.eqb p pre then Some (PyStr.digits_val idx, key) else None
  | None => None
  end.

(** The element of index [i] that the tokens [toks] spell out: the
    fields of the tokens that name this index, in the order of the
    tokens, a later value taking the place of an earlier one of the same
    field. *)
Definition element_at (pre : string) (i : nat) (toks : tokens) : tokens :=
  fold_left (fun item e =>
               match token_index pre e with
               | Some (j, key) =>
                   if Nat.eqb j i then dict_set key (snd e) item else item
               | None => item
               end)
            toks [].

(** The index of a token of the array [pre] has no more digits than
    [int()] converts. *)
Definition index_convertible (pre : string) (e : string * pyval) : bool :=
  match array_key_match (fst e) with
  | Some (p, idx, _) =>
      negb (String.eqb p pre)
      || (String.length idx <=? PyStr.INT_MAX_STR_DIGITS)%nat
  | None => true
  end.

(** Two elements sent out of order, with a gap and with their tokens
    mixed: index 10 first, then index 2, which is also written 002, and
    a token that belongs to no array. *)
Definition shuffled_demo : tokens :=
  [ ("CMD[10].CMD1", Some "c-b"); ("CMD[2].CMD1", Some "c-a");
    ("S1", Some "ok"); ("CMD[10].CMD2", Some "RESTART");
    ("CMD[002].CMD3", Some "now") ].

(** The entry holds a value. *)
Definition present (e : string * pyval) : bool :=
  match snd e with Some _ => true | None => false end.

(** A registration message before it is signed. *)
Definition unsigned_demo : tokens :=
  [("D1", Some "pi-1"); ("TS", Some "2025-12-02T10:30:00.000Z"); ("NONCE", Some "n1")].

(* ------------------------------------------------------------------ *)
(** ** The key file *)
(* ------------------------------------------------------------------ *)

(** The key pair [load_or_create_keys] generates, and the dictionary it
    writes for a key pair. *)
Definition fresh_keys (kl : KeyFile.KeyLib) : KeyFile.DeviceKeys :=
  {| KeyFile.signing_key := KeyFile.kl_generate kl;
     KeyFile.verify_key := KeyFile.kl_verify_key kl (KeyFile.kl_generate kl) |}.

Definition key_doc (kl : KeyFile.KeyLib) (keys : KeyFile.DeviceKeys)
  : dict string :=
  [ ("private_key_b64", KeyFile.private_key_b64 kl keys);
    ("public_key_b64", KeyFile.public_key_b64 kl keys) ].

(** The complete key file: the dictionary of the key pair, readable by
    its owner only. *)
Definition key_file (kl : KeyFile.KeyLib) (keys : KeyFile.DeviceKeys)
  : KeyFile.File :=
  {| KeyFile.f_content := KeyFile.JsonObject (key_doc kl keys);
     KeyFile.f_mode := KeyFile.OWNER_ONLY |}.

(** What the libraries promise: base64 decoding undoes encoding, and the
    bytes of a generated signing key build that key again. *)
Definition key_lib_contract (kl : KeyFile.KeyLib) : Prop :=
  (forall x, KeyFile.kl_b64decode kl (KeyFile.kl_b64encode kl x) = Ok x)
  /\ KeyFile.kl_signing_key kl (KeyFile.kl_generate kl)
     = Ok (KeyFile.kl_generate kl).

(** No file operation fails. *)
Definition disk_works (dw : KeyFile.DiskWorld) : Prop :=
  forall op, KeyFile.dw_fails dw op = None.

(** The key [keys] is what the key file at [path] holds. *)
Definition read_from_file (kl : KeyFile.KeyLib) (path : string)
  (d : KeyFile.Disk) (keys : KeyFile.DeviceKeys) : Prop :=
  exists doc b64 sk_bytes,
    option_map KeyFile.f_content (lookup path d)
    = Some (KeyFile.JsonObject doc)
    /\ lookup "private_key_b64" doc = Some b64
    /\ KeyFile.kl_b64decode kl b64 = Ok sk_bytes
    /\ KeyFile.kl_signing_key kl sk_bytes = Ok (KeyFile.signing_key keys)
    /\ KeyFile.verify_key keys
       = KeyFile.kl_verify_key kl (KeyFile.signing_key keys).

(** A toy stand-in for the libraries (base64 text is the bytes
    themselves, a seed has four bytes) and a disk on which nothing fails
    and new files are world-readable (0o644). *)
Definition toy_key_lib : KeyFile.KeyLib := {|
  KeyFile.kl_b64decode := fun s => Ok s;
  KeyFile.kl_b64encode := fun s => s;
  KeyFile.kl_signing_key := fun seed =>
    if (String.length seed =? 4)%nat then Ok seed
    else Raise (mk_exc ValueError "The seed must be exactly 32 bytes long");
  KeyFile.kl_generate := "SEED";
  KeyFile.kl_verify_key := fun sk => ("pub-" ++ sk)%string
|}.

Definition toy_keys_path : string := "/home/pi/.toon/device_keys.json".

Definition toy_disk_world : KeyFile.DiskWorld := {|
  KeyFile.dw_fails := fun _ => None;
  KeyFile.dw_create_mode := 420;
  KeyFile.dw_with_suffix := fun _ suffix =>
    ("/home/pi/.toon/device_keys" ++ suffix)%string
|}.

(** A disk that holds the database only, and one that holds a key file
    written earlier. *)
Definition toy_disk : KeyFile.Disk :=
  [ ("/home/pi/.toon/toon_client.db",
     {| KeyFile.f_content := KeyFile.OtherContent; KeyFile.f_mode := 420 |}) ].

Definition toy_disk_with_key : KeyFile.Disk :=
  [ (toy_keys_path,
     {| KeyFile.f_content :=
          KeyFile.JsonObject [ ("private_key_b64", "OLDK");
                               ("public_key_b64", "pub-OLDK") ];
        KeyFile.f_mode := 384 |}) ].

(* ------------------------------------------------------------------ *)
(** ** A scripted world for the examples *)
(* ------------------------------------------------------------------ *)

(** A toy stand-in for the library calls: base64 text is taken as it is
    when it holds only letters and digits, a key has four bytes, and the
    signature of [data] under key [k] is [k] followed by the length of
    [data]. *)
Definition toy_signature (key data : string) : string :=
  (key ++ PyStr.of_nat (String.length data))%string.

(** Letters and digits. *)
Definition is_alnum (a : ascii) : bool :=
  let n := nat_of_ascii a in
  is_prefix_char a || ((97 <=? n) && (n <=? 122))%nat.

(** The device signs with the key "DKEY". *)
Definition toy_lib : Nacl := {|
  b64decode := fun s =>
    if PyStr.all_chars is_alnum s then Ok s
    else Raise (mk_exc ValueError "Incorrect padding");
  b64encode := fun s => s;
  VerifyKey := fun kb =>
    if (String.length kb =? 4)%nat then Ok kb
    else Raise (mk_exc ValueError "The key must be exactly 32 bytes long");
  vk_verify := fun vk data sg =>
    if String.eqb sg (toy_signature vk data) then Ok data
    else Raise (mk_exc BadSignatureError "Signature was forged or corrupt");
  sk_sign := toy_signature "DKEY";
  verify_key_bytes := "DPUB"
|}.

(** The defaults of [config.py], with the server key "SKEY". *)
Definition toy_cfg : Config := {|
  DEVICE_ID := "pi-1";
  MANUFACTURER := "Raspberry_Pi_Foundation";
  MODEL := "Pi_4_Model_B";
  FIRMWARE_VERSION := "1.0.0";
  DEFAULT_RTO_SECONDS := 60;
  MAX_BACKOFF_SECONDS := 600;
  SERVER_PUBLIC_KEY_BASE64 := "SKEY";
  OTA_STAGING_DIR := "/home/pi/.toon/staging"
|}.

(** How many requests went to [path] so far. *)
Definition requests_to (path : string) (h : list event) : nat :=
  List.length (filter (fun e => match e with
                                | EvPost p _ _ | EvGet p _ _ => String.eqb p path
                                | _ => false
                                end) h).

(** A world that answers the [n]-th request to a path with
    [reply path n], whose storage never fails, whose clock advances a
    quarter of a second per call, and whose staging area behaves as
    [download], [digest] and [exists_] say. *)
Definition scripted_world (reply : string -> nat -> result (Z * string))
  (download : bool) (digest : string) (exists_ : bool) : World := {|
  w_ts := fun _ => "2025-12-02T10:30:00.000Z";
  w_nonce := fun h => ("n" ++ PyStr.of_nat (List.length h))%string;
  w_clock := fun h => (Z.of_nat (List.length h) # 4)%Q;
  w_telemetry := fun _ =>
    {| tm_uptime := "86400"; tm_memory := "256"; tm_cpu_temp := "45.5";
       tm_last_boot := "2025-12-01T10:30:00Z"; tm_network := "ONLINE" |};
  w_init_db := fun _ => Ok tt;
  w_audit := fun _ _ _ _ => Ok tt;
  w_add_nonce := fun _ _ => Ok tt;
  w_db_now := fun h =>
    ("2025-12-02 10:30:" ++ PyStr.of_nat (10 + List.length h))%string;
  w_post := fun h path _ => reply path (requests_to path h);
  w_get := fun h path _ => reply path (requests_to path h);
  w_download := fun _ _ _ => download;
  w_digest := fun _ _ => Ok digest;
  w_exists := fun _ _ => exists_;
  w_path_join := fun dir name => (dir ++ "/" ++ name)%string
|}.

(** The server of the examples: it accepts the registration with RTO 30,
    answers the first heartbeat with RTO 120 and pending commands and the
    later ones without directive, and serves three commands: one signed,
    one with a wrong signature, one unsigned. *)
Definition test_reply (path : string) (n : nat) : result (Z * string) :=
  if String.eqb path "/api/devices/register" then Ok (200%Z, "S1:registered|RTO:30")
  else if String.eqb path "/api/devices/heartbeat" then
    match n with
    | O => Ok (200%Z, "S1:ok|RTO:120|PENDING_CMDS:2")
    | _ => Ok (200%Z, "S1:ok")
    end
  else if String.eqb path "/api/devices/commands" then
    Ok (200%Z, "CMD[0].CMD1:c1|CMD[0].CMD2:RESTART|CMD[0].TS:t|CMD[0].SIG_SERV:SKEY25|CMD[1].CMD1:c2|CMD[1].CMD2:BAD|CMD[1].SIG_SERV:SKEY0|CMD[2].CMD1:c3|CMD[2].CMD2:FLY|CMD_COUNT:3")
  else Ok (200%Z, "S1:ok").

(** The world of the examples: the staged file has digest "ffff". *)
Definition toy_world : World := scripted_world test_reply true "ffff" true.

(** A manifest signed by the server, with checksum "abcd". *)
Definition toy_manifest : tokens :=
  [ ("S1", Some "update_available"); ("FW1", Some "fw9"); ("FW2", Some "2.0.0");
    ("FW3", Some "http://updates/fw9.bin"); ("FW4", Some "abcd");
    ("FW5", Some "10"); ("FW_SIG", Some "SKEY33") ].

(** The signed command the server of the examples serves. *)
Definition toy_command : tokens :=
  [ ("CMD1", Some "c1"); ("CMD2", Some "RESTART"); ("TS", Some "t");
    ("SIG_SERV", Some "SKEY25") ].

(* ------------------------------------------------------------------ *)
(** ** Registration, the run loop and the firmware stages *)
(* ------------------------------------------------------------------ *)

(** [resp.get("S1") in {"registered", "ok"}] *)
Definition accepted (resp : tokens) : bool :=
  pyval_eqb (get resp "S1") "registered" || pyval_eqb (get resp "S1") "ok".

(** The dictionary literal of [register]. *)
Definition register_tokens (cfg : Config) (lib : Nacl) (ts nonce : string)
  : tokens :=
  [ ("D1", Some (DEVICE_ID cfg));
    ("D2", Some "RPI_TERMINAL");
    ("D3", Some (public_key_b64 lib));
    ("D4", Some (MANUFACTURER cfg));
    ("D5", Some (MODEL cfg));
    ("TS", Some ts);
    ("NONCE", Some nonce) ].

(** The intervals slept, in order. *)
Definition sleeps (tr : list event) : list Z :=
  flat_map (fun e => match e with EvSleep z => [z] | _ => [] end) tr.

Definition is_sleep (e : event) : bool :=
  match e with EvSleep _ => true | _ => false end.

(** The interval after a failed turn:
    [min(MAX_BACKOFF_SECONDS, max(10, int(backoff * 2)))]. *)
Definition failure_backoff (cfg : Config) (backoff : Z) : Z :=
  Z.min (MAX_BACKOFF_SECONDS cfg) (Z.max 10 (backoff * 2)).

(** The manifest carries a firmware signature that verifies, under the
    configured server key, over the canonical form of its signable
    fields. *)
Definition manifest_signed (cfg : Config) (lib : Nacl) (resp : tokens) : Prop :=
  truthy (get resp "FW_SIG") = true
  /\ _verify_server_signature cfg lib (manifest_subset resp)
                              (fstr (get resp "FW_SIG")) = Ok true.

(** Where the pipeline stages the download. *)
Definition staged_path (cfg : Config) (w : World) (resp : tokens) : string :=
  w_path_join w (OTA_STAGING_DIR cfg)
              (fstr (get_default resp "FW1" (Some "fw")) ++ ".bin")%string.

(** What the directive RTO of a heartbeat reply [resp] does to the
    result [r] and the interval: nothing when it is absent or empty, the
    error of [int()] when it is no integer, the clamped value
    otherwise. *)
Definition directive_outcome (cfg : Config) (resp : tokens) (s : State)
  (r : result tokens) (s' : State) : Prop :=
  (truthy (get resp "RTO") = false /\ r = Ok resp /\ rto_sec s' = rto_sec s)
  \/ (truthy (get resp "RTO") = true
      /\ exists x, int_of_val (get resp "RTO") = Raise x
                   /\ r = Raise x /\ rto_sec s' = rto_sec s)
  \/ (truthy (get resp "RTO") = true
      /\ exists d, int_of_val (get resp "RTO") = Ok d
                   /\ r = Ok resp
                   /\ rto_sec s'
                      = Z.min (MAX_BACKOFF_SECONDS cfg) (Z.max 10 d)).

(** The calls of a run of [heartbeat_once] after the nonce was stored,
    with the result [r] and the interval left behind. *)
Definition heartbeat_exchange (cfg : Config) (payload : string) (s : State)
  (r : result tokens) (s' : State) (rest : list event) : Prop :=
  (exists x, rest = [EvAudit "heartbeat" "out" payload (Raise x)]
             /\ r = Raise x /\ rto_sec s' = rto_sec s)
  \/ (exists x, rest = [EvAudit "heartbeat" "out" payload (Ok tt);
                        EvPost "/api/devices/heartbeat" payload (Raise x)]
                /\ r = Raise x /\ rto_sec s' = rto_sec s)
  \/ (exists status text x,
        rest = [EvAudit "heartbeat" "out" payload (Ok tt);
                EvPost "/api/devices/heartbeat" payload (Ok (status, text));
                EvAudit "heartbeat" "in" text (Raise x)]
        /\ r = Raise x /\ rto_sec s' = rto_sec s)
  \/ (exists status text,
        rest = [EvAudit "heartbeat" "out" payload (Ok tt);
                EvPost "/api/devices/heartbeat" payload (Ok (status, text));
                EvAudit "heartbeat" "in" text (Ok tt)]
        /\ directive_outcome cfg (parse_tokens text) s r s').

(** The calls of [register] after its message was audited: none when
    that audit call raised, else the request with its outcome and, when
    an answer came, the audit record of the answer. *)
Definition register_exchange (payload : string) (evs : list event) : Prop :=
  evs = []
  \/ (exists x, evs = [EvPost "/api/devices/register" payload (Raise x)])
  \/ (exists status text a,
        evs = [EvPost "/api/devices/register" payload (Ok (status, text));
               EvAudit "register" "in" text a]).

(** Requests to the registration endpoint. *)
Definition is_register_post (e : event) : bool :=
  match e with
  | EvPost p _ _ => String.eqb p "/api/devices/register"
  | _ => false
  end.

(** A server that refuses the registration, and one whose heartbeat
    endpoint cannot be reached. *)
Definition refusing_reply (path : string) (n : nat) : result (Z * string) :=
  if String.eqb path "/api/devices/register"
  then Ok (403%Z, "S1:denied|ERR:unknown device")
  else test_reply path n.

Definition unreachable_reply (path : string) (n : nat) : result (Z * string) :=
  if String.eqb path "/api/devices/heartbeat"
  then Raise (mk_exc ClientError "Cannot connect to host")
  else test_reply path n.

(** A transport that is down: every request raises. *)
Definition down_reply (path : string) (n : nat) : result (Z * string) :=
  Raise (mk_exc ClientError "Cannot connect to host").

(* ------------------------------------------------------------------ *)
(** ** Runs written out call by call *)
(* ------------------------------------------------------------------ *)

(** The call [e], made after the calls [h], got the answer the world [w]
    gives after [h]. *)
Definition answered (w : World) (h : list event) (e : event) : Prop :=
  match e with
  | EvTs ts => ts = w_ts w h
  | EvNonce nonce => nonce = w_nonce w h
  | EvClock t => t = w_clock w h
  | EvTelemetry tm => tm = w_telemetry w h
  | EvInitDb r => r = w_init_db w h
  | EvAudit kind dir raw r => r = w_audit w h kind dir raw
  | EvAddNonce nonce r => r = w_add_nonce w h nonce
  | EvPost path payload r => r = w_post w h path payload
  | EvGet path query r => r = w_get w h path query
  | EvDownload url path ok => ok = w_download w h url path
  | EvDigest path r => r = w_digest w h path
  | EvExists path b => b = w_exists w h path
  | EvSleep _ => True
  end.

(** Every call of [evs], made in this order after [h], got the answer of
    the world. *)
Fixpoint truthful (w : World) (h evs : list event) : Prop :=
  match evs with
  | [] => True
  | e :: evs' => answered w h e /\ truthful w (h ++ [e]) evs'
  end.

(** The computation [m] only adds calls to the log, each with the answer
    of the world. *)
Definition logs_answers {A : Type} (w : World) (m : M A) : Prop :=
  forall s, exists evs, trace (snd (m s)) = trace s ++ evs
                        /\ truthful w (trace s) evs.

(** What an audit record that ends a stage leaves as the result of the
    pipeline: false, or the exception of the audit call. *)
Definition stopped (a : result unit) : result bool :=
  match a with Ok _ => Ok false | Raise x => Raise x end.

(** The acknowledgment of the firmware pipeline for the outcome
    [applied], as it goes on the wire: the seven fields, and the
    signature of the device over their canonical form. *)
Definition fw_ack_payload (cfg : Config) (lib : Nacl) (resp : tokens)
  (applied : bool) (ts nonce : string) : string :=
  let toks : tokens :=
    [ ("D1", Some (DEVICE_ID cfg));
      ("FW1", get_default resp "FW1" (Some "fw"));
      ("FW2", get_default resp "FW2" (Some ""));
      ("ACK1", Some (if applied then "OK" else "ERROR"));
      ("ACK2", Some (if applied then "Firmware applied successfully"
                     else "Apply failed, rolled back"));
      ("TS", Some ts);
      ("NONCE", Some nonce) ] in
  build_payload
    (toks ++ [("SIG1", Some (sign lib (PyStr.encode
                                         (to_canonical_string toks))))]).

(** The acknowledgment exchange of the pipeline, from the version [fw0]:
    the message is audited, sent, and the reply audited.  The first of
    these calls that raises ends the pipeline with its exception and
    the version kept; when the three succeed the pipeline returns
    [applied], and the version is the manifest's FW2 (or kept, without
    FW2) if [applied], and kept if not. *)
Definition fw_ack_exchange (resp : tokens) (payload : string)
  (applied : bool) (fw0 : string) (ack : list event) (r : result bool)
  (fw' : string) : Prop :=
  (exists x,
      ack = [EvAudit "fw_ack" "out" payload (Raise x)]
      /\ r = Raise x /\ fw' = fw0)
  \/ (exists x,
         ack = [EvAudit "fw_ack" "out" payload (Ok tt);
                EvPost "/api/devices/firmware/ack" payload (Raise x)]
         /\ r = Raise x /\ fw' = fw0)
  \/ (exists status text x,
         ack = [EvAudit "fw_ack" "out" payload (Ok tt);
                EvPost "/api/devices/firmware/ack" payload (Ok (status, text));
                EvAudit "fw_ack" "in" text (Raise x)]
         /\ r = Raise x /\ fw' = fw0)
  \/ (exists status text,
         ack = [EvAudit "fw_ack" "out" payload (Ok tt);
                EvPost "/api/devices/firmware/ack" payload (Ok (status, text));
                EvAudit "fw_ack" "in" text (Ok tt)]
         /\ r = Ok applied
         /\ fw' = if applied
                  then fstr (get_default resp "FW2" (Some fw0))
                  else fw0).

(** The runs of [firmware_apply_flow], from the state [s] to the result
    [r] and the state [s'], with the calls [evs] in their order.  There
    are seven: the signature check raised; the manifest is not signed;
    it names no URL; the download failed; reading the digest raised;
    the digest differs from the checksum; and the run that goes through
    the apply stage - skipped when [force_fail] is set - to the
    acknowledgment exchange.  All but the last keep the version. *)
Definition pipeline_run (cfg : Config) (lib : Nacl) (w : World)
  (resp : tokens) (force_fail : bool) (s : State) (r : result bool)
  (s' : State) (evs : list event) : Prop :=
  let verdict :=
    if truthy (get resp "FW_SIG")
    then _verify_server_signature cfg lib (manifest_subset resp)
                                  (fstr (get resp "FW_SIG"))
    else Ok false in
  let url := fstr (get resp "FW3") in
  let path := staged_path cfg w resp in
  let checksum := get resp "FW4" in
  (exists x,
      verdict = Raise x
      /\ evs = [] /\ r = Raise x /\ current_fw s' = current_fw s)
  \/ (exists a,
         verdict = Ok false
         /\ evs = [EvAudit "fw_manifest" "in" "ERR: invalid FW_SIG" a]
         /\ r = stopped a /\ current_fw s' = current_fw s)
  \/ (exists a,
         verdict = Ok true /\ truthy (get resp "FW3") = false
         /\ evs = [EvAudit "fw_download" "in" "ERR: download failed" a]
         /\ r = stopped a /\ current_fw s' = current_fw s)
  \/ (exists a,
         verdict = Ok true /\ truthy (get resp "FW3") = true
         /\ evs = [EvDownload url path false;
                   EvAudit "fw_download" "in" "ERR: download failed" a]
         /\ r = stopped a /\ current_fw s' = current_fw s)
  \/ (exists x,
         verdict = Ok true /\ truthy (get resp "FW3") = true
         /\ truthy checksum = true
         /\ evs = [EvDownload url path true; EvDigest path (Raise x)]
         /\ r = Raise x /\ current_fw s' = current_fw s)
  \/ (exists h a,
         verdict = Ok true /\ truthy (get resp "FW3") = true
         /\ truthy checksum = true /\ h <> fstr checksum
         /\ evs = [EvDownload url path true; EvDigest path (Ok h);
                   EvAudit "fw_checksum" "in" "ERR: checksum mismatch" a]
         /\ r = stopped a /\ current_fw s' = current_fw s)
  \/ (exists applied ts nonce ack,
         verdict = Ok true /\ truthy (get resp "FW3") = true
         /\ (force_fail = true -> applied = false)
         /\ evs = EvDownload url path true
                  :: (if truthy checksum
                      then [EvDigest path (Ok (fstr checksum))] else [])
                  ++ (if force_fail then [] else [EvExists path applied])
                  ++ [EvTs ts; EvNonce nonce] ++ ack
         /\ fw_ack_exchange resp (fw_ack_payload cfg lib resp applied ts nonce)
                            applied (current_fw s) ack r (current_fw s')).

(** The calls of the four stages of the firmware pipeline: the download,
    the digest of the staged file, the apply stage ([os.path.exists] of
    [_apply_staged]) and the request that carries the acknowledgment. *)
Definition is_stage_call (e : event) : bool :=
  match e with
  | EvDownload _ _ _ | EvDigest _ _ | EvExists _ _ | EvPost _ _ _ => true
  | _ => false
  end.

(** The stage calls among the calls [evs], in their order. *)
Definition stage_calls (evs : list event) : list event :=
  filter is_stage_call evs.

(* ================================================================== *)
(** * Properties *)
(* ================================================================== *)

(* ------------------------------------------------------------------ *)
(** ** Dictionaries *)
(* ------------------------------------------------------------------ *)

Section DictFacts.
Context {V : Type}.
Implicit Types (d : dict V) (k : string) (v : V).

Lemma lookup_none_iff d k : lookup k d = None <-> ~ In k (keys d).
Proof.
  induction d as [|[k' v'] d IH]; simpl.
  - tauto.
  - destruct (String.eqb_spec k' k) as [->|Hne].
    + split; [discriminate | intros H; exfalso; apply H; now left].
    + rewrite IH. split.
      * intros H [E|I]; [now apply Hne | now apply H].
      * intros H I. apply H. now right.
Qed.

Lemma lookup_in d k v : lookup k d = Some v -> In (k, v) d.
Proof.
  induction d as [|[k' v'] d IH]; simpl; [discriminate|].
  destruct (String.eqb_spec k' k) as [->|Hne].
  - intros [= ->]. now left.
  - intros H. right. now apply IH.
Qed.

Lemma in_lookup d k v : dict_wf d -> In (k, v) d -> lookup k d = Some v.
Proof.
  unfold dict_wf.
  induction d as [|[k' v'] d IH]; simpl; [tauto|].
  intros Hnd [E|I].
  - injection E as -> ->. now rewrite String.eqb_refl.
  - inversion Hnd as [|? ? Hnotin Hnd']; subst.
    destruct (String.eqb_spec k' k) as [->|Hne].
    + exfalso. apply Hnotin. change k with (fst (k, v)). now apply in_map.
    + now apply IH.
Qed.

Lemma lookup_dict_set_eq d k v : lookup k (dict_set k v d) = Some v.
Proof.
  induction d as [|[k' v'] d IH]; simpl.
  - now rewrite String.eqb_refl.
  - destruct (String.eqb_spec k' k) as [->|Hne]; simpl.
    + now rewrite String.eqb_refl.
    + destruct (String.eqb_spec k' k); [contradiction | exact IH].
Qed.

Lemma lookup_dict_set_neq d k k' v :
  k <> k' -> lookup k' (dict_set k v d) = lookup k' d.
Proof.
  intros Hne.
  induction d as [|[k0 v0] d IH]; simpl.
  - destruct (String.eqb_spec k k'); [contradiction | reflexivity].
  - destruct (String.eqb_spec k0 k) as [->|Hne0]; simpl.
    + destruct (String.eqb_spec k k'); [contradiction | reflexivity].
    + destruct (String.eqb_spec k0 k'); [reflexivity | exact IH].
Qed.

Lemma dict_set_fresh d k v :
  ~ In k (keys d) -> dict_set k v d = d ++ [(k, v)].
Proof.
  induction d as [|[k' v'] d IH]; simpl; intros H; [reflexivity|].
  destruct (String.eqb_spec k' k) as [->|Hne].
  - exfalso. apply H. now left.
  - f_equal. apply IH. intros I. apply H. now right.
Qed.

Lemma keys_dict_set d k v :
  keys (dict_set k v d) = if mem k d then keys d else keys d ++ [k].
Proof.
  unfold mem.
  induction d as [|[k' v'] d IH]; simpl; [reflexivity|].
  destruct (String.eqb_spec k' k) as [->|Hne]; simpl; [reflexivity|].
  rewrite IH. now destruct (lookup k d).
Qed.

Lemma dict_set_wf d k v : dict_wf d -> dict_wf (dict_set k v d).
Proof.
  unfold dict_wf. intros Hnd. rewrite keys_dict_set. unfold mem.
  destruct (lookup k d) eqn:E; [exact Hnd|].
  apply lookup_none_iff in E.
  apply NoDup_rev in Hnd. rewrite <- (rev_involutive (keys d ++ [k])).
  apply NoDup_rev. rewrite rev_app_distr. simpl. constructor; [|exact Hnd].
  now rewrite <- in_rev.
Qed.

(** Filling an empty dictionary with entries of distinct keys keeps
    them in order. *)
Lemma fold_dict_set_fresh (l acc : dict V) :
  NoDup (keys (acc ++ l)) ->
  fold_left (fun o e => dict_set (fst e) (snd e) o) l acc = acc ++ l.
Proof.
  revert acc. induction l as [|[k v] l IH]; intros acc Hnd; simpl.
  - now rewrite app_nil_r.
  - rewrite dict_set_fresh.
    + rewrite IH; rewrite <- app_assoc; [reflexivity | exact Hnd].
    + unfold keys in *. rewrite map_app in Hnd. simpl in Hnd.
      apply NoDup_remove_2 in Hnd. intros I. apply Hnd.
      apply in_or_app. now left.
Qed.

Lemma dict_eq_keys_perm (d1 d2 : dict V) :
  dict_wf d1 -> dict_wf d2 -> dict_eq d1 d2 ->
  Permutation (keys d1) (keys d2).
Proof.
  intros H1 H2 E. apply NoDup_Permutation; [exact H1 | exact H2 |].
  intros k. split; intros I.
  - destruct (lookup k d2) eqn:L2.
    + apply lookup_in in L2. change k with (fst (k, v)). now apply in_map.
    + rewrite <- E in L2. apply lookup_none_iff in L2. contradiction.
  - destruct (lookup k d1) eqn:L1.
    + apply lookup_in in L1. change k with (fst (k, v)). now apply in_map.
    + rewrite E in L1. apply lookup_none_iff in L1. contradiction.
Qed.

(** Reordering the entries does not change what the dictionary holds. *)
Lemma perm_dict_eq (d1 d2 : dict V) :
  dict_wf d1 -> Permutation d1 d2 -> dict_eq d1 d2.
Proof.
  intros H1 P k.
  assert (H2 : dict_wf d2).
  { unfold dict_wf, keys. eapply Permutation_NoDup; [|exact H1].
    now apply Permutation_map. }
  destruct (lookup k d1) as [v|] eqn:L1.
  - symmetry. apply in_lookup; [exact H2|].
    apply Permutation_in with d1; [exact P | now apply lookup_in].
  - symmetry. apply lookup_none_iff. apply lookup_none_iff in L1.
    intros I. apply L1. apply Permutation_in with (keys d2); [|exact I].
    unfold keys. apply Permutation_map. now symmetry.
Qed.
End DictFacts.

(* ------------------------------------------------------------------ *)
(** ** Ordering of keys and [sorted] *)
(* ------------------------------------------------------------------ *)

Lemma ascii_compare_lt_trans (x y z : ascii) :
  Ascii.compare x y = Lt -> Ascii.compare y z = Lt -> Ascii.compare x z = Lt.
Proof.
  unfold Ascii.compare. rewrite !N.compare_lt_iff. apply N.lt_trans.
Qed.

Lemma key_le_trans (a b c : string) : key_le a b -> key_le b c -> key_le a c.
Proof.
  unfold key_le, String.leb. revert b c.
  induction a as [|x a IH]; intros [|y b] [|z c]; simpl; try easy.
  destruct (Ascii.compare x y) eqn:Exy; try discriminate.
  - apply Ascii.compare_eq_iff in Exy. subst y.
    destruct (Ascii.compare x z); try easy. apply IH.
  - destruct (Ascii.compare y z) eqn:Eyz; try discriminate.
    + apply Ascii.compare_eq_iff in Eyz. subst z. now rewrite Exy.
    + now rewrite (ascii_compare_lt_trans _ _ _ Exy Eyz).
Qed.

Lemma key_le_total (a b : string) : key_le a b \/ key_le b a.
Proof. apply String.leb_total. Qed.

Lemma key_lt_iff (a b : string) : key_lt a b <-> key_le a b /\ a <> b.
Proof.
  unfold key_lt, key_le, String.ltb, String.leb.
  destruct (String.compare a b) eqn:E.
  - apply String.compare_eq_iff in E. subst. split; [easy | tauto].
  - split; [|reflexivity]. intros _. split; [reflexivity|].
    intros ->. pose proof (String.compare_antisym b b) as H.
    rewrite E in H. discriminate H.
  - split; [easy | intros [? _]; easy].
Qed.

Lemma insert_sorted_perm (k : string) (l : list string) :
  Permutation (k :: l) (insert_sorted k l).
Proof.
  induction l as [|x l IH]; simpl; [reflexivity|].
  destruct (String.leb k x); [reflexivity|].
  rewrite perm_swap. now constructor.
Qed.

Lemma sorted_perm (l : list string) : Permutation l (sorted l).
Proof.
  induction l as [|x l IH]; simpl; [constructor|].
  rewrite <- insert_sorted_perm. now constructor.
Qed.

Lemma insert_sorted_sorted (k : string) (l : list string) :
  StronglySorted key_le l -> StronglySorted key_le (insert_sorted k l).
Proof.
  induction 1 as [|x l Hs IH Hall]; simpl.
  - repeat constructor.
  - destruct (String.leb k x) eqn:E.
    + constructor; [now constructor|]. constructor; [exact E|].
      eapply Forall_impl; [|exact Hall]. intros y. now apply key_le_trans.
    + constructor; [exact IH|].
      assert (Hxk : key_le x k).
      { destruct (key_le_total k x) as [H|H]; [unfold key_le in H; congruence|exact H]. }
      rewrite <- insert_sorted_perm. now constructor.
  Qed.

Lemma sorted_sorted (l : list string) : StronglySorted key_le (sorted l).
Proof.
  induction l as [|x l IH]; simpl; [constructor|].
  now apply insert_sorted_sorted.
Qed.

(** Two ascending lists with the same elements are the same list. *)
Lemma sorted_unique (l1 l2 : list string) :
  StronglySorted key_le l1 -> StronglySorted key_le l2 ->
  Permutation l1 l2 -> l1 = l2.
Proof.
  intros H1. revert l2.
  induction H1 as [|x l1 Hs1 IH Hall1]; intros l2 H2 P.
  - apply Permutation_nil in P. now subst.
  - destruct H2 as [|y l2 Hs2 Hall2].
    + apply Permutation_sym, Permutation_nil in P. discriminate.
    + assert (x = y) as <-.
      { apply String.leb_antisym.
        - assert (I : In y (x :: l1)).
          { apply Permutation_in with (y :: l2); [now symmetry | now left]. }
          destruct I as [->|I].
          + destruct (key_le_total y y); assumption.
          + rewrite Forall_forall in Hall1. now apply Hall1.
        - assert (I : In x (y :: l2)).
          { apply Permutation_in with (x :: l1); [exact P | now left]. }
          destruct I as [->|I].
          + destruct (key_le_total x x); assumption.
          + rewrite Forall_forall in Hall2. now apply Hall2. }
      f_equal. apply IH; [exact Hs2|]. now apply Permutation_cons_inv in P.
Qed.

Lemma sorted_of_perm (l1 l2 : list string) :
  Permutation l1 l2 -> sorted l1 = sorted l2.
Proof.
  intros P. apply sorted_unique; try apply sorted_sorted.
  now rewrite <- !sorted_perm.
Qed.

Lemma strongly_sorted_strict (l : list string) :
  NoDup l -> StronglySorted key_le l -> StronglySorted key_lt l.
Proof.
  intros Hnd Hs. induction Hs as [|x l Hs IH Hall]; [constructor|].
  inversion Hnd as [|? ? Hnotin Hnd']; subst.
  constructor; [now apply IH|].
  rewrite Forall_forall in *. intros y I. apply key_lt_iff. split.
  - now apply Hall.
  - intros ->. contradiction.
Qed.

(* ------------------------------------------------------------------ *)
(** ** Canonical form ([to_canonical_string]) *)
(* ------------------------------------------------------------------ *)

Lemma prefix_app_true (p q s : string) :
  String.prefix (p ++ q) s = true -> String.prefix p s = true.
Proof.
  revert s. induction p as [|a p IH]; intros s H.
  - now destruct s.
  - destruct s as [|b s]; [discriminate H|].
    cbn [String.prefix append] in *.
    destruct (ascii_dec a b); [now apply IH | discriminate H].
Qed.

Lemma startswith_any_reserved (k : string) :
  PyStr.startswith_any k SIG_PREFIX = reserved k.
Proof.
  unfold PyStr.startswith_any, SIG_PREFIX, reserved.
  cbn [existsb]. rewrite orb_false_r.
  destruct (PyStr.startswith k "SIG") eqn:E1; [reflexivity|].
  destruct (PyStr.startswith k "FW_SIG"); [reflexivity|].
  cbn [orb]. unfold PyStr.startswith in *.
  destruct (String.prefix "SIG_SERV" k) eqn:E3; [|reflexivity].
  apply (prefix_app_true "SIG" "_SERV") in E3. congruence.
Qed.

Lemma canonical_items_of_entries (toks : tokens) (ks : list string) :
  flat_map (canonical_item toks) ks
  = map (fun e => kv (fst e) (snd e)) (flat_map (signable_item toks) ks).
Proof.
  induction ks as [|k ks IH]; simpl; [reflexivity|].
  rewrite map_app, <- IH. f_equal.
  unfold canonical_item, signable_item. rewrite startswith_any_reserved.
  destruct (reserved k); [reflexivity|].
  destruct (lookup k toks) as [[v|]|]; reflexivity.
Qed.

Lemma signable_item_key (toks : tokens) (k : string) (e : string * string) :
  In e (signable_item toks k) ->
  fst e = k /\ lookup k toks = Some (Some (snd e)) /\ reserved k = false.
Proof.
  unfold signable_item. destruct (reserved k); [intros []|].
  destruct (lookup k toks) as [[v|]|]; simpl; [|intros []..].
  intros [<-|[]]. auto.
Qed.

Lemma signable_keys_sorted (R : string -> string -> Prop) (toks : tokens)
  (ks : list string) :
  StronglySorted R ks ->
  StronglySorted R (map fst (flat_map (signable_item toks) ks)).
Proof.
  induction 1 as [|x l Hs IH Hall]; simpl; [constructor|].
  assert (Htail : Forall (R x) (map fst (flat_map (signable_item toks) l))).
  { rewrite Forall_forall in *. intros y I. apply in_map_iff in I.
    destruct I as (e & <- & I). apply in_flat_map in I.
    destruct I as (k & Ik & Ie). apply signable_item_key in Ie.
    destruct Ie as (-> & _). now apply Hall. }
  rewrite map_app. unfold signable_item at 1.
  destruct (reserved x); [exact IH|].
  destruct (lookup x toks) as [[v|]|]; simpl; try exact IH.
  now constructor.
Qed.

Lemma signable_entries_spec (toks : tokens) (k v : string) :
  In (k, v) (signable_entries toks)
  <-> lookup k toks = Some (Some v) /\ reserved k = false.
Proof.
  unfold signable_entries. rewrite in_flat_map. split.
  - intros (k' & _ & I). apply signable_item_key in I. simpl in I.
    destruct I as (-> & L & R). auto.
  - intros (L & R). exists k. split.
    + apply Permutation_in with (keys toks); [apply sorted_perm|].
      apply lookup_in in L. change k with (fst (k, Some v)). now apply in_map.
    + unfold signable_item. rewrite R, L. now left.
Qed.

Lemma to_canonical_string_entries (toks : tokens) :
  to_canonical_string toks
  = PyStr.join "|" (map (fun e => kv (fst e) (snd e)) (signable_entries toks)).
Proof.
  unfold to_canonical_string, signable_entries.
  now rewrite canonical_items_of_entries.
Qed.

Lemma canonical_item_ext (d1 d2 : tokens) (k : string) :
  lookup k d1 = lookup k d2 -> canonical_item d1 k = canonical_item d2 k.
Proof. unfold canonical_item. now intros ->. Qed.

(** C5 (amended).  For a token mapping (distinct keys), the canonical
    form joins with "|" the entries "key:value" of exactly the keys that
    do not start with SIG or FW_SIG (which covers SIG_SERV) and whose
    value is present, in strictly ascending key order; and two mappings
    with the same key-value pairs, in whatever insertion order, have the
    same canonical form. *)
Theorem canonical_form_sorted_filtered_order_free (d : tokens) :
  dict_wf d ->
  (to_canonical_string d
   = PyStr.join "|" (map (fun e => kv (fst e) (snd e)) (signable_entries d))
   /\ StronglySorted key_lt (map fst (signable_entries d))
   /\ (forall k v, In (k, v) (signable_entries d)
                   <-> lookup k d = Some (Some v) /\ reserved k = false))
  /\ (forall d', dict_wf d' -> dict_eq d d' ->
                 to_canonical_string d' = to_canonical_string d).
Proof.
  intros Hwf. split; [split; [|split]|].
  - apply to_canonical_string_entries.
  - apply signable_keys_sorted. apply strongly_sorted_strict.
    + unfold dict_wf in Hwf. eapply Permutation_NoDup; [apply sorted_perm | exact Hwf].
    + apply sorted_sorted.
  - apply signable_entries_spec.
  - intros d' Hwf' E. unfold to_canonical_string.
    rewrite (sorted_of_perm (keys d') (keys d)).
    + f_equal. apply flat_map_ext. intros k. apply canonical_item_ext.
      symmetry. apply E.
    + symmetry. now apply dict_eq_keys_perm.
Qed.

Lemma canonical_demo_wf : dict_wf canonical_demo.
Proof.
  unfold dict_wf, canonical_demo. simpl.
  repeat constructor; simpl; intuition discriminate.
Qed.

Lemma canonical_form_sorted_filtered_order_free_witness :
  dict_wf canonical_demo
  /\ to_canonical_string canonical_demo = "D1:dev|TS:t1"
  /\ to_canonical_string (rev canonical_demo) = to_canonical_string canonical_demo.
Proof.
  split; [exact canonical_demo_wf|]. split; [reflexivity|].
  apply (canonical_form_sorted_filtered_order_free canonical_demo canonical_demo_wf).
  - unfold dict_wf, keys. rewrite map_rev. apply NoDup_rev. exact canonical_demo_wf.
  - apply perm_dict_eq; [exact canonical_demo_wf | apply Permutation_rev].
Defined.

(** C5 as stated fails: a key that merely starts with FW_SIG is none of
    the keys the claim lists, its value is present, and the canonical
    form leaves the entry out all the same. *)
Lemma canonical_form_reserved_prefix_counterexample :
  let d : tokens := [("FW_SIG2", Some "x")] in
  dict_wf d
  /\ lookup "FW_SIG2" d = Some (Some "x")
  /\ reserved_as_specified "FW_SIG2" = false
  /\ to_canonical_string d = ""
  /\ canonicalize_as_specified d = "FW_SIG2:x"
  /\ to_canonical_string d <> canonicalize_as_specified d.
Proof.
  simpl. repeat split; try reflexivity; try discriminate.
  repeat constructor; simpl; intuition.
Qed.

(* ------------------------------------------------------------------ *)
(** ** Wire form: [parse_tokens] and [build_payload] *)
(* ------------------------------------------------------------------ *)

Lemma split1_none_iff (c : ascii) (s : string) :
  PyStr.split1 c s = None <-> PyStr.contains c s = false.
Proof.
  induction s as [|a s IH]; simpl; [tauto|].
  destruct (Ascii.eqb a c); simpl; [split; discriminate|].
  destruct (PyStr.split1 c s) as [[k v]|].
  - split; [discriminate|]. intros H. apply IH in H. discriminate.
  - split; [|reflexivity]. intros _. now apply IH.
Qed.

Lemma contains_app (c : ascii) (a b : string) :
  PyStr.contains c (a ++ b) = PyStr.contains c a || PyStr.contains c b.
Proof.
  induction a as [|x a IH]; simpl; [reflexivity|].
  now rewrite IH, orb_assoc.
Qed.

Lemma split1_app (c : ascii) (k v : string) :
  PyStr.contains c k = false ->
  PyStr.split1 c (k ++ String c v) = Some (k, v).
Proof.
  induction k as [|a k IH]; simpl.
  - now rewrite Ascii.eqb_refl.
  - intros H. apply orb_false_iff in H. destruct H as [Ha Hk].
    now rewrite Ha, (IH Hk).
Qed.

Lemma split_no_sep (c : ascii) (s : string) :
  PyStr.contains c s = false -> PyStr.split c s = [s].
Proof.
  induction s as [|a s IH]; simpl; [reflexivity|].
  intros H. apply orb_false_iff in H. destruct H as [Ha Hs].
  now rewrite Ha, (IH Hs).
Qed.

Lemma split_app_sep (c : ascii) (a r : string) :
  PyStr.contains c a = false ->
  PyStr.split c (a ++ String c r) = a :: PyStr.split c r.
Proof.
  induction a as [|x a IH]; simpl.
  - now rewrite Ascii.eqb_refl.
  - intros H. apply orb_false_iff in H. destruct H as [Hx Ha].
    now rewrite Hx, (IH Ha).
Qed.

Lemma split_join (c : ascii) (parts : list string) :
  parts <> [] ->
  Forall (fun p => PyStr.contains c p = false) parts ->
  PyStr.split c (PyStr.join (String c EmptyString) parts) = parts.
Proof.
  induction parts as [|p parts IH]; [congruence|].
  intros _ Hall. inversion Hall as [|? ? Hp Hps]; subst.
  destruct parts as [|q parts].
  - simpl. now apply split_no_sep.
  - change (PyStr.join (String c "") (p :: q :: parts))
      with (p ++ String c (PyStr.join (String c "") (q :: parts)))%string.
    rewrite split_app_sep by exact Hp. f_equal. apply IH; [discriminate | exact Hps].
Qed.

Lemma parse_fold_wf (parts : list string) (acc : tokens) :
  dict_wf acc -> dict_wf (fold_left parse_part parts acc).
Proof.
  revert acc. induction parts as [|p parts IH]; intros acc H; simpl; [exact H|].
  apply IH. unfold parse_part.
  destruct (PyStr.split1 ":" p) as [[k v]|]; [now apply dict_set_wf | exact H].
Qed.

Lemma parse_fold_lookup (k : string) (parts : list string) (acc : tokens) :
  lookup k (fold_left parse_part parts acc)
  = match last_binding k
            (flat_map (fun p => match PyStr.split1 ":"%char p with
                                | Some e => [e]
                                | None => []
                                end) parts) with
    | Some v => Some (Some v)
    | None => lookup k acc
    end.
Proof.
  revert acc. induction parts as [|p parts IH]; intros acc; simpl; [reflexivity|].
  rewrite IH. unfold parse_part.
  destruct (PyStr.split1 ":" p) as [[k' v']|]; simpl; [|reflexivity].
  destruct (last_binding k _); [reflexivity|].
  destruct (String.eqb_spec k' k) as [->|Hne].
  - apply lookup_dict_set_eq.
  - now apply lookup_dict_set_neq.
Qed.

(** C10.  [parse_tokens] is defined on every string and returns a
    mapping with distinct keys; a key is bound to the value of its last
    occurrence among the parts of the wire string; the empty string gives
    the empty mapping; a part without ":" leaves the mapping as it is. *)
Theorem parse_tokens_total_last_wins (payload : string) :
  dict_wf (parse_tokens payload)
  /\ (forall k, lookup k (parse_tokens payload)
                = option_map Some (last_binding k (wire_pairs payload)))
  /\ parse_tokens "" = []
  /\ (forall out p, PyStr.contains ":"%char p = false -> parse_part out p = out).
Proof.
  split; [|split; [|split]].
  - unfold parse_tokens. destruct (PyStr.falsy payload).
    + constructor.
    + apply parse_fold_wf. constructor.
  - intros k. unfold parse_tokens, wire_pairs.
    destruct payload as [|a payload]; [reflexivity|].
    cbn [PyStr.falsy]. rewrite parse_fold_lookup.
    now destruct (last_binding k _).
  - reflexivity.
  - intros out p H. unfold parse_part.
    apply split1_none_iff in H. now rewrite H.
Qed.

Example parse_tokens_last_wins_example :
  parse_tokens " A:1|B:2|junk|A:3:4| "
  = [("A", Some "3:4"); ("B", Some "2")].
Proof. reflexivity. Qed.

Lemma payload_items_present (d : tokens) (es : list (string * string)) :
  d = map (fun e => (fst e, Some (snd e))) es ->
  flat_map payload_item d = map (fun e => kv (fst e) (snd e)) es.
Proof.
  intros ->. induction es as [|[k v] es IH]; simpl; [reflexivity|].
  now rewrite IH.
Qed.

Lemma wire_pairs_of_parts (es : list (string * string)) :
  Forall (fun e => PyStr.contains ":"%char (fst e) = false) es ->
  flat_map (fun p => match PyStr.split1 ":"%char p with
                     | Some e => [e]
                     | None => []
                     end)
           (map (fun e => kv (fst e) (snd e)) es) = es.
Proof.
  induction 1 as [|[k v] es Hk _ IH]; simpl; [reflexivity|].
  unfold kv at 1. simpl in Hk.
  change (k ++ ":" ++ v)%string with (k ++ String ":" v)%string.
  now rewrite (split1_app _ _ _ Hk), IH.
Qed.

Lemma parse_fold_fresh (es : list (string * string)) (acc : tokens) :
  Forall (fun e => PyStr.contains ":"%char (fst e) = false) es ->
  NoDup (keys (acc ++ map (fun e => (fst e, Some (snd e))) es)) ->
  fold_left parse_part (map (fun e => kv (fst e) (snd e)) es) acc
  = acc ++ map (fun e => (fst e, Some (snd e))) es.
Proof.
  intros Hall. revert acc.
  induction Hall as [|[k v] es Hk _ IH]; intros acc Hnd; simpl.
  - now rewrite app_nil_r.
  - unfold parse_part at 2, kv at 2. simpl in Hk.
    change (k ++ ":" ++ v)%string with (k ++ String ":" v)%string.
    rewrite (split1_app _ _ _ Hk).
    simpl in Hnd.
    rewrite dict_set_fresh.
    + rewrite IH; rewrite <- app_assoc; [reflexivity | exact Hnd].
    + unfold keys in *. rewrite map_app in Hnd. simpl in Hnd.
      apply NoDup_remove_2 in Hnd. intros I. apply Hnd.
      apply in_or_app. now left.
Qed.

Lemma wire_safe_entries (d : tokens) :
  wire_safe d ->
  d = map (fun e => (fst e, Some (snd e))) (present_entries d)
  /\ Forall (fun e => PyStr.contains ":"%char (fst e) = false) (present_entries d)
  /\ Forall (fun p => PyStr.contains "|"%char p = false)
            (map (fun e => kv (fst e) (snd e)) (present_entries d)).
Proof.
  unfold wire_safe, present_entries.
  induction d as [|[k v] d IH]; intros H; simpl.
  - repeat split; constructor.
  - destruct (H k v (or_introl eq_refl)) as (x & -> & Hk1 & Hk2 & Hx).
    destruct IH as (E & F1 & F2).
    { intros k' v' I. apply H. now right. }
    simpl. repeat split.
    + now rewrite <- E.
    + now constructor.
    + constructor; [|exact F2]. unfold kv. simpl.
      rewrite !contains_app. simpl. now rewrite Hk1, Hx.
Qed.

Lemma join_kv_not_empty (e : string * string) (es : list (string * string)) :
  PyStr.falsy (PyStr.join "|" (map (fun e => kv (fst e) (snd e)) (e :: es)))
  = false.
Proof.
  destruct e as [k v]. simpl. unfold kv.
  destruct es as [|e' es]; simpl.
  - destruct k; reflexivity.
  - destruct k; reflexivity.
Qed.

(** C7 (amended).  A token mapping (distinct keys) whose values are all
    present, whose keys hold neither "|" nor ":", whose values hold no
    "|", and whose serialized form neither begins nor ends with
    whitespace, is read back from its wire form unchanged: same entries
    in the same order, hence equal as Python compares dictionaries. *)
Theorem parse_build_payload_roundtrip (d : tokens) :
  dict_wf d ->
  wire_safe d ->
  PyStr.strip (build_payload d) = build_payload d ->
  parse_tokens (build_payload d) = d
  /\ dict_eq (parse_tokens (build_payload d)) d.
Proof.
  intros Hwf Hsafe Hstrip.
  assert (E : parse_tokens (build_payload d) = d);
    [|split; [exact E | now rewrite E]].
  destruct (wire_safe_entries d Hsafe) as (Ed & Fcolon & Fbar).
  unfold parse_tokens. rewrite Hstrip.
  unfold build_payload. rewrite (payload_items_present d _ Ed).
  destruct (present_entries d) as [|e es] eqn:Ees.
  - simpl. now rewrite Ed.
  - rewrite join_kv_not_empty.
    change "|" with (String "|"%char EmptyString).
    rewrite split_join; [|discriminate | exact Fbar].
    rewrite parse_fold_fresh; [now rewrite Ed | exact Fcolon |].
    rewrite app_nil_l, <- Ed. exact Hwf.
Qed.

Lemma parse_build_payload_roundtrip_witness :
  parse_tokens (build_payload wire_demo) = wire_demo
  /\ dict_eq (parse_tokens (build_payload wire_demo)) wire_demo.
Proof.
  apply (parse_build_payload_roundtrip wire_demo).
  - unfold dict_wf, wire_demo. simpl.
    repeat constructor; simpl; intuition discriminate.
  - intros k v I. unfold wire_demo in I. simpl in I.
    destruct I as [I|[I|[I|[]]]]; injection I as <- <-;
      eexists; repeat split; reflexivity.
  - reflexivity.
Defined.

(** C7 as stated fails, within the rules of the wire format: the key
    "A" is no array key, the value is present, neither the key nor the
    value holds a "|" or a ":"; the value ends with a blank, which
    [parse_tokens] strips together with the payload, so the value read
    back is another one. *)
Lemma parse_build_payload_trailing_blank_counterexample :
  let d : tokens := [("A", Some "x ")] in
  dict_wf d
  /\ wire_safe d
  /\ PyStr.contains ":"%char "x " = false
  /\ array_key_match "A" = None
  /\ build_payload d = "A:x "
  /\ parse_tokens (build_payload d) = [("A", Some "x")]
  /\ lookup "A" (parse_tokens (build_payload d)) <> lookup "A" d
  /\ ~ dict_eq (parse_tokens (build_payload d)) d.
Proof.
  simpl. repeat split.
  - repeat constructor; simpl; intuition.
  - intros k v [[= <- <-]|[]]. eexists. repeat split; reflexivity.
  - discriminate.
  - intros H. specialize (H "A"). discriminate H.
Qed.

(** The same happens at the front of the payload, to a key that begins
    with a blank; and, outside the rules of the format, a value with a
    "|" inside is cut at the delimiter. *)
Example leading_blank_and_bar_are_not_read_back :
  parse_tokens (build_payload [(" A", Some "x")]) = [("A", Some "x")]
  /\ parse_tokens (build_payload [("A", Some "x|y")]) = [("A", Some "x")].
Proof. split; reflexivity. Qed.

(* ------------------------------------------------------------------ *)
(** ** Array tokens: [build_array_tokens] and [parse_array_tokens] *)
(* ------------------------------------------------------------------ *)

Lemma span_app_stop (p : ascii -> bool) (a r : string) :
  PyStr.all_chars p a = true -> not_in_class p r ->
  span p (a ++ r) = (a, r).
Proof.
  induction a as [|x a IH]; simpl; intros Ha Hr.
  - destruct r as [|c r]; simpl in *; [reflexivity | now rewrite Hr].
  - apply andb_true_iff in Ha. destruct Ha as [Hx Ha].
    now rewrite Hx, (IH Ha Hr).
Qed.

Lemma uint_string_digits (d : Decimal.uint) :
  PyStr.all_chars PyStr.isdigit (NilEmpty.string_of_uint d) = true.
Proof. induction d; simpl; try reflexivity; exact IHd. Qed.

Lemma uint_string_value (d : Decimal.uint) (acc : nat) :
  fold_left (fun acc a => 10 * acc + PyStr.digit_val a)
            (list_ascii_of_string (NilEmpty.string_of_uint d)) acc
  = Nat.of_uint_acc d acc.
Proof.
  revert acc. induction d; intros acc; cbn [NilEmpty.string_of_uint
    list_ascii_of_string fold_left Nat.of_uint_acc]; try reflexivity;
    rewrite IHd; f_equal; rewrite Nat.tail_mul_spec;
    unfold PyStr.digit_val; simpl nat_of_ascii; simpl Nat.sub; lia.
Qed.

Lemma of_nat_digits (n : nat) :
  PyStr.all_chars PyStr.isdigit (PyStr.of_nat n) = true
  /\ PyStr.falsy (PyStr.of_nat n) = false.
Proof.
  unfold PyStr.of_nat, NilZero.string_of_uint.
  destruct (Nat.to_uint n) eqn:E; try (split; reflexivity);
    (split; [rewrite <- E at 1; apply uint_string_digits | reflexivity]).
Qed.

Lemma digits_val_of_nat (n : nat) : PyStr.digits_val (PyStr.of_nat n) = n.
Proof.
  unfold PyStr.digits_val, PyStr.of_nat, NilZero.string_of_uint.
  rewrite <- (DecimalNat.Unsigned.of_to n) at 2.
  destruct (Nat.to_uint n) eqn:E; try reflexivity;
    rewrite <- E; apply uint_string_value.
Qed.

Lemma append_empty_r (s : string) : (s ++ "")%string = s.
Proof. induction s as [|a s IH]; simpl; [reflexivity | now rewrite IH]. Qed.

Lemma array_key_match_built (pre k : string) (i : nat) :
  prefix_ok pre -> field_ok k ->
  array_key_match (array_key pre i k) = Some (pre, PyStr.of_nat i, k).
Proof.
  intros [Hp1 Hp2] [Hk1 Hk2]. unfold array_key_match, array_key.
  change (pre ++ "[" ++ PyStr.of_nat i ++ "]." ++ k)%string
    with (pre ++ String "[" (PyStr.of_nat i ++ String "]" (String "." k)))%string.
  rewrite (span_app_stop _ _ _ Hp1) by reflexivity.
  rewrite Hp2.
  destruct (of_nat_digits i) as [Hd1 Hd2].
  rewrite (span_app_stop _ _ _ Hd1) by reflexivity.
  rewrite Hd2.
  rewrite <- (append_empty_r k) at 1.
  rewrite (span_app_stop _ _ _ Hk1) by exact I.
  now rewrite Hk2.
Qed.

Lemma array_key_match_count (pre : string) :
  prefix_ok pre -> array_key_match (pre ++ "_COUNT") = None.
Proof.
  intros [Hp1 Hp2]. unfold array_key_match.
  rewrite (span_app_stop _ _ _ Hp1) by reflexivity.
  now rewrite Hp2.
Qed.

Lemma array_key_inj (pre : string) (i j : nat) (k l : string) :
  prefix_ok pre -> field_ok k -> field_ok l ->
  array_key pre i k = array_key pre j l -> i = j /\ k = l.
Proof.
  intros Hp Hk Hl E.
  pose proof (array_key_match_built pre k i Hp Hk) as M1.
  pose proof (array_key_match_built pre l j Hp Hl) as M2.
  rewrite E, M2 in M1. injection M1 as E1 E2. split; [|now symmetry].
  rewrite <- (digits_val_of_nat i), <- (digits_val_of_nat j). now rewrite E1.
Qed.

Lemma item_entries_key (pre : string) (i : nat) (item : tokens) (k : string) :
  In k (keys (item_entries pre i item)) ->
  exists f, In f (keys item) /\ k = array_key pre i f.
Proof.
  unfold keys, item_entries. rewrite map_map. simpl. intros I.
  apply in_map_iff in I. destruct I as (e & <- & I).
  exists (fst e). split; [now apply in_map | reflexivity].
Qed.

Lemma flat_entries_key (pre : string) (a : nat) (items : list tokens)
  (k : string) :
  Forall item_ok items ->
  In k (keys (flat_entries pre a items)) ->
  exists i f, a <= i /\ field_ok f /\ k = array_key pre i f.
Proof.
  intros Hok. revert a. induction Hok as [|item items Hi _ IH]; intros a I.
  - destruct I.
  - simpl in I. unfold keys in I. rewrite map_app in I.
    apply in_app_or in I. destruct I as [I|I].
    + apply item_entries_key in I. destruct I as (f & If & ->).
      exists a, f. repeat split; [lia|..];
        destruct Hi as (_ & _ & Hf); rewrite Forall_forall in Hf;
        now apply Hf.
    + apply IH in I. destruct I as (i & f & Hle & Hf & ->).
      exists i, f. repeat split; try assumption; try lia; apply Hf.
Qed.

Lemma item_entries_nodup (pre : string) (i : nat) (item : tokens) :
  prefix_ok pre -> item_ok item -> NoDup (keys (item_entries pre i item)).
Proof.
  intros Hp (_ & Hwf & Hf). unfold keys, item_entries. rewrite map_map. simpl.
  rewrite <- (map_map fst (array_key pre i)).
  apply NoDup_map_NoDup_ForallPairs; [|exact Hwf].
  intros x y Ix Iy E. rewrite Forall_forall in Hf.
  now apply (array_key_inj pre i i x y Hp (Hf x Ix) (Hf y Iy)).
Qed.

Lemma flat_entries_nodup (pre : string) (a : nat) (items : list tokens) :
  prefix_ok pre -> Forall item_ok items ->
  NoDup (keys (flat_entries pre a items)).
Proof.
  intros Hp Hok. revert a. induction Hok as [|item items Hi Hok IH]; intros a.
  - constructor.
  - simpl. unfold keys. rewrite map_app. apply NoDup_app.
    + now apply item_entries_nodup.
    + apply IH.
    + intros k I1 I2. apply item_entries_key in I1.
      destruct I1 as (f & If & ->).
      apply (flat_entries_key pre (S a) items _ Hok) in I2.
      destruct I2 as (j & g & Hle & Hg & E).
      destruct Hi as (_ & _ & Hf). rewrite Forall_forall in Hf.
      apply (array_key_inj pre a j f g Hp (Hf f If) Hg) in E. lia.
Qed.

Lemma build_item_fold (pre : string) (out : tokens) (i : nat) (item : tokens) :
  build_item pre out (i, item)
  = fold_left (fun o e => dict_set (fst e) (snd e) o) (item_entries pre i item) out.
Proof.
  unfold build_item, item_entries. simpl. revert out.
  induction item as [|e item IH]; intros out; simpl; [reflexivity | apply IH].
Qed.

Lemma build_fold_flat (pre : string) (items : list tokens) (a : nat)
  (acc : tokens) :
  NoDup (keys (acc ++ flat_entries pre a items)) ->
  fold_left (build_item pre) (combine (seq a (List.length items)) items) acc
  = acc ++ flat_entries pre a items.
Proof.
  revert a acc. induction items as [|item items IH]; intros a acc Hnd; simpl.
  - now rewrite app_nil_r.
  - simpl in Hnd. rewrite app_assoc in Hnd.
    rewrite build_item_fold, fold_dict_set_fresh.
    + rewrite IH; [now rewrite <- app_assoc | exact Hnd].
    + unfold keys in *. rewrite map_app in Hnd.
      now apply NoDup_app_remove_r in Hnd.
Qed.

Lemma build_array_tokens_flat (pre : string) (items : list tokens) :
  prefix_ok pre -> Forall item_ok items ->
  build_array_tokens items pre
  = flat_entries pre 0 items
    ++ [((pre ++ "_COUNT")%string, Some (PyStr.of_nat (List.length items)))].
Proof.
  intros Hp Hok. unfold build_array_tokens, enumerate.
  rewrite (build_fold_flat pre items 0 []); simpl app.
  - apply dict_set_fresh. intros I.
    apply (flat_entries_key pre 0 items _ Hok) in I.
    destruct I as (i & f & _ & Hf & E).
    pose proof (array_key_match_built pre f i Hp Hf) as M.
    rewrite <- E, (array_key_match_count pre Hp) in M. discriminate M.
  - now apply flat_entries_nodup.
Qed.

Lemma bucket_put_fresh (i : nat) (k : string) (v : pyval) (b : buckets) :
  ~ In i (map fst b) -> bucket_put i k v b = b ++ [(i, [(k, v)])].
Proof.
  induction b as [|[j item] b IH]; simpl; intros H; [reflexivity|].
  destruct (Nat.eqb_spec j i) as [->|Hne].
  - exfalso. apply H. now left.
  - f_equal. apply IH. intros I. apply H. now right.
Qed.

Lemma bucket_put_last (i : nat) (k : string) (v : pyval) (b : buckets)
  (acc : tokens) :
  ~ In i (map fst b) ->
  bucket_put i k v (b ++ [(i, acc)]) = b ++ [(i, dict_set k v acc)].
Proof.
  induction b as [|[j item] b IH]; simpl; intros H.
  - now rewrite Nat.eqb_refl.
  - destruct (Nat.eqb_spec j i) as [->|Hne].
    + exfalso. apply H. now left.
    + f_equal. apply IH. intros I. apply H. now right.
Qed.

Lemma parse_array_entry_built (pre f : string) (i : nat) (v : pyval)
  (b : buckets) :
  prefix_ok pre -> field_ok f ->
  parse_array_entry pre b (array_key pre i f, v) = bucket_put i f v b.
Proof.
  intros Hp Hf. unfold parse_array_entry. simpl.
  rewrite (array_key_match_built pre f i Hp Hf), String.eqb_refl.
  simpl. now rewrite digits_val_of_nat.
Qed.

Lemma parse_item_rest (pre : string) (i : nat) (rest acc : tokens)
  (b : buckets) :
  prefix_ok pre -> Forall field_ok (keys rest) ->
  NoDup (keys (acc ++ rest)) -> ~ In i (map fst b) ->
  fold_left (parse_array_entry pre) (item_entries pre i rest)
            (b ++ [(i, acc)])
  = b ++ [(i, acc ++ rest)].
Proof.
  intros Hp. revert acc.
  induction rest as [|[f v] rest IH]; intros acc Hf Hnd Hi; simpl.
  - now rewrite app_nil_r.
  - inversion Hf as [|? ? Hf1 Hf2]; subst.
    rewrite (parse_array_entry_built pre f i v _ Hp Hf1).
    rewrite (bucket_put_last i f v b acc Hi).
    rewrite dict_set_fresh.
    + rewrite IH; [now rewrite <- app_assoc | exact Hf2 | | exact Hi].
      now rewrite <- app_assoc.
    + unfold keys in *. rewrite map_app in Hnd. simpl in Hnd.
      apply NoDup_remove_2 in Hnd. intros I. apply Hnd.
      apply in_or_app. now left.
Qed.

Lemma parse_item (pre : string) (i : nat) (item : tokens) (b : buckets) :
  prefix_ok pre -> item_ok item -> ~ In i (map fst b) ->
  fold_left (parse_array_entry pre) (item_entries pre i item) b
  = b ++ [(i, item)].
Proof.
  intros Hp (Hne & Hwf & Hf) Hi.
  destruct item as [|[f v] rest]; [congruence|]. simpl.
  inversion Hf as [|? ? Hf1 Hf2]; subst.
  rewrite (parse_array_entry_built pre f i v _ Hp Hf1).
  rewrite (bucket_put_fresh i f v b Hi).
  now apply (parse_item_rest pre i rest [(f, v)] b).
Qed.

Lemma parse_flat (pre : string) (items : list tokens) (a : nat) (b : buckets) :
  prefix_ok pre -> Forall item_ok items ->
  (forall j, In j (map fst b) -> j < a) ->
  fold_left (parse_array_entry pre) (flat_entries pre a items) b
  = b ++ combine (seq a (List.length items)) items.
Proof.
  intros Hp Hok. revert a b.
  induction Hok as [|item items Hi _ IH]; intros a b Hb; simpl.
  - now rewrite app_nil_r.
  - rewrite fold_left_app, (parse_item pre a item b Hp Hi).
    + rewrite IH; [now rewrite <- app_assoc|].
      intros j I. rewrite map_app in I. apply in_app_or in I.
      destruct I as [I|[<-|[]]]; [apply Hb in I; lia | simpl; lia].
    + intros I. apply Hb in I. lia.
Qed.

Lemma sorted_nat_seq (a n : nat) : sorted_nat (seq a n) = seq a n.
Proof.
  revert a. induction n as [|n IH]; intros a; simpl; [reflexivity|].
  rewrite IH. destruct n as [|n]; simpl; [reflexivity|].
  destruct (Nat.leb_spec a (S a)); [reflexivity | lia].
Qed.

Lemma bucket_get_app_fresh (i : nat) (b c : buckets) :
  ~ In i (map fst b) -> bucket_get i (b ++ c) = bucket_get i c.
Proof.
  induction b as [|[j item] b IH]; simpl; intros H; [reflexivity|].
  destruct (Nat.eqb_spec j i) as [->|Hne].
  - exfalso. apply H. now left.
  - apply IH. intros I. apply H. now right.
Qed.

Lemma buckets_read_back (items : list tokens) (a : nat) (b : buckets) :
  (forall j, In j (map fst b) -> j < a) ->
  flat_map (fun i => match bucket_get i
                             (b ++ combine (seq a (List.length items)) items) with
                     | Some item => [item]
                     | None => []
                     end)
           (seq a (List.length items))
  = items.
Proof.
  revert a b. induction items as [|item items IH]; intros a b Hb; simpl;
    [reflexivity|].
  rewrite bucket_get_app_fresh by (intros I; apply Hb in I; lia).
  simpl. rewrite Nat.eqb_refl. simpl. f_equal.
  change (b ++ (a, item) :: combine (seq (S a) (List.length items)) items)
    with (b ++ [(a, item)] ++ combine (seq (S a) (List.length items)) items).
  rewrite app_assoc. apply IH.
  intros j I. rewrite map_app in I. apply in_app_or in I.
  destruct I as [I|[<-|[]]]; [apply Hb in I; lia | simpl; lia].
Qed.

Lemma combine_seq_fst {A : Type} (l : list A) (a : nat) :
  map fst (combine (seq a (List.length l)) l) = seq a (List.length l).
Proof.
  revert a. induction l as [|x l IH]; intros a; simpl; [reflexivity|].
  now rewrite IH.
Qed.

Lemma array_roundtrip_prefix (pre : string) (items : list tokens) :
  prefix_ok pre -> Forall item_ok items ->
  parse_array_tokens (build_array_tokens items pre) pre = items.
Proof.
  intros Hp Hok. unfold parse_array_tokens. cbv zeta.
  rewrite (build_array_tokens_flat pre items Hp Hok), fold_left_app.
  rewrite (parse_flat pre items 0 [] Hp Hok) by (intros j []).
  cbn [fold_left]. unfold parse_array_entry. cbn [fst].
  rewrite (array_key_match_count pre Hp).
  rewrite app_nil_l, combine_seq_fst, sorted_nat_seq.
  apply (buckets_read_back items 0 []). intros j [].
Qed.

(** C8 (amended).  A sequence of field-mappings each of which has at
    least one field, distinct field names and only field names made of
    A-Z, 0-9 and "_", is decoded from its array-token encoding under the
    prefix CMD unchanged. *)
Theorem parse_build_array_tokens_roundtrip (items : list tokens) :
  Forall item_ok items ->
  parse_array_tokens (build_array_tokens items "CMD") "CMD" = items.
Proof.
  apply array_roundtrip_prefix. split; reflexivity.
Qed.

Lemma commands_demo_ok : Forall item_ok commands_demo.
Proof.
  unfold commands_demo, item_ok, dict_wf, field_ok.
  repeat constructor; simpl; try discriminate; intuition discriminate.
Qed.

Lemma parse_build_array_tokens_roundtrip_witness :
  parse_array_tokens (build_array_tokens commands_demo "CMD") "CMD"
  = commands_demo.
Proof.
  apply (parse_build_array_tokens_roundtrip commands_demo).
  unfold commands_demo, item_ok, dict_wf, field_ok.
  repeat constructor; simpl; try discriminate; intuition discriminate.
Defined.

(** C8 as stated fails: an element without fields writes no token, so it
    is missing after decoding and the later elements move up. *)
Lemma parse_build_array_tokens_empty_item_counterexample :
  let items : list tokens :=
    [ [("CMD1", Some "a")]; []; [("CMD1", Some "b")] ] in
  Forall dict_wf items
  /\ parse_array_tokens (build_array_tokens items "CMD") "CMD"
     = [ [("CMD1", Some "a")]; [("CMD1", Some "b")] ]
  /\ parse_array_tokens (build_array_tokens items "CMD") "CMD" <> items.
Proof.
  simpl. repeat split.
  - unfold dict_wf. repeat constructor; simpl; intuition.
  - discriminate.
Qed.

(* ------------------------------------------------------------------ *)
(** ** Signature check ([verify_with_public_b64]) *)
(* ------------------------------------------------------------------ *)

Lemma verify_try_ok_iff (lib : Nacl) (pk data sg : string) (b : bool) :
  verify_try lib pk data sg = Ok b <-> b = true /\ signature_valid lib pk data sg.
Proof.
  unfold verify_try, signature_valid, rbind. split.
  - destruct (b64decode lib pk) as [kb|x1] eqn:E1; [|discriminate].
    destruct (VerifyKey lib kb) as [vk|x2] eqn:E2; [|discriminate].
    destruct (b64decode lib sg) as [sgb|x3] eqn:E3; [|discriminate].
    destruct (vk_verify lib vk data sgb) as [m|x4] eqn:E4; [|discriminate].
    intros [= <-]. split; [reflexivity|]. now exists kb, vk, sgb, m.
  - intros (-> & kb & vk & sgb & m & E1 & E2 & E3 & E4).
    now rewrite E1, E2, E3, E4.
Qed.

(** C9.  With a library that keeps to its documented exceptions,
    [verify_with_public_b64] returns a boolean for every key text, data
    and signature text, never raising; it returns true exactly when key
    and signature decode, the key is well formed and the signature
    verifies, so a malformed key, malformed signature text and an invalid
    signature all give false. *)
Theorem verify_never_raises (lib : Nacl) (public_key_b64 data signature_b64 : string) :
  library_contract lib ->
  (verify_with_public_b64 lib public_key_b64 data signature_b64 = Ok true
   \/ verify_with_public_b64 lib public_key_b64 data signature_b64 = Ok false)
  /\ (verify_with_public_b64 lib public_key_b64 data signature_b64 = Ok true
      <-> signature_valid lib public_key_b64 data signature_b64)
  /\ (~ signature_valid lib public_key_b64 data signature_b64 ->
      verify_with_public_b64 lib public_key_b64 data signature_b64 = Ok false).
Proof.
  intros (Hdec & Hkey & Hver).
  assert (Hcatch : forall x, verify_try lib public_key_b64 data signature_b64 = Raise x ->
                             verify_handler_catches x = true).
  { unfold verify_try, rbind, verify_handler_catches. intros x.
    destruct (b64decode lib public_key_b64) as [kb|x1] eqn:E1.
    - destruct (VerifyKey lib kb) as [vk|x2] eqn:E2.
      + destruct (b64decode lib signature_b64) as [sg|x3] eqn:E3.
        * destruct (vk_verify lib vk data sg) as [m|x4] eqn:E4; [discriminate|].
          intros [= <-]. destruct (Hver _ _ _ _ E4) as [-> | ->]; reflexivity.
        * intros [= <-]. now rewrite (Hdec _ _ E3).
      + intros [= <-]. now rewrite (Hkey _ _ E2).
    - intros [= <-]. now rewrite (Hdec _ _ E1). }
  unfold verify_with_public_b64.
  destruct (verify_try lib public_key_b64 data signature_b64) as [b|x] eqn:T.
  - apply verify_try_ok_iff in T. destruct T as [-> V].
    split; [now left|]. split; [tauto|].
    intros H. contradiction.
  - rewrite (Hcatch x eq_refl).
    assert (N : ~ signature_valid lib public_key_b64 data signature_b64).
    { intros V. assert (T' : verify_try lib public_key_b64 data signature_b64 = Ok true)
        by now apply verify_try_ok_iff.
      congruence. }
    split; [now right|]. split; [|reflexivity].
    split; [discriminate | contradiction].
Qed.

Lemma toy_lib_contract : library_contract toy_lib.
Proof.
  unfold library_contract, toy_lib; cbn [b64decode VerifyKey vk_verify].
  repeat split.
  - intros t x. destruct (PyStr.all_chars is_alnum t); [discriminate|].
    now intros [= <-].
  - intros kb x. destruct (String.length kb =? 4)%nat; [discriminate|].
    now intros [= <-].
  - intros vk data sg x. destruct (String.eqb sg (toy_signature vk data));
      [discriminate|]. intros [= <-]. now right.
Qed.

Lemma verify_never_raises_witness :
  library_contract toy_lib
  /\ verify_with_public_b64 toy_lib "SKEY" "CMD1:c1" "SKEY7" = Ok true
  /\ verify_with_public_b64 toy_lib "not a key!" "CMD1:c1" "SKEY7" = Ok false
  /\ verify_with_public_b64 toy_lib "SKEY" "CMD1:c1" "%%%" = Ok false
  /\ verify_with_public_b64 toy_lib "SKEY" "CMD1:c2!" "SKEY7" = Ok false.
Proof.
  split; [exact toy_lib_contract|].
  pose proof (fun pk d sg =>
    proj2 (proj2 (verify_never_raises toy_lib pk d sg toy_lib_contract))) as F.
  split; [reflexivity|].
  repeat split; apply F; intros (kb & vk & sg & m & E1 & E2 & E3 & E4);
    vm_compute in E1, E2, E3, E4; try discriminate;
    injection E1 as <-; injection E2 as <-; try injection E3 as <-;
    vm_compute in E4; discriminate.
Defined.

(* ------------------------------------------------------------------ *)
(** ** The protocol client, step by step *)
(* ------------------------------------------------------------------ *)

Section Run.
Context {A B : Type}.

Lemma bind_assoc {C : Type} (m : M A) (f : A -> M B) (g : B -> M C) s :
  bind (bind m f) g s = bind m (fun a => bind (f a) g) s.
Proof. unfold bind. destruct (m s) as [[a|e] s1]; reflexivity. Qed.

Lemma ret_bind (a : A) (k : A -> M B) s : bind (ret a) k s = k a s.
Proof. reflexivity. Qed.

Lemma raise_bind (e : exc) (k : A -> M B) s :
  bind (raise e) k s = (Raise e, s).
Proof. reflexivity. Qed.

Lemma gets_bind (f : State -> A) (k : A -> M B) s :
  bind (gets f) k s = k (f s) s.
Proof. reflexivity. Qed.

Lemma lift_bind (r : result A) (k : A -> M B) s :
  bind (lift r) k s = match r with
                      | Ok a => k a s
                      | Raise e => (Raise e, s)
                      end.
Proof. unfold bind, lift. destruct r; reflexivity. Qed.

Lemma ask_bind (q : list event -> A) (ev : A -> event) (k : A -> M B) s :
  bind (ask q ev) k s = k (q (trace s)) (log (ev (q (trace s))) s).
Proof. reflexivity. Qed.

Lemma ask_r_bind (q : list event -> result A) (ev : result A -> event)
  (k : A -> M B) s :
  bind (ask_r q ev) k s
  = match q (trace s) with
    | Ok a => k a (log (ev (Ok a)) s)
    | Raise e => (Raise e, log (ev (Raise e)) s)
    end.
Proof. unfold bind, ask_r. destruct (q (trace s)); reflexivity. Qed.

Lemma bind_ret_r (m : M A) s : m s = bind m ret s.
Proof. unfold bind, ret. destruct (m s) as [[a|e] s1]; reflexivity. Qed.
End Run.

Lemma modify_bind {B : Type} (f : State -> State) (k : unit -> M B) s :
  bind (modify f) k s = k tt (f s).
Proof. reflexivity. Qed.

(** Inversion of a run at a call to the world: the answer is whatever
    the world gave, and it is the one the trace logs. *)
Lemma ask_bind_inv {A B : Type} (q : list event -> A) (ev : A -> event)
  (k : A -> M B) s r s' :
  bind (ask q ev) k s = (r, s') ->
  exists a, k a (log (ev a) s) = (r, s').
Proof. rewrite ask_bind. eauto. Qed.

Lemma ask_r_bind_inv {A B : Type} (q : list event -> result A)
  (ev : result A -> event) (k : A -> M B) s r s' :
  bind (ask_r q ev) k s = (r, s') ->
  (exists a, k a (log (ev (Ok a)) s) = (r, s'))
  \/ (exists e, r = Raise e /\ s' = log (ev (Raise e)) s).
Proof.
  rewrite ask_r_bind. destruct (q (trace s)) as [a|e].
  - eauto.
  - intros [= <- <-]. eauto.
Qed.

Lemma lift_bind_inv {A B : Type} (x : result A) (k : A -> M B) s r s' :
  bind (lift x) k s = (r, s') ->
  (exists a, x = Ok a /\ k a s = (r, s'))
  \/ (exists e, x = Raise e /\ r = Raise e /\ s' = s).
Proof.
  rewrite lift_bind. destruct x as [a|e].
  - eauto.
  - intros [= <- <-]. eauto.
Qed.

Ltac run_pure H :=
  repeat (first [ rewrite bind_assoc in H
                | rewrite ret_bind in H
                | rewrite raise_bind in H
                | rewrite gets_bind in H
                | rewrite modify_bind in H ];
          cbv beta iota zeta in H).

(** Step over a call whose answer is a value, naming the answer. *)
Ltac run_ask H a :=
  run_pure H; apply ask_bind_inv in H; destruct H as [a H];
  cbv beta iota zeta in H.

(** Step over a call that may raise: the first goal goes on with the
    answer [a], the second is the run cut short by the exception [e]. *)
Ltac run_ask_r H a e :=
  run_pure H; apply ask_r_bind_inv in H;
  destruct H as [[a H]|(e & -> & ->)];
  [cbv beta iota zeta in H|].

Ltac run_lift H a e E :=
  run_pure H; apply lift_bind_inv in H;
  destruct H as [(a & E & H)|(e & E & -> & ->)];
  [cbv beta iota zeta in H|].

(** The end of a run. *)
Ltac run_done H :=
  run_pure H; unfold ret, raise in H; injection H as <- <-.

Ltac state_simpl :=
  cbn [trace rto_sec current_fw ledger log set_rto_sec set_current_fw
       set_ledger fst snd] in *.

Ltac trace_norm := repeat rewrite <- app_assoc; cbn [app].

(* ------------------------------------------------------------------ *)
(** ** Computations that leave a field alone *)
(* ------------------------------------------------------------------ *)

Section Preserves.
Context {X : Type}.
Variable f : State -> X.
Variable p : event -> bool.
Hypothesis f_log : forall e s, f (log e s) = f s.

Lemma preserves_ret {A : Type} (a : A) : preserves f p (ret a).
Proof. intros s. split; [reflexivity|]. exists []. now rewrite app_nil_r. Qed.

Lemma preserves_raise {A : Type} (e : exc) : preserves f p (@raise A e).
Proof. intros s. split; [reflexivity|]. exists []. now rewrite app_nil_r. Qed.

Lemma preserves_lift {A : Type} (r : result A) : preserves f p (lift r).
Proof. intros s. split; [reflexivity|]. exists []. now rewrite app_nil_r. Qed.

Lemma preserves_gets {A : Type} (g : State -> A) : preserves f p (gets g).
Proof. intros s. split; [reflexivity|]. exists []. now rewrite app_nil_r. Qed.

Lemma preserves_modify (g : State -> State) :
  (forall s, f (g s) = f s) -> (forall s, trace (g s) = trace s) ->
  preserves f p (modify g).
Proof.
  intros Hf Ht s. cbn. split; [apply Hf|]. exists [].
  now rewrite app_nil_r, Ht.
Qed.

Lemma preserves_ask {A : Type} (q : list event -> A) (ev : A -> event) :
  (forall a, p (ev a) = false) -> preserves f p (ask q ev).
Proof.
  intros Hp s. cbn. split; [apply f_log|]. eexists [_]. cbn.
  split; [reflexivity|]. now rewrite Hp.
Qed.

Lemma preserves_ask_r {A : Type} (q : list event -> result A)
  (ev : result A -> event) :
  (forall r, p (ev r) = false) -> preserves f p (ask_r q ev).
Proof.
  intros Hp s. cbn. split; [apply f_log|]. eexists [_]. cbn.
  split; [reflexivity|]. now rewrite Hp.
Qed.

Lemma preserves_bind {A B : Type} (m : M A) (k : A -> M B) :
  preserves f p m -> (forall a, preserves f p (k a)) -> preserves f p (bind m k).
Proof.
  intros Hm Hk s. unfold bind.
  destruct (Hm s) as (Hf1 & evs1 & Ht1 & Hp1).
  destruct (m s) as [[a|e] s1]; cbn [snd] in *.
  - destruct (Hk a s1) as (Hf2 & evs2 & Ht2 & Hp2).
    split; [congruence|]. exists (evs1 ++ evs2).
    rewrite Ht2, Ht1, <- app_assoc, existsb_app, Hp1, Hp2. auto.
  - split; [exact Hf1|]. now exists evs1.
Qed.

Lemma preserves_for_each {A : Type} (body : A -> M unit) (l : list A) :
  (forall a, preserves f p (body a)) -> preserves f p (for_each body l).
Proof.
  intros Hb. induction l as [|x l IH]; cbn [for_each].
  - apply preserves_ret.
  - apply preserves_bind; [apply Hb | intros _; exact IH].
Qed.
End Preserves.

(** Take a computation apart down to its calls. *)
Ltac preserves_tac :=
  repeat first
    [ progress intros
    | simple apply preserves_bind
    | simple apply preserves_ret
    | simple apply preserves_raise
    | simple apply preserves_lift
    | simple apply preserves_gets
    | simple apply preserves_for_each
    | simple apply preserves_ask; reflexivity
    | simple apply preserves_ask_r; reflexivity
    | simple apply preserves_modify; reflexivity
    | match goal with
      | |- preserves _ _ (if ?b then _ else _) => destruct b
      | |- preserves _ _ (match ?x with _ => _ end) => destruct x
      end ].

(* ------------------------------------------------------------------ *)
(** ** Logs that record the answers of the world *)
(* ------------------------------------------------------------------ *)

Lemma truthful_app (w : World) (h a b : list event) :
  truthful w h a -> truthful w (h ++ a) b -> truthful w h (a ++ b).
Proof.
  revert h. induction a as [|e a IH]; intros h Ha Hb; cbn [app truthful] in *.
  - now rewrite app_nil_r in Hb.
  - destruct Ha as [He Ha]. split; [exact He|]. apply IH; [exact Ha|].
    now rewrite <- app_assoc.
Qed.

Section Answers.
Variable w : World.

Lemma answers_ret {A : Type} (a : A) : logs_answers w (ret a).
Proof. intros s. exists []. cbn. now rewrite app_nil_r. Qed.

Lemma answers_raise {A : Type} (e : exc) : logs_answers w (@raise A e).
Proof. intros s. exists []. cbn. now rewrite app_nil_r. Qed.

Lemma answers_lift {A : Type} (r : result A) : logs_answers w (lift r).
Proof. intros s. exists []. cbn. now rewrite app_nil_r. Qed.

Lemma answers_gets {A : Type} (g : State -> A) : logs_answers w (gets g).
Proof. intros s. exists []. cbn. now rewrite app_nil_r. Qed.

Lemma answers_modify (g : State -> State) :
  (forall s, trace (g s) = trace s) -> logs_answers w (modify g).
Proof. intros Ht s. exists []. cbn. now rewrite app_nil_r, Ht. Qed.

Lemma answers_ask {A : Type} (q : list event -> A) (ev : A -> event) :
  (forall h, answered w h (ev (q h))) -> logs_answers w (ask q ev).
Proof. intros Hq s. eexists [_]. cbn. split; [reflexivity|]. now split. Qed.

Lemma answers_ask_r {A : Type} (q : list event -> result A)
  (ev : result A -> event) :
  (forall h, answered w h (ev (q h))) -> logs_answers w (ask_r q ev).
Proof. intros Hq s. eexists [_]. cbn. split; [reflexivity|]. now split. Qed.

Lemma answers_bind {A B : Type} (m : M A) (k : A -> M B) :
  logs_answers w m -> (forall a, logs_answers w (k a)) ->
  logs_answers w (bind m k).
Proof.
  intros Hm Hk s. unfold bind.
  destruct (Hm s) as (evs1 & Ht1 & Ha1).
  destruct (m s) as [[a|e] s1]; cbn [snd] in *.
  - destruct (Hk a s1) as (evs2 & Ht2 & Ha2).
    exists (evs1 ++ evs2). split; [now rewrite Ht2, Ht1, <- app_assoc|].
    apply truthful_app; [exact Ha1 | now rewrite <- Ht1].
  - now exists evs1.
Qed.

Lemma answers_for_each {A : Type} (body : A -> M unit) (l : list A) :
  (forall a, logs_answers w (body a)) -> logs_answers w (for_each body l).
Proof.
  intros Hb. induction l as [|x l IH]; cbn [for_each].
  - apply answers_ret.
  - apply answers_bind; [apply Hb | intros _; exact IH].
Qed.
End Answers.

(** Take a computation apart down to its calls. *)
Ltac answers_tac :=
  repeat first
    [ progress intros
    | simple apply answers_bind
    | simple apply answers_ret
    | simple apply answers_raise
    | simple apply answers_lift
    | simple apply answers_gets
    | simple apply answers_for_each
    | simple apply answers_ask; intros; reflexivity
    | simple apply answers_ask_r; intros; reflexivity
    | simple apply answers_modify; reflexivity
    | match goal with
      | |- logs_answers _ (if ?b then _ else _) => destruct b
      | |- logs_answers _ (match ?x with _ => _ end) => destruct x
      end ].

Lemma failed_call_snoc (tr : list event) (e : event) (x : exc) :
  raised e = Some x -> failed_call (tr ++ [e]) x.
Proof. intros H. now exists tr, e. Qed.

Section ClientFacts.
Variable cfg : Config.
Variable lib : Nacl.
Variable w : World.

(** The run of [command_ack] from any state, call by call. *)
Lemma command_ack_run (cmd_id : pyval) (ok : bool) (message : pyval)
  (dur : Z) (s : State) (r : result tokens) (s' : State) :
  command_ack cfg lib w cmd_id ok message dur s = (r, s') ->
  exists ts nonce r1 rest,
    let payload :=
      signed_payload lib (command_ack_tokens cfg cmd_id ok message dur ts nonce) in
    trace s' = trace s ++ [EvTs ts; EvNonce nonce;
                           EvAudit "command_ack" "out" payload r1] ++ rest
    /\ ack_calls rest = []
    /\ (ack_posts rest = [payload]
        \/ (ack_posts rest = [] /\ exists x, r = Raise x))
    /\ ((exists resp, r = Ok resp)
        \/ exists x, r = Raise x /\ failed_call (trace s') x).
Proof.
  intros H. unfold command_ack, _ts, _nonce, audit, post in H.
  rewrite bind_ret_r in H.
  run_ask H ts. run_ask H nonce. exists ts, nonce.
  run_ask_r H u1 x1; [run_ask_r H p x2; [run_ask_r H u2 x3; [run_done H|]|]|];
    state_simpl; cbv zeta; eexists _, _;
    (split; [trace_norm; reflexivity|]); cbn;
    (split; [reflexivity|]);
    (split; [first [left; reflexivity | right; split; [reflexivity | eauto]]|]);
    first [left; eexists; reflexivity
          | right; eexists; split; [reflexivity|];
            apply failed_call_snoc; reflexivity].
Qed.

(** One run of [_handle_command], call by call. *)
Lemma handle_command_run (cmd : tokens) (s : State) (r : result unit)
  (s' : State) :
  _handle_command cfg lib w cmd s = (r, s') ->
  acknowledged_once cfg lib cmd s r s'.
Proof.
  intros H. unfold acknowledged_once. cbv zeta.
  unfold _handle_command, time_time in H.
  run_ask H t0.
  destruct (match dispatch cmd with
            | Ok r0 => r0
            | Raise e => (false, Some ("error: " ++ exc_msg e)%string)
            end) as [ok message] eqn:D.
  run_ask H t1.
  exists t0, t1, ok, message.
  unfold bind at 1 in H.
  destruct (command_ack cfg lib w _ ok message _ _) as [ra sa] eqn:A.
  apply command_ack_run in A. cbv zeta in A.
  destruct A as (ts & nonce & r1 & rest & Htr & Hcalls & Hposts & Hres).
  state_simpl. exists ts, nonce, r1, rest.
  assert (Hs : trace s' = trace sa /\ (forall x, ra = Raise x -> r = Raise x)
               /\ ((exists resp, ra = Ok resp) -> r = Ok tt)).
  { destruct ra; injection H as <- <-; repeat split; try congruence.
    intros [resp Hr]. discriminate Hr. }
  destruct Hs as (Es & Hraise & Hok). rewrite Es.
  split; [rewrite Htr; trace_norm; reflexivity|].
  split; [exact Hcalls|].
  split.
  { destruct Hposts as [Hp|(Hp & x & ->)]; [now left|].
    right. split; [exact Hp|]. exists x. now apply Hraise. }
  unfold dispatch in D.
  destruct (pyval_eqb (get_default cmd "CMD2" (Some "")) "RESTART");
    [|destruct (pyval_eqb (get_default cmd "CMD2" (Some "")) "FETCH_LOGS")];
    injection D as <- <-; cbn [orb];
    (split; [first [reflexivity | discriminate]|]);
    (split; [first [discriminate | intros _; split; reflexivity]|]);
    (destruct Hres as [Hr|(x & -> & Hf)];
     [left; now apply Hok
     |right; exists x; split; [now apply Hraise | exact Hf]]).
Qed.

(** C6 (amended).  Whatever the command and whatever the world
    answers, [_handle_command] reads the clock at dispatch start and
    again when the outcome is known, and then begins exactly one
    acknowledgment: one signed message whose CMD1 is the command's
    identifier, whose ACK3 is the whole milliseconds between the two
    clock readings, and whose ACK1 and ACK2 give the outcome - RESTART
    is OK "Restart simulated", FETCH_LOGS is OK with the command's CMD3
    or "logs captured", any other type is ERROR "unsupported command
    <type>", the dispatch raising nothing.  The message is audited, put
    on the transport once, and the reply audited; the handler returns
    when these three calls succeed, and raises what the first failing
    one raised - also for an unsupported command.  The handler changes
    neither the interval, the firmware version nor the nonce table. *)
Theorem handle_command_acknowledges_once (cmd : tokens) (s : State) :
  let r := fst (_handle_command cfg lib w cmd s) in
  let s' := snd (_handle_command cfg lib w cmd s) in
  let ctype := get_default cmd "CMD2" (Some "") in
  let ok := pyval_eqb ctype "RESTART" || pyval_eqb ctype "FETCH_LOGS" in
  let message :=
    if pyval_eqb ctype "RESTART" then Some "Restart simulated"
    else if pyval_eqb ctype "FETCH_LOGS"
         then py_or (get_default cmd "CMD3" (Some "")) (Some "logs captured")
         else Some ("unsupported command " ++ fstr ctype)%string in
  exists t0 t1 ts nonce evs,
    let toks : tokens :=
      [ ("D1", Some (DEVICE_ID cfg));
        ("CMD1", get_default cmd "CMD1" (Some ""));
        ("ACK1", Some (if ok then "OK" else "ERROR"));
        ("ACK2", message);
        ("ACK3", Some (PyStr.of_Z (PyStr.int_of_float ((t1 - t0) * 1000)%Q)));
        ("TS", Some ts);
        ("NONCE", Some nonce) ] in
    let payload :=
      build_payload
        (toks ++ [("SIG1", Some (sign lib (PyStr.encode
                                             (to_canonical_string toks))))]) in
    trace s' = trace s ++ [EvClock t0; EvClock t1; EvTs ts; EvNonce nonce]
                       ++ evs
    /\ ((exists x,
           evs = [EvAudit "command_ack" "out" payload (Raise x)]
           /\ r = Raise x)
        \/ (exists x,
              evs = [EvAudit "command_ack" "out" payload (Ok tt);
                     EvPost "/api/devices/command-ack" payload (Raise x)]
              /\ r = Raise x)
        \/ (exists status text x,
              evs = [EvAudit "command_ack" "out" payload (Ok tt);
                     EvPost "/api/devices/command-ack" payload
                            (Ok (status, text));
                     EvAudit "command_ack" "in" text (Raise x)]
              /\ r = Raise x)
        \/ (exists status text,
              evs = [EvAudit "command_ack" "out" payload (Ok tt);
                     EvPost "/api/devices/command-ack" payload
                            (Ok (status, text));
                     EvAudit "command_ack" "in" text (Ok tt)]
              /\ r = Ok tt))
    /\ ack_calls evs = [payload]
    /\ rto_sec s' = rto_sec s
    /\ current_fw s' = current_fw s
    /\ ledger s' = ledger s.
Proof.
  cbv zeta.
  destruct (_handle_command cfg lib w cmd s) as [r s'] eqn:H. cbn [fst snd].
  unfold _handle_command, time_time in H.
  run_ask H t0.
  assert (D : match dispatch cmd with
              | Ok r0 => r0
              | Raise e => (false, Some ("error: " ++ exc_msg e)%string)
              end
              = (pyval_eqb (get_default cmd "CMD2" (Some "")) "RESTART"
                 || pyval_eqb (get_default cmd "CMD2" (Some "")) "FETCH_LOGS",
                 if pyval_eqb (get_default cmd "CMD2" (Some "")) "RESTART"
                 then Some "Restart simulated"
                 else if pyval_eqb (get_default cmd "CMD2" (Some ""))
                                   "FETCH_LOGS"
                      then py_or (get_default cmd "CMD3" (Some ""))
                                 (Some "logs captured")
                      else Some ("unsupported command "
                                 ++ fstr (get_default cmd "CMD2" (Some "")))%string)).
  { unfold dispatch.
    destruct (pyval_eqb (get_default cmd "CMD2" (Some "")) "RESTART");
      [reflexivity|].
    now destruct (pyval_eqb (get_default cmd "CMD2" (Some "")) "FETCH_LOGS"). }
  rewrite D in H. clear D.
  run_ask H t1. exists t0, t1.
  unfold command_ack, _ts, _nonce, audit, post in H.
  run_ask H ts. run_ask H nonce. exists ts, nonce.
  unfold signed_payload, command_ack_tokens in H.
  cbn [dict_set String.eqb Ascii.eqb Bool.eqb] in H.
  run_ask_r H u1 x1; [run_ask_r H p x2; [run_ask_r H u2 x3; [run_done H|]|]|];
    state_simpl; eexists;
    (split; [trace_norm; reflexivity|]).
  - destruct u1, u2, p as [status text]. cbn [fst snd].
    split; [right; right; right; exists status, text; now split|].
    repeat split.
  - destruct u1, p as [status text]. cbn [fst snd].
    split; [right; right; left; exists status, text, x3; now split|].
    repeat split.
  - destruct u1.
    split; [right; left; exists x2; now split|]. repeat split.
  - split; [left; exists x1; now split|]. repeat split.
Qed.

Lemma poll_step_filter (acc : list tokens) (c : tokens) (v : list tokens) :
  poll_step cfg lib acc c = Ok v ->
  v = acc ++ (if server_signed cfg lib c then [c] else []).
Proof.
  unfold poll_step, server_signed, _verify_server_signature, rbind.
  destruct (get c "SIG_SERV") as [sg|]; [|intros [= <-]; now rewrite app_nil_r].
  destruct (PyStr.falsy sg); cbn [orb negb andb];
    [intros [= <-]; now rewrite app_nil_r|].
  destruct (PyStr.falsy (SERVER_PUBLIC_KEY_BASE64 cfg)); cbn [negb andb];
    [intros [= <-]; now rewrite app_nil_r|].
  destruct (verify_with_public_b64 lib _ _ sg) as [[|]|x];
    [intros [= <-]; reflexivity
    |intros [= <-]; now rewrite app_nil_r
    |discriminate].
Qed.

Lemma poll_loop_filter (cmds : list tokens) (acc v : list tokens) :
  poll_loop cfg lib acc cmds = Ok v -> v = acc ++ filter (server_signed cfg lib) cmds.
Proof.
  revert acc. induction cmds as [|c cmds IH]; intros acc; cbn [poll_loop filter].
  - intros [= <-]. now rewrite app_nil_r.
  - unfold rbind. destruct (poll_step cfg lib acc c) as [v1|x] eqn:E;
      [|discriminate].
    intros H. apply IH in H. apply poll_step_filter in E. subst.
    rewrite <- app_assoc. f_equal. now destruct (server_signed cfg lib c).
Qed.

Lemma ack_calls_none (evs : list event) :
  existsb is_ack_call evs = false -> ack_calls evs = [].
Proof.
  induction evs as [|e evs IH]; [reflexivity|]. cbn [existsb ack_calls flat_map].
  intros H. apply orb_false_iff in H. destruct H as [He Hevs].
  fold (ack_calls evs). rewrite (IH Hevs), app_nil_r.
  destruct e; try reflexivity. cbn [is_ack_call] in He. now rewrite He.
Qed.

Lemma ack_calls_app (a b : list event) :
  ack_calls (a ++ b) = ack_calls a ++ ack_calls b.
Proof. apply flat_map_app. Qed.

(** The loop over the commands acknowledges them one by one, in order,
    up to the first acknowledgment that raises. *)
Lemma for_each_handle_run (cmds : list tokens) (s : State) (r : result unit)
  (s' : State) :
  for_each (_handle_command cfg lib w) cmds s = (r, s') ->
  exists evs handled rest,
    trace s' = trace s ++ evs
    /\ cmds = handled ++ rest
    /\ Forall2 (acks_command cfg lib) handled (ack_calls evs).
Proof.
  revert s. induction cmds as [|c cmds IH]; intros s H; cbn [for_each] in H.
  - injection H as <- <-. exists [], [], []. rewrite app_nil_r.
    repeat split. constructor.
  - unfold bind at 1 in H.
    destruct (_handle_command cfg lib w c s) as [rc sc] eqn:Hc.
    apply handle_command_run in Hc. unfold acknowledged_once in Hc.
    cbv zeta in Hc.
    destruct Hc as (t0 & t1 & ok & message & ts & nonce & r1 & rest0
                    & Htr & Hcalls & _).
    assert (Hack : forall evs, exists payload,
               ack_calls ([EvClock t0; EvClock t1; EvTs ts; EvNonce nonce;
                           EvAudit "command_ack" "out"
                             (signed_payload lib
                                (command_ack_tokens cfg
                                   (get_default c "CMD1" (Some "")) ok message
                                   (PyStr.int_of_float ((t1 - t0) * 1000)%Q)
                                   ts nonce)) r1] ++ rest0 ++ evs)
               = payload :: ack_calls evs
               /\ acks_command cfg lib c payload).
    { intros evs. eexists. split.
      - rewrite !ack_calls_app, Hcalls. reflexivity.
      - now exists ok, message, (PyStr.int_of_float ((t1 - t0) * 1000)%Q),
          ts, nonce. }
    destruct rc as [[]|x].
    + apply IH in H. destruct H as (evs & handled & rest & Htr' & Hcmds & Hall).
      destruct (Hack evs) as (payload & Ep & Hp).
      eexists _, (c :: handled), rest.
      split; [rewrite Htr', Htr, <- !app_assoc; reflexivity|].
      split; [now rewrite Hcmds|].
      rewrite Ep. now constructor.
    + injection H as <- <-.
      destruct (Hack []) as (payload & Ep & Hp). rewrite app_nil_r in Ep.
      eexists _, [c], cmds.
      split; [exact Htr|]. split; [reflexivity|].
      rewrite Ep. cbn. repeat constructor. exact Hp.
Qed.

(** Outside the loop over the commands, a turn begins no acknowledgment
    of a command. *)
Lemma heartbeat_once_no_ack :
  preserves no_field is_ack_call (heartbeat_once cfg lib w).
Proof.
  unfold heartbeat_once, time_time, telemetry, _ts, _nonce, add_nonce, audit,
    post.
  preserves_tac; reflexivity.
Qed.

Lemma commands_poll_no_ack :
  preserves no_field is_ack_call (commands_poll cfg lib w).
Proof.
  unfold commands_poll, _ts, _nonce, audit, http_get.
  preserves_tac; reflexivity.
Qed.

Lemma firmware_check_no_ack :
  preserves no_field is_ack_call (firmware_check cfg lib w).
Proof.
  unfold firmware_check, _ts, _nonce, audit, post.
  preserves_tac; reflexivity.
Qed.

Lemma firmware_apply_flow_no_ack resp force_fail :
  preserves no_field is_ack_call
            (firmware_apply_flow cfg lib w resp force_fail).
Proof.
  unfold firmware_apply_flow, firmware_ack, _download_to, file_sha256_hex,
    _apply_staged, _ts, _nonce, audit, post.
  preserves_tac; reflexivity.
Qed.

(** In a turn of the loop, the acknowledgments of commands are those of
    the commands the poll returned, in order. *)
Lemma loop_try_acknowledges_polled (s0 : State) (resp : tokens) (s : State)
  (verified : list tokens) :
  heartbeat_once cfg lib w s0 = (Ok resp, s) ->
  fst (commands_poll cfg lib w s) = Ok verified ->
  exists evs handled rest,
    trace (snd (loop_try cfg lib w s0)) = trace s0 ++ evs
    /\ verified = handled ++ rest
    /\ Forall2 (acks_command cfg lib) handled (ack_calls evs).
Proof.
  intros Hhb Hv.
  destruct (loop_try cfg lib w s0) as [r s2] eqn:H. cbn [snd].
  unfold loop_try in H. unfold bind at 1 in H. rewrite Hhb in H.
  destruct (heartbeat_once_no_ack s0) as (_ & evs_hb & Ehb & Nhb).
  rewrite Hhb in Ehb. cbn [snd] in Ehb.
  apply ack_calls_none in Nhb.
  (* what follows the loop over the commands *)
  assert (Htail : forall (k : M unit) st rt st' pre handled rest,
             preserves no_field is_ack_call k ->
             trace st = trace s0 ++ pre ->
             verified = handled ++ rest ->
             Forall2 (acks_command cfg lib) handled (ack_calls pre) ->
             k st = (rt, st') ->
             exists evs handled rest,
               trace st' = trace s0 ++ evs
               /\ verified = handled ++ rest
               /\ Forall2 (acks_command cfg lib) handled (ack_calls evs)).
  { intros k st rt st' pre handled rest Pk Hst Hsplit Hall Hk.
    destruct (Pk st) as (_ & evs_k & Ek & Nk). rewrite Hk in Ek. cbn [snd] in Ek.
    exists (pre ++ evs_k), handled, rest.
    split; [rewrite Ek, Hst; now rewrite app_assoc|].
    split; [exact Hsplit|].
    now rewrite ack_calls_app, (ack_calls_none _ Nk), app_nil_r. }
  assert (Pfw : preserves no_field is_ack_call
            (if pyval_eqb (get resp "FW_AVAILABLE") "true"
                || truthy (get resp "FW2")
             then bind (firmware_check cfg lib w) (fun fw_resp =>
                    if pyval_eqb (get fw_resp "S1") "update_available"
                    then bind (firmware_apply_flow cfg lib w fw_resp false)
                              (fun _ => ret tt)
                    else ret tt)
             else ret tt)).
  { preserves_tac; try reflexivity;
      first [apply firmware_check_no_ack | apply firmware_apply_flow_no_ack]. }
  (* no command handled *)
  assert (Hnone : forall rt st',
             bind (for_each (_handle_command cfg lib w) []) (fun _ =>
               if pyval_eqb (get resp "FW_AVAILABLE") "true"
                  || truthy (get resp "FW2")
               then bind (firmware_check cfg lib w) (fun fw_resp =>
                      if pyval_eqb (get fw_resp "S1") "update_available"
                      then bind (firmware_apply_flow cfg lib w fw_resp false)
                                (fun _ => ret tt)
                      else ret tt)
               else ret tt) s = (rt, st') ->
             exists evs handled rest,
               trace st' = trace s0 ++ evs
               /\ verified = handled ++ rest
               /\ Forall2 (acks_command cfg lib) handled (ack_calls evs)).
  { intros rt st' Hk. cbn [for_each] in Hk. rewrite ret_bind in Hk.
    apply (Htail _ s rt st' evs_hb [] verified Pfw Ehb eq_refl); [|exact Hk].
    rewrite Nhb. constructor. }
  destruct (truthy (get resp "PENDING_CMDS")).
  - run_lift H z x Ez.
    + run_pure H. destruct (0 <? z)%Z.
      * unfold bind at 1 in H.
        destruct (commands_poll_no_ack s) as (_ & evs_p & Ep & Np).
        destruct (commands_poll cfg lib w s) as [rp sp] eqn:P.
        cbn [fst snd] in Hv, Ep. subst rp. apply ack_calls_none in Np.
        unfold bind at 1 in H.
        destruct (for_each (_handle_command cfg lib w) verified sp)
          as [rf sf] eqn:F.
        apply for_each_handle_run in F.
        destruct F as (evs_h & handled & rest & Eh & Hsplit & Hall).
        assert (Hsf : trace sf = trace s0 ++ (evs_hb ++ evs_p ++ evs_h)).
        { rewrite Eh, Ep, Ehb. now rewrite <- !app_assoc. }
        assert (Hacks : Forall2 (acks_command cfg lib) handled
                          (ack_calls (evs_hb ++ evs_p ++ evs_h))).
        { now rewrite !ack_calls_app, Nhb, Np. }
        destruct rf as [[]|xf].
        -- now apply (Htail _ sf r s2 _ handled rest Pfw Hsf Hsplit Hacks).
        -- injection H as <- <-. now exists (evs_hb ++ evs_p ++ evs_h), handled, rest.
      * rewrite ret_bind in H. now apply (Hnone r s2).
    + exists evs_hb, [], verified. repeat split; [exact Ehb|].
      rewrite Nhb. constructor.
  - run_pure H. now apply (Hnone r s2).
Qed.

(** C4.  When [commands_poll] returns a list, the list holds, in order,
    exactly the commands decoded from the answer of the poll that carry
    a non-empty SIG_SERV verifying under the configured (non-empty)
    server public key over the canonical form of their fields among
    CMD1..CMD5 and TS.  A command without signature, with a signature
    that fails, or met when no server key is configured is not in the
    list; with no server key the list is empty.  And when the poll is
    the one of a turn of the loop, the acknowledgments of commands begun
    in that turn are acknowledgments of commands of the list, in its
    order: a dropped command is neither handled nor acknowledged. *)
Theorem commands_poll_returns_only_verified (s : State)
  (verified : list tokens) :
  fst (commands_poll cfg lib w s) = Ok verified ->
  (exists ts nonce status text,
    let query :=
      signed_payload lib [("D1", Some (DEVICE_ID cfg)); ("TS", Some ts);
                          ("NONCE", Some nonce)] in
    trace (snd (commands_poll cfg lib w s))
    = trace s ++ [EvTs ts; EvNonce nonce;
                  EvAudit "commands_poll" "out" query (Ok tt);
                  EvGet "/api/devices/commands" query (Ok (status, text));
                  EvAudit "commands_poll" "in" text (Ok tt)]
    /\ verified
       = filter (server_signed cfg lib)
                (parse_array_tokens (parse_tokens text) "CMD")
    /\ (forall c, In c verified ->
          exists sig_serv,
            get c "SIG_SERV" = Some sig_serv
            /\ sig_serv <> ""
            /\ SERVER_PUBLIC_KEY_BASE64 cfg <> ""
            /\ verify_with_public_b64 lib (SERVER_PUBLIC_KEY_BASE64 cfg)
                 (PyStr.encode (to_canonical_string (command_subset c)))
                 sig_serv = Ok true)
    /\ (forall c, In c (parse_array_tokens (parse_tokens text) "CMD") ->
          server_signed cfg lib c = false -> ~ In c verified)
    /\ (SERVER_PUBLIC_KEY_BASE64 cfg = "" -> verified = []))
  /\ (forall s0 resp,
        heartbeat_once cfg lib w s0 = (Ok resp, s) ->
        exists evs handled rest,
          trace (snd (loop_try cfg lib w s0)) = trace s0 ++ evs
          /\ verified = handled ++ rest
          /\ Forall2 (acks_command cfg lib) handled (ack_calls evs)).
Proof.
  intros Hfst.
  split; [|intros s0 resp Hhb; now apply (loop_try_acknowledges_polled s0 resp s)].
  revert Hfst.
  destruct (commands_poll cfg lib w s) as [r s'] eqn:H. cbn [fst snd].
  intros Hr. unfold commands_poll, _ts, _nonce, audit, http_get in H.
  run_ask H ts. run_ask H nonce.
  run_ask_r H u1 x1; [|discriminate Hr]. destruct u1.
  run_ask_r H p x2; [|discriminate Hr]. destruct p as [status text].
  run_pure H. cbn [fst snd] in H.
  run_ask_r H u2 x3; [|discriminate Hr]. destruct u2.
  unfold lift in H. injection H as Hloop <-. rewrite Hr in Hloop.
  apply poll_loop_filter in Hloop. cbn [app] in Hloop.
  exists ts, nonce, status, text. cbv zeta. state_simpl.
  split; [trace_norm; reflexivity|].
  split; [exact Hloop|].
  assert (Hin : forall c, In c verified -> server_signed cfg lib c = true).
  { intros c I. rewrite Hloop in I. now apply filter_In in I. }
  split; [|split].
  - intros c I. apply Hin in I. unfold server_signed in I.
    destruct (get c "SIG_SERV") as [sg|]; [|discriminate].
    exists sg. split; [reflexivity|].
    apply andb_true_iff in I. destruct I as [I V].
    apply andb_true_iff in I. destruct I as [I1 I2].
    repeat split.
    + intros ->. discriminate I1.
    + intros E. rewrite E in I2. discriminate I2.
    + destruct (verify_with_public_b64 lib _ _ sg) as [[|]|];
        [reflexivity | discriminate | discriminate].
  - intros c _ F I. apply Hin in I. congruence.
  - intros E. rewrite Hloop.
    assert (F : forall c, server_signed cfg lib c = false).
    { intros c. unfold server_signed. rewrite E.
      destruct (get c "SIG_SERV") as [sg|]; [|reflexivity].
      cbn. now rewrite andb_false_r. }
    clear Hloop. induction (parse_array_tokens (parse_tokens text) "CMD")
      as [|c l IH]; [reflexivity|]. cbn [filter]. now rewrite F.
Qed.

(** The calls of the pipeline are logged with the answers of the
    world. *)
Lemma firmware_apply_flow_answers (resp : tokens) (force_fail : bool) :
  logs_answers w (firmware_apply_flow cfg lib w resp force_fail).
Proof.
  unfold firmware_apply_flow, firmware_ack, _download_to, file_sha256_hex,
    _apply_staged, _ts, _nonce, audit, post.
  answers_tac.
Qed.

(** The acknowledgment stage, call by call. *)
Lemma firmware_ack_shape (resp : tokens) (applied : bool)
  (s : State) (r : result bool) (s' : State) :
  firmware_ack cfg lib w resp (get_default resp "FW1" (Some "fw")) applied s
  = (r, s') ->
  exists ts nonce ack,
    trace s' = trace s ++ [EvTs ts; EvNonce nonce] ++ ack
    /\ fw_ack_exchange resp (fw_ack_payload cfg lib resp applied ts nonce)
                       applied (current_fw s) ack r (current_fw s').
Proof.
  intros H. unfold firmware_ack, _ts, _nonce, audit, post in H.
  run_ask H ts. run_ask H nonce. exists ts, nonce.
  change (signed_payload lib
            (firmware_ack_tokens cfg resp (get_default resp "FW1" (Some "fw"))
                                 applied ts nonce))
    with (fw_ack_payload cfg lib resp applied ts nonce) in H.
  unfold fw_ack_exchange.
  run_ask_r H u1 x1; [run_ask_r H p x2; [run_ask_r H u2 x3|]|].
  - destruct u1, u2, p as [status text]. cbn [fst snd] in H.
    destruct applied; run_done H; state_simpl;
      (eexists; split; [trace_norm; reflexivity|]);
      right; right; right; exists status, text; repeat split.
  - destruct u1, p as [status text]. state_simpl.
    eexists; split; [trace_norm; reflexivity|].
    right; right; left. exists status, text, x3. repeat split.
  - destruct u1. state_simpl.
    eexists; split; [trace_norm; reflexivity|].
    right; left. exists x2. repeat split.
  - state_simpl. eexists; split; [trace_norm; reflexivity|].
    left. exists x1. repeat split.
Qed.

Lemma no_stage_event (p : event -> bool) (evs : list event) (e : event) :
  existsb p evs = false -> In e evs -> p e = false.
Proof.
  intros H I. destruct (p e) eqn:E; [|reflexivity].
  assert (existsb p evs = true) by (apply existsb_exists; eauto). congruence.
Qed.

Ltac split_in I :=
  repeat match type of I with
         | _ \/ _ => destruct I as [I|I]
         | False => destruct I
         end.

(** An audit record that ends a stage. *)
Lemma stage_audit_run (kind raw : string) (s1 : State) (r : result bool)
  (s' : State) :
  bind (audit w kind "in" raw) (fun _ => ret false) s1 = (r, s') ->
  exists a, trace s' = trace s1 ++ [EvAudit kind "in" raw a]
            /\ r = stopped a /\ current_fw s' = current_fw s1.
Proof.
  intros A. unfold audit in A.
  run_ask_r A u x; [run_done A; destruct u|]; state_simpl;
    eexists; repeat split.
Qed.

(** Every run of [firmware_apply_flow] is one of the seven runs of
    [pipeline_run]. *)
Lemma firmware_apply_flow_shape (resp : tokens) (force_fail : bool)
  (s : State) (r : result bool) (s' : State) :
  firmware_apply_flow cfg lib w resp force_fail s = (r, s') ->
  exists evs, trace s' = trace s ++ evs
              /\ pipeline_run cfg lib w resp force_fail s r s' evs.
Proof.
  intros H. unfold firmware_apply_flow in H.
  fold (staged_path cfg w resp) in H.
  set (path := staged_path cfg w resp) in *.
  destruct (truthy (get resp "FW_SIG")) eqn:Esig; cbn [negb] in H.
  2:{ rewrite ret_bind in H. cbn [negb] in H.
      apply stage_audit_run in H. destruct H as (a & Htr & Hr & Hfw).
      eexists. split; [exact Htr|]. unfold pipeline_run; cbv zeta; fold path; rewrite ?Esig, ?Ever, ?Eurl.
      right; left. now exists a. }
  run_lift H ok x Ever.
  2:{ exists []. split; [now rewrite app_nil_r|]. unfold pipeline_run; cbv zeta; fold path; rewrite ?Esig, ?Ever, ?Eurl.
      left. now exists x. }
  destruct ok; cbn [negb] in H.
  2:{ apply stage_audit_run in H. destruct H as (a & Htr & Hr & Hfw).
      eexists. split; [exact Htr|]. unfold pipeline_run; cbv zeta; fold path; rewrite ?Esig, ?Ever, ?Eurl.
      right; left. now exists a. }
  unfold _download_to in H.
  destruct (truthy (get resp "FW3")) eqn:Eurl; cbn [negb] in H.
  2:{ rewrite ret_bind in H. cbn [negb] in H.
      apply stage_audit_run in H. destruct H as (a & Htr & Hr & Hfw).
      eexists. split; [exact Htr|]. unfold pipeline_run; cbv zeta; fold path; rewrite ?Esig, ?Ever, ?Eurl.
      right; right; left. now exists a. }
  run_ask H dl. destruct dl; cbn [negb] in H.
  2:{ apply stage_audit_run in H. destruct H as (a & Htr & Hr & Hfw).
      state_simpl. eexists. split; [rewrite Htr; trace_norm; reflexivity|].
      unfold pipeline_run; cbv zeta; fold path; rewrite ?Esig, ?Ever, ?Eurl. right; right; right; left. now exists a. }
  assert (Hack : forall pre s1,
             trace s1 = trace s ++ EvDownload (fstr (get resp "FW3")) path true
                                   :: pre ->
             current_fw s1 = current_fw s ->
             pre = (if truthy (get resp "FW4")
                    then [EvDigest path (Ok (fstr (get resp "FW4")))] else []) ->
             bind (if force_fail then ret false else _apply_staged w path)
                  (fun applied =>
                     firmware_ack cfg lib w resp
                                  (get_default resp "FW1" (Some "fw")) applied)
                  s1 = (r, s') ->
             exists evs, trace s' = trace s ++ evs
                         /\ pipeline_run cfg lib w resp force_fail s r s' evs).
  { clear H. intros pre s1 Htr Hfw Hpre A.
    assert (Hgen : forall applied s2 mid,
               trace s2 = trace s1 ++ mid -> current_fw s2 = current_fw s1 ->
               mid = (if force_fail then [] else [EvExists path applied]) ->
               (force_fail = true -> applied = false) ->
               firmware_ack cfg lib w resp (get_default resp "FW1" (Some "fw"))
                            applied s2 = (r, s') ->
               exists evs, trace s' = trace s ++ evs
                           /\ pipeline_run cfg lib w resp force_fail s r s' evs).
    { intros applied s2 mid Htr2 Hfw2 Hmid Hff B.
      apply firmware_ack_shape in B.
      destruct B as (ts & nonce & ack & Htr3 & Hex).
      eexists. split.
      - rewrite Htr3, Htr2, Htr, Hmid, Hpre.
        repeat (rewrite <- app_assoc; cbn [app]). reflexivity.
      - unfold pipeline_run; cbv zeta; fold path; rewrite ?Esig, ?Ever, ?Eurl.
        do 6 right. exists applied, ts, nonce, ack.
        split; [reflexivity|]. split; [reflexivity|]. split; [exact Hff|].
        split; [reflexivity|]. now rewrite <- Hfw, <- Hfw2. }
    destruct force_fail.
    - rewrite ret_bind in A. apply (Hgen false s1 []); auto.
      now rewrite app_nil_r.
    - unfold _apply_staged in A. run_ask A b.
      apply (Hgen b (log (EvExists path b) s1) [EvExists path b]); auto.
      discriminate. }
  destruct (truthy (get resp "FW4")) eqn:Ecs.
  - unfold file_sha256_hex in H. run_ask_r H h x.
    + run_pure H.
      destruct (String.eqb_spec h (fstr (get resp "FW4"))) as [Eh|Nh];
        cbn [negb] in H.
      * subst h. eapply Hack; [| | |exact H]; try reflexivity.
        state_simpl. trace_norm. reflexivity.
      * apply stage_audit_run in H. destruct H as (a & Htr & Hr & Hfw).
        state_simpl. eexists. split; [rewrite Htr; trace_norm; reflexivity|].
        unfold pipeline_run; cbv zeta; fold path; rewrite ?Esig, ?Ever, ?Eurl. rewrite Ecs.
        do 5 right. left. exists h, a. repeat split; assumption.
    + state_simpl. eexists. split; [trace_norm; reflexivity|].
      unfold pipeline_run; cbv zeta; fold path; rewrite ?Esig, ?Ever, ?Eurl. rewrite Ecs.
      do 4 right. left. exists x. repeat split.
  - rewrite ret_bind in H. cbv beta iota in H.
    eapply Hack; [| | |exact H]; try reflexivity.
Qed.

Lemma stopped_not_true (a : result unit) : stopped a <> Ok true.
Proof. destruct a; discriminate. Qed.

(** Take a membership in a list written out apart, dropping the events
    of another kind. *)
Ltac in_list I :=
  cbn [In app] in I; split_in I; try discriminate I.

Ltac not_true := first [discriminate | apply stopped_not_true].

(** The clauses of the pipeline on a run that stopped at a gate. *)
Ltac stopped_run Hfw :=
  split; [intros ?h I ?Hneq; in_list I;
          try (injection I as ?; subst);
          (split; [reflexivity|]); (split; [reflexivity|]);
          (split; [not_true | exact Hfw])|];
  split; [split; [intros E; exfalso; revert E; not_true
                 |intros [I _]; in_list I]|];
  split; [intros E; exfalso; revert E; not_true|];
  split; [intros _; exact Hfw|];
  intros ?p ?payload ?a0 I; in_list I.

(** C1 (amended).  Every run of [firmware_apply_flow] is one of the
    seven runs of [pipeline_run], its calls logged with the answers of
    the world.  The checksum gate: when the manifest is signed and names
    a URL and a checksum, the download succeeds and the digest read from
    the staged file differs from the checksum, the run is the download,
    the digest and the audit record "ERR: checksum mismatch", and no
    more: the apply stage is not entered, nothing goes on the transport
    - no acknowledgment is sent -, the flow returns false (or raises what
    the audit call raised) and [current_fw] is unchanged.  The version:
    the flow returns true exactly when the apply stage succeeded and the
    acknowledgment exchange went through to the audit of the reply; then
    [current_fw] is the manifest's FW2 (unchanged when the manifest has
    none), and in every other run - also when the apply stage succeeded
    and the exchange failed - [current_fw] is unchanged.  The
    acknowledgment: whatever the run puts on the transport is the signed
    acknowledgment, audited before, which reports OK exactly when the
    apply stage succeeded. *)
Theorem firmware_flow_checksum_gate_and_version (resp : tokens)
  (force_fail : bool) (s : State) :
  let r := fst (firmware_apply_flow cfg lib w resp force_fail s) in
  let s' := snd (firmware_apply_flow cfg lib w resp force_fail s) in
  let url := fstr (get resp "FW3") in
  let path := staged_path cfg w resp in
  let checksum := fstr (get resp "FW4") in
  let mismatch_audit (h : string) :=
    w_audit w (trace s ++ [EvDownload url path true; EvDigest path (Ok h)])
            "fw_checksum" "in" "ERR: checksum mismatch" in
  exists evs,
    trace s' = trace s ++ evs
    /\ truthful w (trace s) evs
    /\ pipeline_run cfg lib w resp force_fail s r s' evs
    /\ (forall h,
          manifest_signed cfg lib resp ->
          truthy (get resp "FW3") = true ->
          truthy (get resp "FW4") = true ->
          w_download w (trace s) url path = true ->
          w_digest w (trace s ++ [EvDownload url path true]) path = Ok h ->
          h <> checksum ->
          evs = [EvDownload url path true; EvDigest path (Ok h);
                 EvAudit "fw_checksum" "in" "ERR: checksum mismatch"
                         (mismatch_audit h)]
          /\ r = stopped (mismatch_audit h)
          /\ current_fw s' = current_fw s)
    /\ (forall h,
          In (EvDigest path (Ok h)) evs -> h <> checksum ->
          existsb is_apply evs = false
          /\ existsb is_post evs = false
          /\ r <> Ok true
          /\ current_fw s' = current_fw s)
    /\ (r = Ok true <->
        In (EvExists path true) evs
        /\ exists text, In (EvAudit "fw_ack" "in" text (Ok tt)) evs)
    /\ (r = Ok true ->
        current_fw s' = fstr (get_default resp "FW2" (Some (current_fw s))))
    /\ (r <> Ok true -> current_fw s' = current_fw s)
    /\ (forall p payload a,
          In (EvPost p payload a) evs ->
          p = "/api/devices/firmware/ack"
          /\ exists applied ts nonce,
               payload = fw_ack_payload cfg lib resp applied ts nonce
               /\ (applied = true <-> In (EvExists path true) evs)
               /\ (force_fail = true \/ In (EvExists path applied) evs)
               /\ In (EvAudit "fw_ack" "out" payload (Ok tt)) evs).
Proof.
  cbv zeta.
  destruct (firmware_apply_flow_answers resp force_fail s) as (evs0 & Htr0 & Hans).
  destruct (firmware_apply_flow cfg lib w resp force_fail s) as [r s'] eqn:H.
  cbn [fst snd] in *.
  apply firmware_apply_flow_shape in H. destruct H as (evs & Htr & Hrun).
  assert (evs0 = evs) by (rewrite Htr in Htr0; now apply app_inv_head in Htr0).
  subst evs0. exists evs. split; [exact Htr|]. split; [exact Hans|].
  split; [exact Hrun|].
  unfold pipeline_run in Hrun. cbv zeta in Hrun.
  set (path := staged_path cfg w resp) in *.
  set (url := fstr (get resp "FW3")) in *.
  clear Htr.
  destruct Hrun as [(x & Hv & -> & -> & Hfw)
                   |[(a & Hv & -> & -> & Hfw)
                   |[(a & Hv & Hu & -> & -> & Hfw)
                   |[(a & Hv & Hu & -> & -> & Hfw)
                   |[(x & Hv & Hu & Hc & -> & -> & Hfw)
                   |[(h0 & a & Hv & Hu & Hc & Hne & -> & -> & Hfw)
                   |(applied & ts & nonce & ack & Hv & Hu & Hff & -> & Hex)]]]]]].
  - (* the signature check raised *)
    split; [intros h [Hs1 Hs2]; rewrite Hs1, Hs2 in Hv; discriminate Hv|].
    stopped_run Hfw.
  - (* the manifest is not signed *)
    split; [intros h [Hs1 Hs2]; rewrite Hs1, Hs2 in Hv; discriminate Hv|].
    stopped_run Hfw.
  - (* no URL *)
    split; [intros h _ Hu'; congruence|].
    stopped_run Hfw.
  - (* the download failed *)
    split; [intros h _ _ _ Hdl; destruct Hans as [Hd _]; cbn in Hd; congruence|].
    stopped_run Hfw.
  - (* reading the digest raised *)
    split; [intros h _ _ _ _ Hdg; destruct Hans as (_ & Hd & _); cbn in Hd;
            congruence|].
    stopped_run Hfw.
  - (* the digest differs *)
    split.
    { intros h _ _ _ _ Hdg _. destruct Hans as (_ & Hd & Ha & _).
      cbn in Hd, Ha. rewrite Hdg in Hd. injection Hd as ->.
      rewrite <- app_assoc in Ha. cbn [app] in Ha. rewrite <- Ha.
      repeat split. exact Hfw. }
    stopped_run Hfw.
  - (* the run went on to the acknowledgment *)
    split.
    { intros h _ _ Hc' _ Hdg Hneq. rewrite Hc' in Hans.
      cbn [app truthful] in Hans. destruct Hans as (_ & Hd & _).
      cbn in Hd. rewrite Hdg in Hd. injection Hd as Hd. congruence. }
    clear Hans.
    assert (Happ : (force_fail = true /\ applied = false)
                   \/ force_fail = false).
    { destruct force_fail; [left; auto | now right]. }
    clear Hff.
    destruct Hex as [(x & -> & -> & Hfw)
                    |[(x & -> & -> & Hfw)
                    |[(st & tx & x & -> & -> & Hfw)
                    |(st & tx & -> & -> & Hfw)]]];
      (destruct Happ as [[-> ->]| ->]; [|destruct applied]);
      destruct (truthy (get resp "FW4")).
    all: split; [intros h I Hneq; in_list I; injection I as <-;
                 now destruct Hneq|].
    all: split; [split; [intros E; first [discriminate E
                                         | split; [|eexists]; cbn; auto 12]
                        |intros [I [text J]]; in_list I; in_list J;
                         try reflexivity]|].
    all: split; [intros E; first [discriminate E | exact Hfw]|].
    all: split; [intros E; first [exact Hfw | now destruct E]|].
    all: intros p payload a0 I; in_list I; injection I as <- <- <-;
      (split; [reflexivity|]).
    all: match goal with
         | |- exists applied ts0 nonce0,
                fw_ack_payload _ _ _ ?b ?t ?n = _ /\ _ => exists b, t, n
         end;
      (split; [reflexivity|]);
      (split; [split; [intros E; first [discriminate E | cbn; auto 12]
                      |intros I; in_list I; reflexivity]|]);
      (split; [first [left; reflexivity | right; cbn; auto 12]|]);
      cbn; auto 12.
Qed.

(** Only [register] and [heartbeat_once] set [rto_sec]. *)
Lemma commands_poll_keeps_rto :
  preserves rto_sec no_event (commands_poll cfg lib w).
Proof.
  unfold commands_poll, _ts, _nonce, audit, http_get.
  preserves_tac; reflexivity.
Qed.

Lemma command_ack_keeps_rto cmd_id ok message dur :
  preserves rto_sec no_event (command_ack cfg lib w cmd_id ok message dur).
Proof.
  unfold command_ack, _ts, _nonce, audit, post.
  preserves_tac; reflexivity.
Qed.

Lemma handle_command_keeps_rto cmd :
  preserves rto_sec no_event (_handle_command cfg lib w cmd).
Proof.
  unfold _handle_command, time_time.
  preserves_tac; try reflexivity; apply command_ack_keeps_rto.
Qed.

Lemma firmware_check_keeps_rto :
  preserves rto_sec no_event (firmware_check cfg lib w).
Proof.
  unfold firmware_check, _ts, _nonce, audit, post.
  preserves_tac; reflexivity.
Qed.

Lemma firmware_apply_flow_keeps_rto resp force_fail :
  preserves rto_sec no_event (firmware_apply_flow cfg lib w resp force_fail).
Proof.
  unfold firmware_apply_flow, firmware_ack, _download_to, file_sha256_hex,
    _apply_staged, _ts, _nonce, audit, post.
  preserves_tac; reflexivity.
Qed.

(** A heartbeat that returns, call by call. *)
Lemma heartbeat_once_run (s : State) (r : result tokens) (s1 : State)
  (resp : tokens) :
  heartbeat_once cfg lib w s = (r, s1) -> r = Ok resp ->
  exists now tm ts nonce status text,
    let payload :=
      signed_payload lib
        (heartbeat_tokens cfg now tm (current_fw s) ts nonce) in
    trace s1 = trace s ++ [EvClock now; EvTelemetry tm; EvTs ts;
                           EvNonce nonce; EvAddNonce nonce (Ok tt);
                           EvAudit "heartbeat" "out" payload (Ok tt);
                           EvPost "/api/devices/heartbeat" payload
                                  (Ok (status, text));
                           EvAudit "heartbeat" "in" text (Ok tt)]
    /\ resp = parse_tokens text
    /\ (exists stamp, ledger s1 = ledger_insert nonce stamp (ledger s))
    /\ (truthy (get resp "RTO") = true ->
        exists d, int_of_val (get resp "RTO") = Ok d
                  /\ rto_sec s1
                     = Z.min (MAX_BACKOFF_SECONDS cfg) (Z.max 10 d))
    /\ (truthy (get resp "RTO") = false -> rto_sec s1 = rto_sec s).
Proof.
  intros H Hr.
  unfold heartbeat_once, time_time, telemetry, _ts, _nonce, add_nonce, audit,
    post in H.
  run_ask H now. run_ask H tm. run_pure H. run_ask H ts. run_ask H nonce.
  cbn [heartbeat_tokens get lookup String.eqb Ascii.eqb Bool.eqb fstr] in H.
  run_ask_r H u0 x0; [destruct u0|discriminate Hr].
  run_ask_r H u1 x1; [destruct u1|discriminate Hr].
  run_ask_r H pr x2; [destruct pr as [status text]|discriminate Hr].
  run_pure H. cbn [fst snd] in H.
  run_ask_r H u2 x3; [destruct u2|discriminate Hr].
  exists now, tm, ts, nonce, status, text. cbv zeta.
  destruct (truthy (get (parse_tokens text) "RTO")) eqn:Et.
  - run_lift H d x4 Ed; [|discriminate Hr].
    run_done H. injection Hr as <-. state_simpl.
    split; [trace_norm; reflexivity|]. split; [reflexivity|].
    split; [eexists; reflexivity|]. split.
    + intros _. now exists d.
    + rewrite Et. discriminate.
  - run_done H. injection Hr as <-. state_simpl.
    split; [trace_norm; reflexivity|]. split; [reflexivity|].
    split; [eexists; reflexivity|]. split.
    + rewrite Et. discriminate.
    + reflexivity.
Qed.

(** What follows the heartbeat inside the [try] of the loop. *)
Lemma loop_try_after_heartbeat (s : State) (resp : tokens) (s1 s2 : State)
  (r : result unit) :
  heartbeat_once cfg lib w s = (Ok resp, s1) ->
  loop_try cfg lib w s = (r, s2) ->
  rto_sec s2 = rto_sec s1.
Proof.
  intros Hhb Hloop. unfold loop_try in Hloop.
  unfold bind at 1 in Hloop. rewrite Hhb in Hloop.
  match type of Hloop with
  | ?m s1 = _ =>
      assert (P : preserves rto_sec no_event m);
      [|destruct (P s1) as [E _]; rewrite Hloop in E; exact E]
  end.
  preserves_tac; try reflexivity;
    first [ apply commands_poll_keeps_rto
          | apply handle_command_keeps_rto
          | apply firmware_check_keeps_rto
          | apply firmware_apply_flow_keeps_rto
          | apply preserves_for_each; intros; apply handle_command_keeps_rto ].
Qed.

(** C3 (amended).  When a turn of the loop goes through without an
    exception: if the heartbeat response carries a non-empty RTO of
    value [d], the stored interval becomes
    [min(MAX_BACKOFF_SECONDS, max(10, d))]; if it carries none, the
    stored interval is left as it was (the last accepted directive, or
    the default while there has been none).  In both cases the loop then
    sleeps for the stored interval, whatever the backoff was before: when
    the interval is one [asyncio.sleep] can convert to a float, the sleep
    takes place and the interval is the next backoff; when it is not
    (which takes an interval stored without the clamp, or a ceiling
    above the range of floats), the sleep raises [OverflowError] and the
    turn ends with it. *)
Theorem backoff_after_successful_exchange (backoff : Z) (s : State)
  (resp : tokens) (s1 s2 : State) :
  heartbeat_once cfg lib w s = (Ok resp, s1) ->
  loop_try cfg lib w s = (Ok tt, s2) ->
  (truthy (get resp "RTO") = true ->
   exists d, int_of_val (get resp "RTO") = Ok d
             /\ rto_sec s1 = Z.min (MAX_BACKOFF_SECONDS cfg) (Z.max 10 d))
  /\ (truthy (get resp "RTO") = false -> rto_sec s1 = rto_sec s)
  /\ ((rto_sec s1 < FLOAT_OVERFLOW)%Z ->
      loop_iteration cfg lib w backoff s
      = (Ok (rto_sec s1), log (EvSleep (rto_sec s1)) s2))
  /\ ((FLOAT_OVERFLOW <= rto_sec s1)%Z ->
      loop_iteration cfg lib w backoff s
      = (Raise sleep_overflow, s2)).
Proof.
  intros Hhb Hloop.
  destruct (heartbeat_once_run s _ s1 resp Hhb eq_refl)
    as (now & tm & ts & nonce & status & text & _ & _ & _ & Hd & Hn).
  split; [exact Hd|]. split; [exact Hn|].
  unfold loop_iteration. rewrite Hloop.
  rewrite gets_bind. unfold bind, sleep, ret, raise.
  rewrite (loop_try_after_heartbeat s resp s1 s2 _ Hhb Hloop).
  split; intros Hs.
  - apply Z.ltb_lt in Hs. now rewrite Hs.
  - apply Z.ltb_ge in Hs. now rewrite Hs.
Qed.

(** No message builder but [heartbeat_once] touches the nonce ledger. *)
Lemma commands_poll_keeps_ledger :
  preserves ledger is_add_nonce (commands_poll cfg lib w).
Proof.
  unfold commands_poll, _ts, _nonce, audit, http_get.
  preserves_tac; reflexivity.
Qed.

Lemma register_keeps_ledger :
  preserves ledger is_add_nonce (register cfg lib w).
Proof.
  unfold register, _ts, _nonce, audit, post.
  preserves_tac; reflexivity.
Qed.

Lemma command_ack_keeps_ledger cmd_id ok message dur :
  preserves ledger is_add_nonce (command_ack cfg lib w cmd_id ok message dur).
Proof.
  unfold command_ack, _ts, _nonce, audit, post.
  preserves_tac; reflexivity.
Qed.

Lemma firmware_check_keeps_ledger :
  preserves ledger is_add_nonce (firmware_check cfg lib w).
Proof.
  unfold firmware_check, _ts, _nonce, audit, post.
  preserves_tac; reflexivity.
Qed.

Lemma firmware_apply_flow_keeps_ledger resp force_fail :
  preserves ledger is_add_nonce
            (firmware_apply_flow cfg lib w resp force_fail).
Proof.
  unfold firmware_apply_flow, firmware_ack, _download_to, file_sha256_hex,
    _apply_staged, _ts, _nonce, audit, post.
  preserves_tac; reflexivity.
Qed.
End ClientFacts.

(* ------------------------------------------------------------------ *)
(** ** Runs in the scripted world *)
(* ------------------------------------------------------------------ *)

(** C1 as stated fails, in both of its parts.  First run: the manifest
    signature verifies, the download succeeds, the digest "ffff" of the
    staged file differs from the manifest checksum "abcd"; the flow
    returns false with the version unchanged, and its three calls are
    the download, the digest and the audit record: no acknowledgment,
    signed or not, is put on the transport.  Second run: the digest is
    the checksum and the apply stage succeeds, but the transport is down
    when the acknowledgment is sent; the flow raises and the version is
    not updated to the manifest's "2.0.0", although the apply stage
    succeeded. *)
Lemma firmware_mismatch_sends_no_ack_and_lost_ack_keeps_version_counterexample :
  let run := firmware_apply_flow toy_cfg toy_lib toy_world toy_manifest false
                                 (init_state toy_cfg) in
  let down := scripted_world down_reply true "abcd" true in
  let run2 := firmware_apply_flow toy_cfg toy_lib down toy_manifest false
                                  (init_state toy_cfg) in
  let ack :=
    "D1:pi-1|FW1:fw9|FW2:2.0.0|ACK1:OK|ACK2:Firmware applied successfully|TS:2025-12-02T10:30:00.000Z|NONCE:n4|SIG1:DKEY105" in
  _verify_server_signature toy_cfg toy_lib (manifest_subset toy_manifest)
                           "SKEY33" = Ok true
  /\ get toy_manifest "FW4" = Some "abcd"
  /\ get toy_manifest "FW2" = Some "2.0.0"
  /\ (fst run = Ok false
      /\ trace (snd run)
         = [ EvDownload "http://updates/fw9.bin"
                        "/home/pi/.toon/staging/fw9.bin" true;
             EvDigest "/home/pi/.toon/staging/fw9.bin" (Ok "ffff");
             EvAudit "fw_checksum" "in" "ERR: checksum mismatch" (Ok tt) ]
      /\ existsb is_post (trace (snd run)) = false
      /\ current_fw (snd run) = "1.0.0")
  /\ (fst run2 = Raise (mk_exc ClientError "Cannot connect to host")
      /\ trace (snd run2)
         = [ EvDownload "http://updates/fw9.bin"
                        "/home/pi/.toon/staging/fw9.bin" true;
             EvDigest "/home/pi/.toon/staging/fw9.bin" (Ok "abcd");
             EvExists "/home/pi/.toon/staging/fw9.bin" true;
             EvTs "2025-12-02T10:30:00.000Z"; EvNonce "n4";
             EvAudit "fw_ack" "out" ack (Ok tt);
             EvPost "/api/devices/firmware/ack" ack
                    (Raise (mk_exc ClientError "Cannot connect to host")) ]
      /\ current_fw (snd run2) = "1.0.0").
Proof. vm_compute. repeat split. Qed.

Example firmware_flow_applies_when_checksum_matches :
  let run := firmware_apply_flow toy_cfg toy_lib
               (scripted_world test_reply true "abcd" true) toy_manifest false
               (init_state toy_cfg) in
  fst run = Ok true /\ current_fw (snd run) = "2.0.0"
  /\ existsb is_post (trace (snd run)) = true.
Proof. vm_compute. repeat split. Qed.

(** C2 on [commands_poll]: in no world does the poll touch the nonce
    ledger or call [add_nonce]; in the scripted world the query goes out
    on the transport carrying the fresh nonce "n1" while the ledger is
    still empty.  [heartbeat_once] alone records its nonce before
    sending ([heartbeat_once_run]). *)
Theorem commands_poll_sends_unrecorded_nonce :
  (forall cfg lib w, preserves ledger is_add_nonce (commands_poll cfg lib w))
  /\ let run := commands_poll toy_cfg toy_lib toy_world (init_state toy_cfg) in
     trace (snd run)
     = [ EvTs "2025-12-02T10:30:00.000Z"; EvNonce "n1";
         EvAudit "commands_poll" "out"
           "D1:pi-1|TS:2025-12-02T10:30:00.000Z|NONCE:n1|SIG1:DKEY44" (Ok tt);
         EvGet "/api/devices/commands"
           "D1:pi-1|TS:2025-12-02T10:30:00.000Z|NONCE:n1|SIG1:DKEY44"
           (test_reply "/api/devices/commands" 0);
         EvAudit "commands_poll" "in"
           "CMD[0].CMD1:c1|CMD[0].CMD2:RESTART|CMD[0].TS:t|CMD[0].SIG_SERV:SKEY25|CMD[1].CMD1:c2|CMD[1].CMD2:BAD|CMD[1].SIG_SERV:SKEY0|CMD[2].CMD1:c3|CMD[2].CMD2:FLY|CMD_COUNT:3"
           (Ok tt) ]
     /\ existsb is_add_nonce (trace (snd run)) = false
     /\ ledger (snd run) = [].
Proof.
  split; [exact commands_poll_keeps_ledger|].
  vm_compute. repeat split.
Qed.

Lemma commands_poll_returns_only_verified_witness :
  let s0 := init_state toy_cfg in
  let s := snd (heartbeat_once toy_cfg toy_lib toy_world s0) in
  fst (commands_poll toy_cfg toy_lib toy_world s) = Ok [toy_command]
  /\ (exists sig_serv,
        get toy_command "SIG_SERV" = Some sig_serv
        /\ verify_with_public_b64 toy_lib "SKEY"
             (PyStr.encode (to_canonical_string (command_subset toy_command)))
             sig_serv = Ok true)
  /\ (exists evs handled rest,
        trace (snd (loop_try toy_cfg toy_lib toy_world s0)) = trace s0 ++ evs
        /\ [toy_command] = handled ++ rest
        /\ Forall2 (acks_command toy_cfg toy_lib) handled (ack_calls evs)).
Proof.
  cbv zeta.
  assert (H : fst (commands_poll toy_cfg toy_lib toy_world
                     (snd (heartbeat_once toy_cfg toy_lib toy_world
                             (init_state toy_cfg))))
              = Ok [toy_command]) by (vm_compute; reflexivity).
  split; [exact H|].
  destruct (commands_poll_returns_only_verified toy_cfg toy_lib toy_world
              _ [toy_command] H)
    as ((ts & nonce & status & text & _ & _ & Hsig & _) & Hloop).
  split.
  - destruct (Hsig toy_command (or_introl eq_refl)) as (sg & E1 & _ & _ & E2).
    exists sg. split; [exact E1 | exact E2].
  - apply (Hloop (init_state toy_cfg)
                 (parse_tokens "S1:ok|RTO:120|PENDING_CMDS:2")).
    vm_compute. reflexivity.
Defined.

Lemma backoff_after_successful_exchange_witness :
  let s0 := init_state toy_cfg in
  let resp := parse_tokens "S1:ok|RTO:120|PENDING_CMDS:2" in
  let s1 := snd (heartbeat_once toy_cfg toy_lib toy_world s0) in
  let s2 := snd (loop_try toy_cfg toy_lib toy_world s0) in
  heartbeat_once toy_cfg toy_lib toy_world s0 = (Ok resp, s1)
  /\ loop_try toy_cfg toy_lib toy_world s0 = (Ok tt, s2)
  /\ rto_sec s1 = 120%Z
  /\ (rto_sec s1 < FLOAT_OVERFLOW)%Z
  /\ loop_iteration toy_cfg toy_lib toy_world 7 s0
     = (Ok (rto_sec s1), log (EvSleep (rto_sec s1)) s2).
Proof.
  cbv zeta.
  assert (H1 : heartbeat_once toy_cfg toy_lib toy_world (init_state toy_cfg)
               = (Ok (parse_tokens "S1:ok|RTO:120|PENDING_CMDS:2"),
                  snd (heartbeat_once toy_cfg toy_lib toy_world (init_state toy_cfg))))
    by (vm_compute; reflexivity).
  assert (H2 : loop_try toy_cfg toy_lib toy_world (init_state toy_cfg)
               = (Ok tt, snd (loop_try toy_cfg toy_lib toy_world (init_state toy_cfg))))
    by (vm_compute; reflexivity).
  split; [exact H1|]. split; [exact H2|]. split; [vm_compute; reflexivity|].
  assert (H3 : (rto_sec (snd (heartbeat_once toy_cfg toy_lib toy_world
                                (init_state toy_cfg))) < FLOAT_OVERFLOW)%Z)
    by (vm_compute; reflexivity).
  split; [exact H3|].
  apply (backoff_after_successful_exchange toy_cfg toy_lib toy_world 7
           _ _ _ _ H1 H2).
  exact H3.
Defined.

(** C3 as stated fails: after a first turn whose heartbeat response
    carried RTO:120, the second turn goes through with a response that
    carries no directive; the loop then sleeps 120 seconds, not the
    default of 60. *)
Lemma backoff_without_directive_keeps_last_counterexample :
  let s0 := snd (run_forever toy_cfg toy_lib toy_world 1 (init_state toy_cfg)) in
  let hb := heartbeat_once toy_cfg toy_lib toy_world s0 in
  fst hb = Ok (parse_tokens "S1:ok")
  /\ get (parse_tokens "S1:ok") "RTO" = None
  /\ fst (loop_try toy_cfg toy_lib toy_world s0) = Ok tt
  /\ fst (loop_iteration toy_cfg toy_lib toy_world 120 s0) = Ok 120%Z
  /\ DEFAULT_RTO_SECONDS toy_cfg = 60%Z
  /\ fst (loop_iteration toy_cfg toy_lib toy_world 120 s0)
     <> Ok (DEFAULT_RTO_SECONDS toy_cfg).
Proof. vm_compute. repeat split. discriminate. Qed.

Example unsupported_command_is_acknowledged_as_error :
  let run := _handle_command toy_cfg toy_lib toy_world
               [("CMD1", Some "c3"); ("CMD2", Some "FLY")] (init_state toy_cfg) in
  fst run = Ok tt
  /\ ack_posts (trace (snd run))
     = ["D1:pi-1|CMD1:c3|ACK1:ERROR|ACK2:unsupported command FLY|ACK3:250|TS:2025-12-02T10:30:00.000Z|NONCE:n3|SIG1:DKEY101"].
Proof. vm_compute. split; reflexivity. Qed.

(** C6 as stated fails: the command type FLY is not supported and the
    transport is down.  The dispatch decides on a failure with the
    message "unsupported command FLY" and raises nothing; the handler
    begins its one acknowledgment, the ERROR message is audited, the
    request raises, and the handler raises with it. *)
Lemma unsupported_command_raises_when_transport_is_down_counterexample :
  let wd := scripted_world down_reply true "ffff" true in
  let cmd : tokens := [("CMD1", Some "c3"); ("CMD2", Some "FLY")] in
  let run := _handle_command toy_cfg toy_lib wd cmd (init_state toy_cfg) in
  let payload :=
    "D1:pi-1|CMD1:c3|ACK1:ERROR|ACK2:unsupported command FLY|ACK3:250|TS:2025-12-02T10:30:00.000Z|NONCE:n3|SIG1:DKEY101" in
  dispatch cmd = Ok (false, Some "unsupported command FLY")
  /\ fst run = Raise (mk_exc ClientError "Cannot connect to host")
  /\ trace (snd run)
     = [ EvClock (0 # 4); EvClock (1 # 4);
         EvTs "2025-12-02T10:30:00.000Z"; EvNonce "n3";
         EvAudit "command_ack" "out" payload (Ok tt);
         EvPost "/api/devices/command-ack" payload
                (Raise (mk_exc ClientError "Cannot connect to host")) ].
Proof. vm_compute. repeat split. Qed.

Example forced_apply_failure_is_acknowledged_as_error :
  let run := firmware_apply_flow toy_cfg toy_lib
               (scripted_world test_reply true "abcd" true) toy_manifest true
               (init_state toy_cfg) in
  fst run = Ok false
  /\ current_fw (snd run) = "1.0.0"
  /\ existsb is_apply (trace (snd run)) = false
  /\ existsb is_post (trace (snd run)) = true.
Proof. vm_compute. repeat split. Qed.

(* ================================================================== *)
(** * Further properties of the codec *)
(* ================================================================== *)

(* ------------------------------------------------------------------ *)
(** ** What the signed text depends on *)
(* ------------------------------------------------------------------ *)

Lemma flat_map_insert_sorted_skip {A : Type} (f : string -> list A)
  (k : string) (l : list string) :
  f k = [] -> flat_map f (insert_sorted k l) = flat_map f l.
Proof.
  intros H. induction l as [|x l IH]; simpl.
  - now rewrite H.
  - destruct (String.leb k x); simpl; [now rewrite H | now rewrite IH].
Qed.

Lemma sorted_snoc (k : string) (l : list string) :
  sorted (l ++ [k]) = insert_sorted k (sorted l).
Proof.
  apply sorted_unique.
  - apply sorted_sorted.
  - apply insert_sorted_sorted, sorted_sorted.
  - apply Permutation_trans with (l ++ [k]); [symmetry; apply sorted_perm|].
    apply Permutation_trans with (k :: sorted l); [|apply insert_sorted_perm].
    apply Permutation_trans with (k :: l);
      [apply Permutation_sym, Permutation_cons_append|].
    constructor. apply sorted_perm.
Qed.

(** Storing a value under a signature key changes nothing of the
    canonical form, whether the key was there or not. *)
Lemma canonical_dict_set_reserved (toks : tokens) (k : string) (v : pyval) :
  reserved k = true ->
  to_canonical_string (dict_set k v toks) = to_canonical_string toks.
Proof.
  intros R. unfold to_canonical_string. f_equal.
  assert (Hskip : forall d, canonical_item d k = []).
  { intros d. unfold canonical_item. now rewrite startswith_any_reserved, R. }
  assert (Hext : forall k', canonical_item (dict_set k v toks) k'
                            = canonical_item toks k').
  { intros k'. destruct (String.eqb_spec k k') as [<-|N].
    - now rewrite !Hskip.
    - apply canonical_item_ext. now apply lookup_dict_set_neq. }
  rewrite (flat_map_ext _ _ Hext), keys_dict_set.
  destruct (mem k toks); [reflexivity|].
  rewrite sorted_snoc. apply flat_map_insert_sorted_skip, Hskip.
Qed.

Lemma strict_entries_ext (l1 l2 : list (string * string)) :
  StronglySorted key_lt (map fst l1) -> StronglySorted key_lt (map fst l2) ->
  (forall e, In e l1 <-> In e l2) -> l1 = l2.
Proof.
  assert (Irr : forall a, ~ key_lt a a).
  { intros a L. apply key_lt_iff in L as [_ N]. now apply N. }
  revert l2. induction l1 as [|e1 t1 IH]; intros [|e2 t2] S1 S2 H.
  - reflexivity.
  - destruct (proj2 (H e2) (or_introl eq_refl)).
  - destruct (proj1 (H e1) (or_introl eq_refl)).
  - simpl in S1, S2.
    apply StronglySorted_inv in S1 as [S1 F1].
    apply StronglySorted_inv in S2 as [S2 F2].
    rewrite Forall_forall in F1, F2.
    assert (E : e1 = e2).
    { destruct (proj1 (H e1) (or_introl eq_refl)) as [E|I]; [now symmetry|].
      destruct (proj2 (H e2) (or_introl eq_refl)) as [E|I']; [exact E|].
      pose proof (F2 _ (in_map fst _ _ I)) as L21.
      pose proof (F1 _ (in_map fst _ _ I')) as L12.
      apply key_lt_iff in L21 as [A N]. apply key_lt_iff in L12 as [B _].
      destruct N. now apply String.leb_antisym. }
    subst e2. f_equal. apply IH; [exact S1 | exact S2 |].
    intros e. split; intros I.
    + destruct (proj1 (H e) (or_intror I)) as [E|I2]; [|exact I2].
      subst e. destruct (Irr _ (F1 _ (in_map fst _ _ I))).
    + destruct (proj2 (H e) (or_intror I)) as [E|I2]; [|exact I2].
      subst e. destruct (Irr _ (F2 _ (in_map fst _ _ I))).
Qed.

Lemma signable_entries_strict (d : tokens) :
  dict_wf d -> StronglySorted key_lt (map fst (signable_entries d)).
Proof.
  intros Hwf. apply signable_keys_sorted, strongly_sorted_strict.
  - eapply Permutation_NoDup; [apply sorted_perm | exact Hwf].
  - apply sorted_sorted.
Qed.

(** X1.  The canonical form reads nothing but the present values of the
    keys outside the signature prefixes: two token mappings (distinct
    keys) that give the same [get] for every such key have the same
    canonical form, whatever else they hold - signature fields, entries
    whose value is absent, another insertion order. *)
Theorem canonical_form_reads_signable_values (d1 d2 : tokens) :
  dict_wf d1 -> dict_wf d2 ->
  (forall k, reserved k = false -> get d1 k = get d2 k) ->
  to_canonical_string d1 = to_canonical_string d2.
Proof.
  intros W1 W2 H. rewrite !to_canonical_string_entries. do 2 f_equal.
  apply strict_entries_ext; try now apply signable_entries_strict.
  intros [k v]. rewrite !signable_entries_spec.
  split; intros [L R]; (split; [|exact R]); specialize (H k R);
    unfold get in H; rewrite L in H.
  - destruct (lookup k d2) as [[x|]|]; [|discriminate H..].
    now injection H as ->.
  - destruct (lookup k d1) as [[x|]|]; [|discriminate H..].
    now injection H as ->.
Qed.

Lemma canonical_form_reads_signable_values_witness :
  to_canonical_string [("D1", Some "dev"); ("TS", Some "t1")]
  = to_canonical_string canonical_demo.
Proof.
  apply canonical_form_reads_signable_values.
  - repeat constructor; simpl; intuition discriminate.
  - apply canonical_demo_wf.
  - intros k R. unfold get, canonical_demo. cbn [lookup].
    destruct (String.eqb "D1" k) eqn:E1; destruct (String.eqb "TS" k) eqn:E2;
      destruct (String.eqb "SIG1" k) eqn:E3; destruct (String.eqb "X" k) eqn:E4;
      try reflexivity;
      try (apply String.eqb_eq in E1; subst k; discriminate);
      try (apply String.eqb_eq in E2; subst k; discriminate);
      apply String.eqb_eq in E3; subst k; discriminate.
Defined.

(* ------------------------------------------------------------------ *)
(** ** A changed value changes the signed text *)
(* ------------------------------------------------------------------ *)

Lemma string_app_assoc (a b c : string) :
  ((a ++ b) ++ c = a ++ (b ++ c))%string.
Proof. induction a as [|x a IH]; simpl; [reflexivity | now rewrite IH]. Qed.

Lemma string_app_length (a b : string) :
  String.length (a ++ b) = String.length a + String.length b.
Proof. induction a as [|x a IH]; simpl; [reflexivity | now rewrite IH]. Qed.

Lemma string_app_inv_head (p a b : string) :
  (p ++ a = p ++ b)%string -> a = b.
Proof.
  induction p as [|x p IH]; simpl; intros H; [exact H|].
  injection H as H. now apply IH.
Qed.

Lemma string_app_inv_tail (a b q : string) :
  (a ++ q = b ++ q)%string -> a = b.
Proof.
  revert b. induction a as [|x a IH]; intros [|y b] H; simpl in H.
  - reflexivity.
  - apply (f_equal String.length) in H. simpl in H.
    rewrite string_app_length in H. lia.
  - apply (f_equal String.length) in H. simpl in H.
    rewrite string_app_length in H. lia.
  - injection H as -> H. f_equal. now apply IH.
Qed.

(** The joined text around one item: what comes before and after it
    does not depend on the item. *)
Lemma join_around (A B : list string) :
  exists P Q, forall x, PyStr.join "|" (A ++ x :: B) = (P ++ x ++ Q)%string.
Proof.
  induction A as [|a A IH].
  - destruct B as [|b B].
    + exists "", "". intros x. simpl. now rewrite append_empty_r.
    + exists "", ("|" ++ PyStr.join "|" (b :: B))%string. intros x. reflexivity.
  - destruct IH as (P & Q & H).
    exists (a ++ "|" ++ P)%string, Q. intros x.
    unfold PyStr.join in *. cbn [app String.concat].
    destruct (A ++ x :: B) as [|y l] eqn:E.
    + destruct A; discriminate E.
    + rewrite <- E, H. now rewrite !string_app_assoc.
Qed.

Lemma canonical_item_signable (d : tokens) (k v : string) :
  reserved k = false -> lookup k d = Some (Some v) ->
  canonical_item d k = [kv k v].
Proof.
  intros R L. unfold canonical_item.
  now rewrite startswith_any_reserved, R, L.
Qed.

(** X2.  The signed text shows every change of a signed value: in a
    token mapping (distinct keys), replacing the present value of a key
    outside the signature prefixes by another value always gives
    another canonical form.  A message altered in such a field after
    signing, as the signature-tamper scenario does with HB2, no longer
    matches its signature text. *)
Theorem canonical_form_shows_changed_value (d : tokens) (k v v' : string) :
  dict_wf d ->
  reserved k = false ->
  lookup k d = Some (Some v) ->
  v' <> v ->
  to_canonical_string (dict_set k (Some v') d) <> to_canonical_string d.
Proof.
  intros Hwf R L Hne E. apply Hne. unfold to_canonical_string in E.
  rewrite keys_dict_set in E. unfold mem in E. rewrite L in E.
  assert (Hin : In k (sorted (keys d))).
  { eapply Permutation_in; [apply sorted_perm|].
    apply lookup_in in L. now apply (in_map fst _ (k, Some v)). }
  assert (Hnd : NoDup (sorted (keys d))).
  { eapply Permutation_NoDup; [apply sorted_perm | exact Hwf]. }
  apply in_split in Hin as (ks1 & ks2 & Eks). rewrite Eks in E, Hnd.
  apply NoDup_remove_2 in Hnd.
  assert (Hsame : forall ks, ~ In k ks ->
            flat_map (canonical_item (dict_set k (Some v') d)) ks
            = flat_map (canonical_item d) ks).
  { intros ks Hk. induction ks as [|x ks IH]; [reflexivity|].
    cbn [flat_map]. rewrite IH by (intros I; apply Hk; now right).
    f_equal. apply canonical_item_ext, lookup_dict_set_neq.
    intros ->. apply Hk. now left. }
  rewrite !flat_map_app in E. cbn [flat_map] in E.
  rewrite (Hsame ks1) in E by (intros I; apply Hnd, in_or_app; now left).
  rewrite (Hsame ks2) in E by (intros I; apply Hnd, in_or_app; now right).
  rewrite (canonical_item_signable d k v R L) in E.
  rewrite (canonical_item_signable (dict_set k (Some v') d) k v' R
             (lookup_dict_set_eq d k (Some v'))) in E.
  cbn [app] in E.
  destruct (join_around (flat_map (canonical_item d) ks1)
                        (flat_map (canonical_item d) ks2)) as (P & Q & H).
  rewrite !H in E. apply string_app_inv_head in E.
  unfold kv in E. rewrite !string_app_assoc in E.
  apply string_app_inv_head in E. simpl in E. injection E as E.
  now apply string_app_inv_tail in E.
Qed.

Lemma canonical_form_shows_changed_value_witness :
  to_canonical_string (dict_set "TS" (Some "t2") canonical_demo)
  <> to_canonical_string canonical_demo.
Proof.
  apply (canonical_form_shows_changed_value canonical_demo "TS" "t1" "t2").
  - apply canonical_demo_wf.
  - reflexivity.
  - reflexivity.
  - discriminate.
Defined.

(* ------------------------------------------------------------------ *)
(** ** What [parse_tokens] returns *)
(* ------------------------------------------------------------------ *)

Lemma split_parts_no_sep (c : ascii) (s : string) :
  Forall (fun p => PyStr.contains c p = false) (PyStr.split c s).
Proof.
  induction s as [|a s IH]; simpl.
  - repeat constructor.
  - destruct (Ascii.eqb a c) eqn:E.
    + constructor; [reflexivity | exact IH].
    + destruct (PyStr.split c s) as [|p ps].
      * repeat constructor. simpl. now rewrite E.
      * inversion IH as [|? ? Hp Hps]; subst.
        constructor; [simpl; now rewrite E, Hp | exact Hps].
Qed.

Lemma split1_some (c : ascii) (s k v : string) :
  PyStr.split1 c s = Some (k, v) ->
  s = (k ++ String c v)%string /\ PyStr.contains c k = false.
Proof.
  revert k. induction s as [|a s IH]; simpl; intros k H; [discriminate|].
  destruct (Ascii.eqb_spec a c) as [->|N].
  - injection H as <- <-. split; reflexivity.
  - destruct (PyStr.split1 c s) as [[k' v']|]; [|discriminate].
    injection H as <- <-. destruct (IH k' eq_refl) as [-> Hk].
    split; [reflexivity|]. simpl. rewrite Hk.
    now destruct (Ascii.eqb_spec a c).
Qed.

Lemma in_dict_set {V : Type} (d : dict V) (k : string) (v : V)
  (e : string * V) :
  In e (dict_set k v d) -> e = (k, v) \/ In e d.
Proof.
  induction d as [|[k' v'] d IH]; simpl.
  - intros [<-|[]]. now left.
  - destruct (String.eqb_spec k' k) as [->|N]; simpl.
    + intros [<-|I]; [now left | right; now right].
    + intros [<-|I]; [right; now left|].
      destruct (IH I) as [E|I']; [now left | right; now right].
Qed.

Lemma parse_fold_wire_safe (parts : list string) (acc : tokens) :
  Forall (fun p => PyStr.contains "|"%char p = false) parts ->
  wire_safe acc -> wire_safe (fold_left parse_part parts acc).
Proof.
  revert acc. induction parts as [|p parts IH]; intros acc F S; [exact S|].
  inversion F as [|? ? Hp Hps]; subst. simpl. apply IH; [exact Hps|].
  unfold parse_part. destruct (PyStr.split1 ":"%char p) as [[k v]|] eqn:E;
    [|exact S].
  apply split1_some in E as [-> Hk].
  rewrite contains_app in Hp. apply orb_false_iff in Hp as [Hk' Hv].
  simpl in Hv.
  intros k0 v0 I. apply in_dict_set in I as [[= -> ->]|I]; [|now apply S].
  exists v. repeat split; assumption.
Qed.

(** Reading back a mapping that can be carried by the wire form. *)
Lemma wire_roundtrip (d : tokens) :
  dict_wf d -> wire_safe d ->
  PyStr.strip (build_payload d) = build_payload d ->
  parse_tokens (build_payload d) = d.
Proof.
  intros Hwf Hsafe Hstrip.
  destruct (wire_safe_entries d Hsafe) as (Ed & Fcolon & Fbar).
  unfold parse_tokens. rewrite Hstrip.
  unfold build_payload. rewrite (payload_items_present d _ Ed).
  destruct (present_entries d) as [|e es] eqn:Ees.
  - simpl. now rewrite Ed.
  - rewrite join_kv_not_empty.
    change "|" with (String "|"%char EmptyString).
    rewrite split_join; [|discriminate | exact Fbar].
    rewrite parse_fold_fresh; [now rewrite Ed | exact Fcolon |].
    rewrite app_nil_l, <- Ed. exact Hwf.
Qed.

(** X3.  Whatever the text, the mapping [parse_tokens] returns has all
    its values present, no "|" and no ":" inside a key and no "|" inside
    a value; so serializing it again and parsing that gives the same
    mapping back, as long as the serialized text neither begins nor ends
    with whitespace. *)
Theorem parse_tokens_result_is_wire_safe (payload : string) :
  wire_safe (parse_tokens payload)
  /\ (PyStr.strip (build_payload (parse_tokens payload))
      = build_payload (parse_tokens payload) ->
      parse_tokens (build_payload (parse_tokens payload))
      = parse_tokens payload).
Proof.
  assert (S : wire_safe (parse_tokens payload)).
  { unfold parse_tokens. destruct (PyStr.falsy payload).
    - intros k v [].
    - apply parse_fold_wire_safe; [apply split_parts_no_sep | intros k v []]. }
  split; [exact S|]. intros Hstrip. apply wire_roundtrip; [|exact S|exact Hstrip].
  unfold parse_tokens. destruct (PyStr.falsy payload); [constructor|].
  apply parse_fold_wf. constructor.
Qed.

Lemma filter_present_wf (d : tokens) : dict_wf d -> dict_wf (filter present d).
Proof.
  unfold dict_wf, keys. induction d as [|[k v] d IH]; intros H; [constructor|].
  inversion H as [|? ? Hnot Hd]; subst. simpl.
  destruct (present (k, v)); [|now apply IH].
  simpl. constructor; [|now apply IH].
  intros I. apply Hnot. apply in_map_iff in I as (e & <- & I).
  apply filter_In in I as [I _]. now apply in_map.
Qed.

(** X4.  Absent values never reach the wire: [build_payload] writes a
    mapping exactly as it writes the mapping without its None entries.
    So when those remaining entries can be carried by the wire form
    (distinct keys, no "|" or ":" inside a key, no "|" inside a value,
    no whitespace at either end of the text), parsing the payload gives
    back the entries with a value, in their order, and nothing for the
    keys whose value was None. *)
Theorem build_payload_drops_absent_values (d : tokens) :
  build_payload (filter present d) = build_payload d
  /\ (dict_wf d -> wire_safe (filter present d) ->
      PyStr.strip (build_payload d) = build_payload d ->
      parse_tokens (build_payload d) = filter present d
      /\ forall k, lookup k d = Some None ->
                   lookup k (parse_tokens (build_payload d)) = None).
Proof.
  assert (E : build_payload (filter present d) = build_payload d).
  { unfold build_payload. f_equal.
    induction d as [|[k [v|]] d IH]; [reflexivity| |]; simpl.
    - now rewrite IH.
    - exact IH. }
  split; [exact E|]. intros Hwf Hsafe Hstrip.
  assert (R : parse_tokens (build_payload d) = filter present d).
  { rewrite <- E. apply wire_roundtrip;
      [now apply filter_present_wf | exact Hsafe | now rewrite E]. }
  split; [exact R|]. intros k L. rewrite R.
  apply lookup_none_iff. intros I. unfold keys in I.
  apply in_map_iff in I as ([k' v'] & <- & I).
  apply filter_In in I as [I Hp]. cbn [fst] in L.
  rewrite (in_lookup d k' v' Hwf I) in L. injection L as ->. discriminate Hp.
Qed.

(** X5.  Signing and the wire form fit together: for a message (distinct
    keys) whose signed mapping can be carried by the wire form, parsing
    the signed payload gives the message with its SIG1 field, and the
    canonical form of what was parsed is the text that was signed. *)
Theorem signed_payload_parses_to_signed_text (lib : Nacl) (toks : tokens) :
  dict_wf toks ->
  wire_safe (signed_tokens lib toks) ->
  PyStr.strip (signed_payload lib toks) = signed_payload lib toks ->
  parse_tokens (signed_payload lib toks) = signed_tokens lib toks
  /\ get (parse_tokens (signed_payload lib toks)) "SIG1"
     = Some (sign lib (PyStr.encode (to_canonical_string toks)))
  /\ to_canonical_string (parse_tokens (signed_payload lib toks))
     = to_canonical_string toks.
Proof.
  intros Hwf Hsafe Hstrip.
  assert (E : parse_tokens (signed_payload lib toks) = signed_tokens lib toks).
  { apply wire_roundtrip; [now apply dict_set_wf | exact Hsafe | exact Hstrip]. }
  rewrite E. split; [reflexivity|]. split.
  - unfold get, signed_tokens. now rewrite lookup_dict_set_eq.
  - now apply canonical_dict_set_reserved.
Qed.

Lemma signed_payload_parses_to_signed_text_witness :
  parse_tokens (signed_payload toy_lib unsigned_demo)
  = signed_tokens toy_lib unsigned_demo
  /\ get (parse_tokens (signed_payload toy_lib unsigned_demo)) "SIG1"
     = Some "DKEY44"
  /\ to_canonical_string (parse_tokens (signed_payload toy_lib unsigned_demo))
     = "D1:pi-1|NONCE:n1|TS:2025-12-02T10:30:00.000Z".
Proof.
  apply (signed_payload_parses_to_signed_text toy_lib unsigned_demo).
  - repeat constructor; simpl; intuition discriminate.
  - intros k v I. vm_compute in I.
    destruct I as [I|[I|[I|[I|[]]]]]; injection I as <- <-;
      eexists; repeat split; reflexivity.
  - reflexivity.
Defined.

(* ------------------------------------------------------------------ *)
(** ** What [parse_array_tokens] reads *)
(* ------------------------------------------------------------------ *)

Lemma span_spec (p : ascii -> bool) (s m r : string) :
  span p s = (m, r) ->
  s = (m ++ r)%string /\ PyStr.all_chars p m = true /\ not_in_class p r.
Proof.
  revert m r. induction s as [|a s IH]; simpl; intros m r H.
  - injection H as <- <-. repeat split.
  - destruct (p a) eqn:E.
    + destruct (span p s) as [m' r'].
      injection H as <- <-. destruct (IH m' r' eq_refl) as (-> & Hm & Hr).
      simpl. now rewrite E, Hm.
    + injection H as <- <-. repeat split. exact E.
Qed.

(** The groups of a match are a prefix, an index and a field name as
    the pattern asks for. *)
Lemma array_key_match_groups (k p idx f : string) :
  array_key_match k = Some (p, idx, f) ->
  prefix_ok p /\ PyStr.all_chars PyStr.isdigit idx = true /\ field_ok f.
Proof.
  unfold array_key_match.
  destruct (span is_prefix_char k) as [m r1] eqn:E1.
  destruct (PyStr.falsy m) eqn:F1; [intros E; discriminate E|].
  destruct r1 as [|c1 r2]; [intros E; discriminate E|].
  destruct c1 as [[] [] [] [] [] [] [] []]; try (intros E; discriminate E).
  destruct (span PyStr.isdigit r2) as [i r3] eqn:E2.
  destruct (PyStr.falsy i) eqn:F2; [intros E; discriminate E|].
  destruct r3 as [|c2 r3]; [intros E; discriminate E|].
  destruct c2 as [[] [] [] [] [] [] [] []]; try (intros E; discriminate E).
  destruct r3 as [|c3 r4]; [intros E; discriminate E|].
  destruct c3 as [[] [] [] [] [] [] [] []]; try (intros E; discriminate E).
  destruct (span is_key_char r4) as [g r5] eqn:E3.
  destruct (PyStr.falsy g) eqn:F3; [intros E; discriminate E|].
  destruct (String.eqb r5 "" || String.eqb r5 (String LF ""));
    [|intros E; discriminate E].
  intros [= <- <- <-].
  apply span_spec in E1 as (_ & H1 & _).
  apply span_spec in E2 as (_ & H2 & _).
  apply span_spec in E3 as (_ & H3 & _).
  repeat split; assumption.
Qed.

Lemma parse_array_entry_skip (pre : string) (b : buckets) (e : string * pyval) :
  array_token pre e = false -> parse_array_entry pre b e = b.
Proof.
  unfold array_token, parse_array_entry.
  destruct (array_key_match (fst e)) as [[[p idx] f]|]; [|reflexivity].
  now intros ->.
Qed.

Lemma parse_array_fold_filter (pre : string) (l : tokens) (b : buckets) :
  fold_left (parse_array_entry pre) (filter (array_token pre) l) b
  = fold_left (parse_array_entry pre) l b.
Proof.
  revert b. induction l as [|e l IH]; intros b; [reflexivity|].
  simpl. destruct (array_token pre e) eqn:E; simpl.
  - apply IH.
  - now rewrite (parse_array_entry_skip pre b e E).
Qed.

Lemma filter_dict_set_skip (p : string * pyval -> bool) (k : string) (v : pyval)
  (toks : tokens) :
  (forall x, p (k, x) = false) ->
  filter p (dict_set k v toks) = filter p toks.
Proof.
  intros H. induction toks as [|[k' v'] toks IH]; simpl.
  - now rewrite H.
  - destruct (String.eqb_spec k' k) as [->|N]; simpl.
    + now rewrite !H.
    + now rewrite IH.
Qed.

(** X6.  [parse_array_tokens] reads only the tokens whose key matches
    the array pattern with the prefix asked for: dropping all the other
    tokens changes nothing, and neither does storing a value under a key
    that is no such array key - a plain field, a key of another array,
    and the [_COUNT] token of the array itself, which is never
    consulted. *)
Theorem parse_array_tokens_reads_only_array_keys (toks : tokens)
  (pre : string) :
  parse_array_tokens (filter (array_token pre) toks) pre
  = parse_array_tokens toks pre
  /\ (forall k v, array_token pre (k, v) = false ->
        parse_array_tokens (dict_set k v toks) pre
        = parse_array_tokens toks pre)
  /\ (forall c, parse_array_tokens (dict_set (pre ++ "_COUNT") c toks) pre
                = parse_array_tokens toks pre).
Proof.
  assert (F : forall d, parse_array_tokens (filter (array_token pre) d) pre
                        = parse_array_tokens d pre).
  { intros d. unfold parse_array_tokens. cbv zeta.
    now rewrite parse_array_fold_filter. }
  assert (S : forall k v, array_token pre (k, v) = false ->
                parse_array_tokens (dict_set k v toks) pre
                = parse_array_tokens toks pre).
  { intros k v E. rewrite <- (F (dict_set k v toks)), <- (F toks).
    f_equal. apply filter_dict_set_skip. intros x. exact E. }
  split; [apply F|]. split; [exact S|].
  intros c. apply S. unfold array_token. cbn [fst].
  destruct (array_key_match (pre ++ "_COUNT")) as [[[p idx] f]|] eqn:E;
    [|reflexivity].
  destruct (String.eqb_spec p pre) as [->|N]; [|reflexivity].
  apply array_key_match_groups in E as E'. destruct E' as (Hp & _ & _).
  rewrite (array_key_match_count pre Hp) in E. discriminate E.
Qed.

Lemma in_bucket_get (i : nat) (b : buckets) (item : tokens) :
  bucket_get i b = Some item -> In (i, item) b.
Proof.
  induction b as [|[j it] b IH]; simpl; [discriminate|].
  destruct (Nat.eqb_spec j i) as [->|N].
  - intros [= ->]. now left.
  - intros H. right. now apply IH.
Qed.

Lemma bucket_put_forall (P : tokens -> Prop) (i : nat) (f : string)
  (v : pyval) (b : buckets) :
  (forall item, item = [] \/ P item -> P (dict_set f v item)) ->
  Forall (fun ib => P (snd ib)) b ->
  Forall (fun ib => P (snd ib)) (bucket_put i f v b).
Proof.
  intros Hset. induction b as [|[j it] b IH]; simpl; intros F.
  - constructor; [|constructor]. apply (Hset []). now left.
  - inversion F as [|? ? Hit Hb]; subst.
    destruct (Nat.eqb j i).
    + constructor; [|exact Hb]. apply (Hset it). now right.
    + constructor; [exact Hit | now apply IH].
Qed.

Lemma decoded_from_dict_set (toks : tokens) (pre key idx f : string)
  (v : pyval) (item : tokens) :
  In (key, v) toks -> array_key_match key = Some (pre, idx, f) ->
  item = [] \/ decoded_from toks pre item ->
  decoded_from toks pre (dict_set f v item).
Proof.
  intros Hin Hm Hitem.
  assert (Hf : field_ok f) by (now apply array_key_match_groups in Hm).
  assert (Hnew : field_ok f
                 /\ exists key idx, In (key, v) toks
                      /\ array_key_match key = Some (pre, idx, f))
    by (split; [exact Hf | now exists key, idx]).
  destruct Hitem as [->|(_ & Hwf & Hall)].
  - split; [discriminate|]. split; [repeat constructor; intros []|].
    intros f0 v0 [[= <- <-]|[]]. exact Hnew.
  - split; [|split].
    + destruct item as [|[k0 v0] item]; simpl; [discriminate|].
      destruct (String.eqb k0 f); discriminate.
    + now apply dict_set_wf.
    + intros f0 v0 I. apply in_dict_set in I as [[= -> ->]|I];
        [exact Hnew | now apply Hall].
Qed.

Lemma parse_array_fold_decoded (toks : tokens) (pre : string) (l : tokens)
  (b : buckets) :
  incl l toks ->
  Forall (fun ib => decoded_from toks pre (snd ib)) b ->
  Forall (fun ib => decoded_from toks pre (snd ib))
         (fold_left (parse_array_entry pre) l b).
Proof.
  revert b. induction l as [|[key v] l IH]; intros b Hl Hb; [exact Hb|].
  simpl. apply IH; [intros e I; apply Hl; now right|].
  unfold parse_array_entry. cbn [fst snd].
  destruct (array_key_match key) as [[[p idx] f]|] eqn:E; [|exact Hb].
  destruct (String.eqb_spec p pre) as [->|N]; [|exact Hb].
  cbn [negb]. apply bucket_put_forall; [|exact Hb].
  intros item. apply (decoded_from_dict_set toks pre key idx f v item);
    [apply Hl; now left | exact E].
Qed.

(** X7.  Every element [parse_array_tokens] returns has at least one
    field and distinct field names, each made of A-Z, 0-9 and "_"; and
    each of its fields was a token of the input, under a key that
    matches the array pattern with the prefix asked for and that field
    name, and with that value.  The decoder invents nothing and never
    returns an empty element. *)
Theorem parse_array_tokens_elements_come_from_tokens (toks : tokens)
  (pre : string) :
  Forall (decoded_from toks pre) (parse_array_tokens toks pre).
Proof.
  unfold parse_array_tokens. cbv zeta.
  pose proof (parse_array_fold_decoded toks pre toks []
                (incl_refl _) (Forall_nil _)) as Hb.
  rewrite Forall_forall in Hb |- *.
  intros item I. apply in_flat_map in I as (i & _ & I).
  destruct (bucket_get i (fold_left (parse_array_entry pre) toks []))
    as [item'|] eqn:E; [|destruct I].
  destruct I as [<-|[]]. apply in_bucket_get in E. exact (Hb _ E).
Qed.

(* ------------------------------------------------------------------ *)
(** ** The count field of [build_array_tokens] *)
(* ------------------------------------------------------------------ *)

Lemma isdigit_not_space (a : ascii) :
  PyStr.isdigit a = true -> PyStr.int_isspace a = false.
Proof.
  unfold PyStr.isdigit, PyStr.int_isspace. cbv zeta.
  generalize (nat_of_ascii a). intros n H.
  apply andb_true_iff in H as [H1 H2].
  apply Nat.leb_le in H1. apply Nat.leb_le in H2.
  repeat (apply orb_false_iff; split);
    first [ apply andb_false_iff; (left; apply Nat.leb_gt; lia)
                                  || (right; apply Nat.leb_gt; lia)
          | apply Nat.eqb_neq; lia ].
Qed.

Lemma rstrip_digits (s : string) :
  PyStr.all_chars PyStr.isdigit s = true -> PyStr.int_rstrip s = s.
Proof.
  induction s as [|a s IH]; simpl; [reflexivity|].
  intros H. apply andb_true_iff in H as [Ha Hs].
  rewrite (IH Hs). destruct s; [|reflexivity].
  now rewrite (isdigit_not_space a Ha).
Qed.

Lemma strip_digits (s : string) :
  PyStr.all_chars PyStr.isdigit s = true ->
  PyStr.int_rstrip (PyStr.int_lstrip s) = s.
Proof.
  intros H.
  assert (E : PyStr.int_lstrip s = s).
  { destruct s as [|a s]; [reflexivity|]. simpl in H |- *.
    apply andb_true_iff in H as [Ha _].
    now rewrite (isdigit_not_space a Ha). }
  rewrite E. now apply rstrip_digits.
Qed.

Lemma count_digits_all (s : string) :
  PyStr.all_chars PyStr.isdigit s = true ->
  PyStr.count_digits s = String.length s.
Proof.
  induction s as [|a s IH]; simpl; [reflexivity|].
  intros H. apply andb_true_iff in H as [Ha Hs].
  now rewrite Ha, (IH Hs).
Qed.

Lemma int_body_digits (s : string) (acc : nat) (prev : bool) :
  PyStr.all_chars PyStr.isdigit s = true ->
  prev = true \/ PyStr.falsy s = false ->
  PyStr.int_body s acc prev
  = Some (fold_left (fun acc a => 10 * acc + PyStr.digit_val a)
                    (list_ascii_of_string s) acc).
Proof.
  revert acc prev. induction s as [|a s IH]; intros acc prev H Hp.
  - destruct Hp as [->|Hp]; [reflexivity | discriminate Hp].
  - simpl in H |- *. apply andb_true_iff in H as [Ha Hs].
    rewrite Ha. apply IH; [exact Hs | now left].
Qed.

(** [int()] of a run of digits no longer than the conversion limit is
    the value of the digits. *)
Lemma int_digits_run (s : string) :
  PyStr.all_chars PyStr.isdigit s = true -> PyStr.falsy s = false ->
  (String.length s <= PyStr.INT_MAX_STR_DIGITS)%nat ->
  PyStr.int s = Some (Z.of_nat (PyStr.digits_val s)).
Proof.
  intros Hd Hne Hlen.
  unfold PyStr.int. rewrite (strip_digits _ Hd).
  assert (Hb : PyStr.int_digits s = Some (PyStr.digits_val s)).
  { unfold PyStr.int_digits. rewrite (count_digits_all _ Hd).
    apply Nat.ltb_ge in Hlen. rewrite Hlen.
    exact (int_body_digits s 0 false Hd (or_intror Hne)). }
  destruct s as [|a r]; [discriminate Hne|].
  pose proof Hd as Hd'. simpl in Hd'. apply andb_true_iff in Hd' as [Ha _].
  destruct a as [[] [] [] [] [] [] [] []]; try discriminate Ha;
    now rewrite Hb.
Qed.

(** [int(str(n))] is [n], as long as [str(n)] is within the limit. *)
Lemma int_of_nat (n : nat) :
  (String.length (PyStr.of_nat n) <= PyStr.INT_MAX_STR_DIGITS)%nat ->
  PyStr.int (PyStr.of_nat n) = Some (Z.of_nat n).
Proof.
  intros Hlen. destruct (of_nat_digits n) as [Hd Hne].
  rewrite (int_digits_run _ Hd Hne Hlen). now rewrite digits_val_of_nat.
Qed.

(** X9.  Whatever the elements - none, empty ones, fields of any name -
    the mapping [build_array_tokens] returns holds the count token
    [<prefix>_COUNT]; its value is the number of elements given, written
    in decimal, and [int()] reads that number back from it, as long as
    the decimal is within the 4300 digits [int()] converts. *)
Theorem build_array_tokens_count_is_length (items : list tokens)
  (pre : string) :
  exists c, get (build_array_tokens items pre) (pre ++ "_COUNT") = Some c
            /\ c = PyStr.of_nat (List.length items)
            /\ PyStr.digits_val c = List.length items
            /\ ((String.length c <= PyStr.INT_MAX_STR_DIGITS)%nat ->
                PyStr.int c = Some (Z.of_nat (List.length items))).
Proof.
  exists (PyStr.of_nat (List.length items)). split; [|split; [|split]].
  - unfold get, build_array_tokens. now rewrite lookup_dict_set_eq.
  - reflexivity.
  - apply digits_val_of_nat.
  - apply int_of_nat.
Qed.

(* ------------------------------------------------------------------ *)
(** ** The order of the decoded elements *)
(* ------------------------------------------------------------------ *)

Lemma insert_sorted_nat_perm (k : nat) (l : list nat) :
  Permutation (k :: l) (insert_sorted_nat k l).
Proof.
  induction l as [|x l IH]; simpl; [reflexivity|].
  destruct (Nat.leb k x); [reflexivity|].
  rewrite perm_swap. now constructor.
Qed.

Lemma sorted_nat_perm (l : list nat) : Permutation l (sorted_nat l).
Proof.
  induction l as [|x l IH]; simpl; [constructor|].
  rewrite <- insert_sorted_nat_perm. now constructor.
Qed.

Lemma insert_sorted_nat_sorted (k : nat) (l : list nat) :
  StronglySorted le l -> StronglySorted le (insert_sorted_nat k l).
Proof.
  induction l as [|x l IH]; simpl; intros H.
  - repeat constructor.
  - apply StronglySorted_inv in H as [Hl Hx].
    destruct (Nat.leb_spec k x) as [L|G].
    + constructor; [now constructor|].
      constructor; [exact L|].
      eapply Forall_impl; [|exact Hx]. intros y Hy. lia.
    + constructor; [now apply IH|].
      rewrite <- insert_sorted_nat_perm. constructor; [lia | exact Hx].
Qed.

Lemma sorted_nat_sorted (l : list nat) : StronglySorted le (sorted_nat l).
Proof.
  induction l as [|x l IH]; simpl; [constructor|].
  now apply insert_sorted_nat_sorted.
Qed.

Lemma strongly_sorted_nat_strict (l : list nat) :
  NoDup l -> StronglySorted le l -> StronglySorted lt l.
Proof.
  induction l as [|x l IH]; intros Hn Hs; [constructor|].
  apply StronglySorted_inv in Hs as [Hl Hx].
  inversion Hn as [|? ? Hnot Hn']; subst.
  constructor; [now apply IH|].
  rewrite Forall_forall in Hx |- *. intros y Hy.
  assert (x <> y) by (intros ->; now apply Hnot).
  specialize (Hx y Hy). lia.
Qed.

Lemma parse_array_entry_index (pre : string) (b : buckets)
  (e : string * pyval) :
  parse_array_entry pre b e
  = match token_index pre e with
    | Some (j, key) => bucket_put j key (snd e) b
    | None => b
    end.
Proof.
  unfold parse_array_entry, token_index.
  destruct (array_key_match (fst e)) as [[[p idx] key]|]; [|reflexivity].
  now destruct (String.eqb p pre).
Qed.

Lemma bucket_get_put (i j : nat) (key : string) (v : pyval) (b : buckets) :
  bucket_get i (bucket_put j key v b)
  = if Nat.eqb j i
    then Some (dict_set key v (match bucket_get j b with
                               | Some item => item
                               | None => []
                               end))
    else bucket_get i b.
Proof.
  induction b as [|[k it] b IH]; cbn [bucket_put bucket_get].
  - now destruct (Nat.eqb j i).
  - destruct (Nat.eqb_spec k j) as [->|N]; cbn [bucket_get].
    + now destruct (Nat.eqb j i).
    + rewrite IH. destruct (Nat.eqb_spec k i) as [->|N'].
      * destruct (Nat.eqb_spec j i) as [->|_]; [now destruct N | reflexivity].
      * reflexivity.
Qed.

Lemma bucket_put_keys (i j : nat) (key : string) (v : pyval) (b : buckets) :
  In i (map fst (bucket_put j key v b)) <-> i = j \/ In i (map fst b).
Proof.
  induction b as [|[k it] b IH]; cbn [bucket_put map fst In].
  - intuition.
  - destruct (Nat.eqb_spec k j) as [->|N]; cbn [map fst In].
    + intuition.
    + rewrite IH. intuition.
Qed.

Lemma bucket_put_nodup (j : nat) (key : string) (v : pyval) (b : buckets) :
  NoDup (map fst b) -> NoDup (map fst (bucket_put j key v b)).
Proof.
  induction b as [|[k it] b IH]; cbn [bucket_put map fst]; intros H.
  - repeat constructor. intros [].
  - inversion H as [|? ? Hn Hb]; subst.
    destruct (Nat.eqb_spec k j) as [->|N]; cbn [map fst].
    + now constructor.
    + constructor; [|now apply IH].
      intros I. apply bucket_put_keys in I as [->|I]; [now destruct N|].
      now apply Hn.
Qed.

Lemma bucket_get_none (i : nat) (b : buckets) :
  bucket_get i b = None <-> ~ In i (map fst b).
Proof.
  induction b as [|[k it] b IH]; cbn [bucket_get map fst In].
  - intuition.
  - destruct (Nat.eqb_spec k i) as [->|N].
    + split; [discriminate | intros H; destruct H; now left].
    + rewrite IH. intuition.
Qed.

(** The bucket of index [i] after the loop of [parse_array_tokens]. *)
Lemma fold_bucket_get (pre : string) (i : nat) (toks : tokens) (b : buckets) :
  bucket_get i (fold_left (parse_array_entry pre) toks b)
  = if match bucket_get i b with Some _ => true | None => false end
       || existsb (fun e => match token_index pre e with
                            | Some (j, _) => Nat.eqb j i
                            | None => false
                            end) toks
    then Some (fold_left (fun item e =>
                            match token_index pre e with
                            | Some (j, key) =>
                                if Nat.eqb j i then dict_set key (snd e) item
                                else item
                            | None => item
                            end)
                         toks
                         (match bucket_get i b with
                          | Some item => item
                          | None => []
                          end))
    else None.
Proof.
  revert b. induction toks as [|e toks IH]; intros b; cbn [fold_left existsb].
  - now destruct (bucket_get i b).
  - rewrite IH, parse_array_entry_index.
    destruct (token_index pre e) as [[j key]|]; [|reflexivity].
    rewrite bucket_get_put.
    destruct (Nat.eqb_spec j i) as [->|N]; [|reflexivity].
    cbn [orb]. now rewrite orb_true_r.
Qed.

Lemma fold_bucket_keys (pre : string) (i : nat) (toks : tokens) (b : buckets) :
  In i (map fst (fold_left (parse_array_entry pre) toks b))
  <-> In i (map fst b)
      \/ exists e key, In e toks /\ token_index pre e = Some (i, key).
Proof.
  revert b. induction toks as [|e toks IH]; intros b; cbn [fold_left].
  - split; [now left | intros [I|(e & key & [] & _)]; exact I].
  - rewrite IH, parse_array_entry_index. split.
    + intros [I|(e' & key & I & E)].
      * destruct (token_index pre e) as [[j key]|] eqn:Ee; [|now left].
        apply bucket_put_keys in I as [->|I]; [|now left].
        right. exists e, key. split; [now left | exact Ee].
      * right. exists e', key. split; [now right | exact E].
    + intros [I|(e' & key & [<-|I] & E)].
      * left. destruct (token_index pre e) as [[j key]|]; [|exact I].
        apply bucket_put_keys. now right.
      * left. rewrite E. apply bucket_put_keys. now left.
      * right. now exists e', key.
Qed.

Lemma fold_bucket_nodup (pre : string) (toks : tokens) (b : buckets) :
  NoDup (map fst b) ->
  NoDup (map fst (fold_left (parse_array_entry pre) toks b)).
Proof.
  revert b. induction toks as [|e toks IH]; intros b H; cbn [fold_left].
  - exact H.
  - apply IH. rewrite parse_array_entry_index.
    destruct (token_index pre e) as [[j key]|]; [|exact H].
    now apply bucket_put_nodup.
Qed.

(** X8.  [parse_array_tokens] orders the elements by index, whatever
    the order of the tokens.  For any tokens - the tokens of an element
    together or apart, the indices in any order, with gaps, with leading
    zeros, other tokens in between - whose array indices have no more
    digits than [int()] converts, [int()] reads every index, and the
    decoder returns one element for each index that occurs, in ascending
    order of the indices: the gaps are closed and the position in the
    result is the rank of the index, not the index.  Each element holds
    the fields of the tokens that name its index, in the order of the
    tokens. *)
Theorem parse_array_tokens_orders_by_index (toks : tokens) (pre : string) :
  forallb (index_convertible pre) toks = true ->
  (forall e idx key,
      In e toks -> array_key_match (fst e) = Some (pre, idx, key) ->
      PyStr.int idx = Some (Z.of_nat (PyStr.digits_val idx)))
  /\ exists idxs,
       StronglySorted lt idxs
       /\ (forall i, In i idxs <->
                     exists e key, In e toks
                                   /\ token_index pre e = Some (i, key))
       /\ parse_array_tokens toks pre
          = map (fun i => element_at pre i toks) idxs.
Proof.
  intros Hconv. split.
  - intros e idx key I M. rewrite forallb_forall in Hconv.
    specialize (Hconv e I). unfold index_convertible in Hconv.
    rewrite M, String.eqb_refl in Hconv. cbn [negb orb] in Hconv.
    apply Nat.leb_le in Hconv.
    destruct (array_key_match_groups _ _ _ _ M) as (_ & Hd & _).
    apply int_digits_run; [exact Hd | | exact Hconv].
    unfold array_key_match in M.
    destruct (span is_prefix_char (fst e)) as [m r1].
    destruct (PyStr.falsy m); [discriminate M|].
    destruct r1 as [|c1 r2]; [discriminate M|].
    destruct c1 as [[] [] [] [] [] [] [] []]; try discriminate M.
    destruct (span PyStr.isdigit r2) as [i0 r3].
    destruct (PyStr.falsy i0) eqn:F; [discriminate M|].
    destruct r3 as [|c2 r3]; [discriminate M|].
    destruct c2 as [[] [] [] [] [] [] [] []]; try discriminate M.
    destruct r3 as [|c3 r4]; [discriminate M|].
    destruct c3 as [[] [] [] [] [] [] [] []]; try discriminate M.
    destruct (span is_key_char r4) as [g r5].
    destruct (PyStr.falsy g); [discriminate M|].
    destruct (String.eqb r5 "" || String.eqb r5 (String LF ""));
      [|discriminate M].
    injection M as _ <- _. exact F.
  - clear Hconv. unfold parse_array_tokens. cbv zeta.
    set (b := fold_left (parse_array_entry pre) toks []).
    assert (Hn : NoDup (map fst b))
      by (apply fold_bucket_nodup; constructor).
    assert (Hk : forall i, In i (map fst b) <->
                           exists e key, In e toks
                                         /\ token_index pre e = Some (i, key)).
    { intros i. unfold b. rewrite fold_bucket_keys. cbn [map In]. tauto. }
    exists (sorted_nat (map fst b)). split; [|split].
    + apply strongly_sorted_nat_strict; [|apply sorted_nat_sorted].
      eapply Permutation_NoDup; [apply sorted_nat_perm | exact Hn].
    + intros i. rewrite <- Hk. split; intros I.
      * now apply (Permutation_in _ (Permutation_sym (sorted_nat_perm _))).
      * now apply (Permutation_in _ (sorted_nat_perm _)).
    + assert (Hin : forall i, In i (sorted_nat (map fst b)) ->
                              bucket_get i b = Some (element_at pre i toks)).
      { intros i I.
        apply (Permutation_in _ (Permutation_sym (sorted_nat_perm _))) in I.
        pose proof (fold_bucket_get pre i toks []) as G. fold b in G.
        cbn [bucket_get orb] in G. fold (element_at pre i toks) in G.
        destruct (existsb _ toks); [exact G|].
        apply bucket_get_none in G. now destruct G. }
      induction (sorted_nat (map fst b)) as [|i rest IH]; [reflexivity|].
      cbn [flat_map map]. rewrite (Hin i (or_introl eq_refl)).
      cbn [app]. f_equal. apply IH. intros j I. apply Hin. now right.
Qed.

Lemma parse_array_tokens_orders_by_index_witness :
  forallb (index_convertible "CMD") shuffled_demo = true
  /\ parse_array_tokens shuffled_demo "CMD"
     = [ [("CMD1", Some "c-a"); ("CMD3", Some "now")];
         [("CMD1", Some "c-b"); ("CMD2", Some "RESTART")] ]
  /\ (forall e idx key,
         In e shuffled_demo ->
         array_key_match (fst e) = Some ("CMD", idx, key) ->
         PyStr.int idx = Some (Z.of_nat (PyStr.digits_val idx)))
  /\ exists idxs,
       StronglySorted lt idxs
       /\ (forall i, In i idxs <->
                     exists e key, In e shuffled_demo
                                   /\ token_index "CMD" e = Some (i, key))
       /\ parse_array_tokens shuffled_demo "CMD"
          = map (fun i => element_at "CMD" i shuffled_demo) idxs.
Proof.
  split; [reflexivity|]. split; [reflexivity|].
  apply (parse_array_tokens_orders_by_index shuffled_demo "CMD").
  reflexivity.
Defined.

(* ================================================================== *)
(** * Further properties of the client *)
(* ================================================================== *)

(* ------------------------------------------------------------------ *)
(** ** The nonce table ([add_nonce], [nonce_used]) *)
(* ------------------------------------------------------------------ *)






(** Take a membership in a list written out apart. *)
Ltac in_cases I :=
  repeat match type of I with
         | _ \/ _ => destruct I as [I|I]
         | False => destruct I
         end.

Section ClientMore.
Variable cfg : Config.
Variable lib : Nacl.
Variable w : World.


(* ------------------------------------------------------------------ *)
(** ** Registration *)
(* ------------------------------------------------------------------ *)

(** Every run of [register]. *)
Lemma register_run (s : State) :
  let r := fst (register cfg lib w s) in
  let s' := snd (register cfg lib w s) in
  exists ts nonce a evs,
    let payload := signed_payload lib (register_tokens cfg lib ts nonce) in
    trace s' = trace s ++ [EvTs ts; EvNonce nonce;
                           EvAudit "register" "out" payload a] ++ evs
    /\ (forall status text,
          In (EvPost "/api/devices/register" payload (Ok (status, text))) evs ->
          In (EvAudit "register" "in" text (Ok tt)) evs ->
          let resp := parse_tokens text in
          (accepted resp = false ->
             r = Raise (mk_exc RuntimeError ("Registration failed: " ++ text))
             /\ rto_sec s' = rto_sec s)
          /\ (accepted resp = true -> mem "RTO" resp = false ->
                r = Ok tt /\ rto_sec s' = rto_sec s)
          /\ (forall d, accepted resp = true -> mem "RTO" resp = true ->
                int_of_val (get resp "RTO") = Ok d ->
                r = Ok tt /\ rto_sec s' = Z.max 10 d)
          /\ (forall x, accepted resp = true -> mem "RTO" resp = true ->
                int_of_val (get resp "RTO") = Raise x ->
                r = Raise x /\ rto_sec s' = rto_sec s))
    /\ (r = Ok tt ->
        exists status text,
          evs = [EvPost "/api/devices/register" payload (Ok (status, text));
                 EvAudit "register" "in" text (Ok tt)]
          /\ accepted (parse_tokens text) = true)
    /\ (rto_sec s' <> rto_sec s -> r = Ok tt)
    /\ register_exchange payload evs.
Proof.
  destruct (register cfg lib w s) as [r s'] eqn:H. cbn [fst snd].
  unfold register, _ts, _nonce, audit, post in H.
  run_ask H ts. run_ask H nonce. exists ts, nonce.
  fold (register_tokens cfg lib ts nonce) in H.
  run_ask_r H u0 x0.
  2:{ state_simpl. exists (Raise x0), []. cbv zeta.
      split; [trace_norm; reflexivity|]. split; [intros ? ? []|].
      split; [intros [=]|]. split; [intros N; now destruct N|].
      now left. }
  destruct u0. exists (Ok tt).
  run_ask_r H p x1.
  2:{ state_simpl. eexists. cbv zeta.
      split; [trace_norm; reflexivity|]. split.
      - intros ? ? I. cbn [In] in I. in_cases I. discriminate I.
      - split; [intros [=]|].
        split; [intros N; now destruct N|].
        first [ left; reflexivity | right; left; eexists; reflexivity
              | right; right; eexists _, _, _; reflexivity ]. }
  destruct p as [status text]. run_pure H. cbn [fst snd] in H.
  run_ask_r H u1 x2.
  2:{ state_simpl. eexists. cbv zeta.
      split; [trace_norm; reflexivity|]. split.
      - intros ? ? _ I. cbn [In] in I. in_cases I; discriminate I.
      - split; [intros [=]|].
        split; [intros N; now destruct N|].
        first [ left; reflexivity | right; left; eexists; reflexivity
              | right; right; eexists _, _, _; reflexivity ]. }
  destruct u1.
  fold (accepted (parse_tokens text)) in H.
  exists [EvPost "/api/devices/register"
            (signed_payload lib (register_tokens cfg lib ts nonce))
            (Ok (status, text));
          EvAudit "register" "in" text (Ok tt)].
  cbv zeta.
  destruct (accepted (parse_tokens text)) eqn:Ea; cbn [negb] in H;
    [destruct (mem "RTO" (parse_tokens text)) eqn:Em;
     [rewrite lift_bind in H;
      destruct (int_of_val (get (parse_tokens text) "RTO")) as [d|x] eqn:Ei|]|];
    unfold modify, ret, raise in H; injection H as <- <-; state_simpl;
    (split; [trace_norm; reflexivity|]);
    (split; [intros st tx I _; cbn [In] in I; in_cases I; try discriminate I;
             injection I as _ <-; rewrite ?Ea, ?Em, ?Ei;
             repeat split; intros; congruence|]);
    (split; [first [ intros E; discriminate E
                   | intros _; exists status, text;
                     split; [reflexivity | assumption] ]|]);
    (split; [first [ intros _; reflexivity | intros N; now destruct N ]
            | right; right; eexists _, _, _; reflexivity]).
Qed.


(* ------------------------------------------------------------------ *)
(** ** The heartbeat *)
(* ------------------------------------------------------------------ *)



(** Every run of [heartbeat_once], written out: the calls in order, and
    what each outcome leaves behind. *)
Lemma heartbeat_once_shape (s : State) (r : result tokens) (s' : State) :
  heartbeat_once cfg lib w s = (r, s') ->
  exists now tm ts nonce a0 rest,
    let payload :=
      signed_payload lib (heartbeat_tokens cfg now tm (current_fw s) ts nonce) in
    trace s' = trace s ++ [EvClock now; EvTelemetry tm; EvTs ts; EvNonce nonce;
                           EvAddNonce nonce a0] ++ rest
    /\ current_fw s' = current_fw s
    /\ ((exists x, a0 = Raise x /\ rest = [] /\ r = Raise x
                   /\ ledger s' = ledger s /\ rto_sec s' = rto_sec s)
        \/ (a0 = Ok tt
            /\ (exists stamp, ledger s' = ledger_insert nonce stamp (ledger s))
            /\ heartbeat_exchange cfg payload s r s' rest)).
Proof.
  intros H.
  unfold heartbeat_once, time_time, telemetry, _ts, _nonce, add_nonce, audit,
    post in H.
  run_ask H now. run_ask H tm. run_pure H. run_ask H ts. run_ask H nonce.
  cbn [heartbeat_tokens get lookup String.eqb Ascii.eqb Bool.eqb fstr] in H.
  exists now, tm, ts, nonce.
  run_ask_r H u0 x0.
  2:{ exists (Raise x0), []. cbv zeta. state_simpl.
      split; [trace_norm; reflexivity|]. split; [reflexivity|].
      left. exists x0. repeat split. }
  destruct u0. exists (Ok tt).
  run_ask_r H u1 x1.
  2:{ eexists. cbv zeta. state_simpl.
      split; [trace_norm; reflexivity|]. split; [reflexivity|].
      right. split; [reflexivity|]. split; [eexists; reflexivity|].
      left. exists x1. repeat split. }
  destruct u1.
  run_ask_r H pr x2.
  2:{ eexists. cbv zeta. state_simpl.
      split; [trace_norm; reflexivity|]. split; [reflexivity|].
      right. split; [reflexivity|]. split; [eexists; reflexivity|].
      right. left. exists x2. repeat split. }
  destruct pr as [status text]. run_pure H. cbn [fst snd] in H.
  run_ask_r H u2 x3.
  2:{ eexists. cbv zeta. state_simpl.
      split; [trace_norm; reflexivity|]. split; [reflexivity|].
      right. split; [reflexivity|]. split; [eexists; reflexivity|].
      right. right. left. exists status, text, x3. repeat split. }
  destruct u2.
  destruct (truthy (get (parse_tokens text) "RTO")) eqn:Et.
  - run_lift H d x4 Ed.
    + run_done H. eexists. cbv zeta. state_simpl.
      split; [trace_norm; reflexivity|]. split; [reflexivity|].
      right. split; [reflexivity|]. split; [eexists; reflexivity|].
      right. right. right. exists status, text.
      split; [reflexivity|]. right. right. split; [exact Et|]. now exists d.
    + eexists. cbv zeta. state_simpl.
      split; [trace_norm; reflexivity|]. split; [reflexivity|].
      right. split; [reflexivity|]. split; [eexists; reflexivity|].
      right. right. right. exists status, text.
      split; [reflexivity|]. right. left. split; [exact Et|]. now exists x4.
  - run_done H. eexists. cbv zeta. state_simpl.
    split; [trace_norm; reflexivity|]. split; [reflexivity|].
    right. split; [reflexivity|]. split; [eexists; reflexivity|].
    right. right. right. exists status, text.
    split; [reflexivity|]. left. repeat split. exact Et.
Qed.


(** X13.  Once the reply to a heartbeat was received and audited, its
    RTO field decides the result and the interval: absent or empty, the
    reply is returned and the interval kept; an integer, the reply is
    returned and the interval becomes that integer raised to at least
    10 and cut at MAX_BACKOFF_SECONDS; anything else, [heartbeat_once]
    raises ValueError and the interval is kept.  In no run does the
    tracked firmware version change. *)
Theorem heartbeat_directive_outcome (s : State) :
  let r := fst (heartbeat_once cfg lib w s) in
  let s' := snd (heartbeat_once cfg lib w s) in
  exists evs,
    trace s' = trace s ++ evs
    /\ current_fw s' = current_fw s
    /\ forall payload status text,
         In (EvPost "/api/devices/heartbeat" payload (Ok (status, text))) evs ->
         In (EvAudit "heartbeat" "in" text (Ok tt)) evs ->
         directive_outcome cfg (parse_tokens text) s r s'
         /\ (forall x, r = Raise x -> exc_cls x = ValueError).
Proof.
  destruct (heartbeat_once cfg lib w s) as [r s'] eqn:H. cbn [fst snd].
  apply heartbeat_once_shape in H.
  destruct H as (now & tm & ts & nonce & a0 & rest & Htr & Hfw & Hcases).
  cbv zeta in Htr, Hcases. eexists. split; [exact Htr|]. split; [exact Hfw|].
  intros payload status text I1 I2.
  destruct Hcases as [(x & -> & -> & _)|(-> & _ & Hex)].
  { cbn [In app] in I1. in_cases I1; discriminate I1. }
  destruct Hex as [(x & -> & _)|[(x & -> & _)|[(st & tx & x & -> & _)
                                              |(st & tx & -> & Hd)]]].
  - cbn [In app] in I1. in_cases I1; discriminate I1.
  - cbn [In app] in I1. in_cases I1; discriminate I1.
  - cbn [In app] in I2. in_cases I2; discriminate I2.
  - cbn [In app] in I1. in_cases I1; try discriminate I1.
    injection I1 as _ _ <-. split; [exact Hd|].
    intros x ->. destruct Hd as [(_ & E & _)|[(Et & y & Ei & E & _)
                                             |(_ & d & _ & E & _)]];
      try discriminate E.
    injection E as <-. unfold int_of_val in Ei.
    destruct (get (parse_tokens tx) "RTO") as [v|]; [|discriminate Et].
    destruct (PyStr.int v); [discriminate Ei|]. now injection Ei as <-.
Qed.

(* ------------------------------------------------------------------ *)
(** ** The run loop *)
(* ------------------------------------------------------------------ *)

Lemma sleeps_none (evs : list event) :
  existsb is_sleep evs = false -> sleeps evs = [].
Proof.
  induction evs as [|e evs IH]; [reflexivity|]. simpl. intros H.
  apply orb_false_iff in H as [He Hevs]. unfold sleeps in *. simpl.
  rewrite (IH Hevs). now destruct e.
Qed.

Lemma sleeps_app (a b : list event) : sleeps (a ++ b) = sleeps a ++ sleeps b.
Proof. apply flat_map_app. Qed.

(** The [try] block of the loop never sleeps. *)
Lemma loop_try_no_sleep : preserves no_field is_sleep (loop_try cfg lib w).
Proof.
  unfold loop_try, heartbeat_once, commands_poll, firmware_check,
    firmware_apply_flow, firmware_ack, _download_to, _apply_staged,
    file_sha256_hex, add_nonce, audit, post, http_get, _ts, _nonce,
    time_time, telemetry.
  preserves_tac.
  unfold _handle_command, command_ack, audit, post, _ts, _nonce, time_time.
  preserves_tac.
Qed.

(** What a turn can do to the interval: nothing, or set it to a
    directive raised to at least 10 and cut at the ceiling. *)
Lemma loop_try_rto (s : State) (r : result unit) (s' : State) :
  loop_try cfg lib w s = (r, s') ->
  rto_sec s' = rto_sec s
  \/ exists d, rto_sec s' = Z.min (MAX_BACKOFF_SECONDS cfg) (Z.max 10 d).
Proof.
  intros H.
  destruct (heartbeat_once cfg lib w s) as [rh s1] eqn:Hhb.
  assert (Hrto : rto_sec s1 = rto_sec s
                 \/ exists d, rto_sec s1
                              = Z.min (MAX_BACKOFF_SECONDS cfg) (Z.max 10 d)).
  { apply heartbeat_once_shape in Hhb.
    destruct Hhb as (now & tm & ts & nonce & a0 & rest & _ & _ & Hc).
    cbv zeta in Hc.
    destruct Hc as [(x & _ & _ & _ & _ & E)|(_ & _ & Hex)]; [now left|].
    destruct Hex as [(x & _ & _ & E)|[(x & _ & _ & E)|[(st & tx & x & _ & _ & E)
                                                     |(st & tx & _ & Hd)]]];
      try (now left).
    destruct Hd as [(_ & _ & E)|[(_ & y & _ & _ & E)|(_ & d & _ & _ & E)]];
      [now left | now left | right; now exists d]. }
  destruct rh as [resp|x].
  - rewrite (loop_try_after_heartbeat cfg lib w s resp s1 s' r Hhb H).
    exact Hrto.
  - unfold loop_try in H. unfold bind at 1 in H. rewrite Hhb in H.
    injection H as _ <-. exact Hrto.
Qed.

Lemma failure_backoff_bounds (backoff : Z) :
  (failure_backoff cfg backoff <= MAX_BACKOFF_SECONDS cfg)%Z
  /\ (Z.min 10 (MAX_BACKOFF_SECONDS cfg) <= failure_backoff cfg backoff)%Z.
Proof. unfold failure_backoff. lia. Qed.

(** X14.  One turn of the loop of [run_forever].  When the [try] block
    went through, the turn sleeps the interval in force and goes on with
    it.  When the [try] block raised, the error is audited as
    "<class>:<message>"; if that audit call succeeds the turn sleeps
    min(MAX_BACKOFF_SECONDS, max(10, 2 * backoff)) and goes on with that
    interval, and if it raises, its exception leaves the loop without any
    sleep.  The sleep itself is outside the [try]: for an interval out
    of the range of floats it raises OverflowError, no sleep takes place,
    and the exception leaves the loop.  A turn raises in no other way
    than these two; with a ceiling and an interval in force within the
    range of floats, only the error audit can make it raise.  A failed
    turn does not touch the interval the server set. *)
Theorem loop_turn_absorbs_failure (backoff : Z) (s : State) :
  let r1 := fst (loop_try cfg lib w s) in
  let s1 := snd (loop_try cfg lib w s) in
  let r := fst (loop_iteration cfg lib w backoff s) in
  let s' := snd (loop_iteration cfg lib w backoff s) in
  let b := failure_backoff cfg backoff in
  let slept (z : Z) : list event :=
    if (z <? FLOAT_OVERFLOW)%Z then [EvSleep z] else [] in
  let after_sleep (z : Z) : result Z :=
    if (z <? FLOAT_OVERFLOW)%Z then Ok z else Raise sleep_overflow in
  (r1 = Ok tt ->
     trace s' = trace s1 ++ slept (rto_sec s1)
     /\ r = after_sleep (rto_sec s1)
     /\ rto_sec s' = rto_sec s1)
  /\ (forall x, r1 = Raise x ->
        exists a,
          trace s' = trace s1
                     ++ EvAudit "error" "in" (exc_name x ++ ":" ++ exc_msg x) a
                        :: match a with Ok _ => slept b | Raise _ => [] end
          /\ r = match a with Ok _ => after_sleep b | Raise y => Raise y end
          /\ rto_sec s' = rto_sec s1)
  /\ (forall y, r = Raise y ->
        (exists x, r1 = Raise x
                   /\ trace s' = trace s1
                                 ++ [EvAudit "error" "in"
                                       (exc_name x ++ ":" ++ exc_msg x)
                                       (Raise y)])
        \/ (y = sleep_overflow
            /\ sleeps (trace s') = sleeps (trace s1)
            /\ ((r1 = Ok tt /\ FLOAT_OVERFLOW <= rto_sec s1)
                \/ ((exists x, r1 = Raise x) /\ FLOAT_OVERFLOW <= b))%Z))
  /\ ((MAX_BACKOFF_SECONDS cfg < FLOAT_OVERFLOW)%Z ->
      (rto_sec s1 < FLOAT_OVERFLOW)%Z ->
      forall y, r = Raise y ->
        exists x, r1 = Raise x
                  /\ trace s' = trace s1
                                ++ [EvAudit "error" "in"
                                      (exc_name x ++ ":" ++ exc_msg x)
                                      (Raise y)])
  /\ (b <= MAX_BACKOFF_SECONDS cfg)%Z
  /\ (10 <= MAX_BACKOFF_SECONDS cfg -> 10 <= b)%Z
  /\ (5 <= backoff -> backoff * 2 <= MAX_BACKOFF_SECONDS cfg ->
      b = backoff * 2)%Z.
Proof.
  cbv zeta. unfold loop_iteration.
  fold (failure_backoff cfg backoff).
  pose proof (failure_backoff_bounds backoff) as Hb.
  assert (Hlast : ((failure_backoff cfg backoff <= MAX_BACKOFF_SECONDS cfg)
                   /\ (10 <= MAX_BACKOFF_SECONDS cfg
                       -> 10 <= failure_backoff cfg backoff)
                   /\ (5 <= backoff -> backoff * 2 <= MAX_BACKOFF_SECONDS cfg
                       -> failure_backoff cfg backoff = backoff * 2))%Z)
    by (unfold failure_backoff; lia).
  generalize dependent (failure_backoff cfg backoff). intros b Hb Hlast.
  destruct (loop_try cfg lib w s) as [[[]|x] s1]; cbn [fst snd].
  - rewrite gets_bind. unfold sleep.
    destruct (rto_sec s1 <? FLOAT_OVERFLOW)%Z eqn:E;
      unfold bind, ret, raise; cbn [fst snd trace rto_sec log].
    + apply Z.ltb_lt in E.
      split; [intros _; repeat split|]. split; [intros x [=]|].
      split; [intros y [=]|]. split; [intros _ _ y [=] | exact Hlast].
    + apply Z.ltb_ge in E.
      split; [intros _; rewrite app_nil_r; repeat split|].
      split; [intros x [=]|].
      split; [|split; [intros _ L; lia | exact Hlast]].
      intros y [= <-]. right. split; [reflexivity|]. split; [reflexivity|].
      left. split; [reflexivity | exact E].
  - unfold audit. rewrite ask_r_bind.
    destruct (w_audit w (trace s1) "error" "in" (exc_name x ++ ":" ++ exc_msg x))
      as [[]|y]; [unfold sleep; destruct (b <? FLOAT_OVERFLOW)%Z eqn:E|];
      unfold bind, ret, raise; cbn [fst snd trace rto_sec log].
    + split; [intros [=]|]. split.
      { intros x' [= <-]. exists (Ok tt). rewrite <- app_assoc. repeat split. }
      split; [intros y [=]|]. split; [intros _ _ y [=] | exact Hlast].
    + apply Z.ltb_ge in E. split; [intros [=]|]. split.
      { intros x' [= <-]. exists (Ok tt). repeat split. }
      split; [|split; [intros L _; lia | exact Hlast]].
      intros y [= <-]. right. split; [reflexivity|]. split.
      { rewrite sleeps_app. cbn. now rewrite app_nil_r. }
      right. split; [now exists x | exact E].
    + split; [intros [=]|]. split.
      { intros x' [= <-]. exists (Raise y). repeat split. }
      split; [|split; [|exact Hlast]].
      * intros y' [= <-]. left. now exists x.
      * intros _ _ y' [= <-]. now exists x.
Qed.

Lemma loop_iteration_bounds (lo hi backoff : Z) (s : State) :
  (lo <= Z.min 10 (MAX_BACKOFF_SECONDS cfg))%Z ->
  (MAX_BACKOFF_SECONDS cfg <= hi)%Z ->
  (lo <= rto_sec s <= hi)%Z ->
  exists evs,
    trace (snd (loop_iteration cfg lib w backoff s)) = trace s ++ evs
    /\ Forall (fun z => lo <= z <= hi)%Z (sleeps evs)
    /\ (lo <= rto_sec (snd (loop_iteration cfg lib w backoff s)) <= hi)%Z.
Proof.
  intros Hlo Hhi Hs. unfold loop_iteration.
  destruct (loop_try cfg lib w s) as [r1 s1] eqn:Ht.
  pose proof (loop_try_rto s r1 s1 Ht) as Hrto.
  destruct (loop_try_no_sleep s) as [_ (evs1 & Htr & Hns)].
  rewrite Ht in Htr. cbn [snd] in Htr.
  assert (Hs1 : (lo <= rto_sec s1 <= hi)%Z).
  { destruct Hrto as [->|[d ->]]; lia. }
  pose proof (failure_backoff_bounds backoff) as Hb.
  destruct r1 as [[]|x].
  - rewrite gets_bind. unfold sleep.
    destruct (rto_sec s1 <? FLOAT_OVERFLOW)%Z;
      unfold bind, ret, raise; cbn [fst snd trace rto_sec log].
    + exists (evs1 ++ [EvSleep (rto_sec s1)]).
      split; [now rewrite Htr, app_assoc|]. split; [|exact Hs1].
      rewrite sleeps_app, (sleeps_none _ Hns). repeat constructor; lia.
    + exists evs1. split; [exact Htr|]. split; [|exact Hs1].
      rewrite (sleeps_none _ Hns). constructor.
  - unfold audit. rewrite ask_r_bind.
    fold (failure_backoff cfg backoff).
    destruct (w_audit w (trace s1) "error" "in" (exc_name x ++ ":" ++ exc_msg x))
      as [[]|y];
      [unfold sleep; destruct (failure_backoff cfg backoff <? FLOAT_OVERFLOW)%Z|];
      unfold bind, ret, raise; cbn [fst snd trace rto_sec log].
    + eexists (evs1 ++ [_; EvSleep (failure_backoff cfg backoff)]).
      split; [rewrite Htr; now rewrite <- !app_assoc|]. split; [|exact Hs1].
      rewrite sleeps_app, (sleeps_none _ Hns). repeat constructor; lia.
    + eexists (evs1 ++ [_]).
      split; [rewrite Htr; now rewrite <- !app_assoc|]. split; [|exact Hs1].
      rewrite sleeps_app, (sleeps_none _ Hns). constructor.
    + eexists (evs1 ++ [_]).
      split; [rewrite Htr; now rewrite <- !app_assoc|]. split; [|exact Hs1].
      rewrite sleeps_app, (sleeps_none _ Hns). constructor.
Qed.

(** X15.  The intervals of the loop stay within bounds: if the interval
    in force lies between [lo] and [hi], where [lo] is at most 10 and at
    most MAX_BACKOFF_SECONDS and [hi] is at least MAX_BACKOFF_SECONDS,
    then through any number of turns - successful or failed, whatever
    the server sends - every interval slept lies between [lo] and [hi],
    and so does the interval in force afterwards.  With the ceiling at
    10 or more and a registered interval between 10 and the ceiling, the
    client never sleeps less than 10 seconds nor more than the
    ceiling. *)
Theorem run_loop_sleeps_within_bounds (n : nat) (backoff lo hi : Z)
  (s : State) :
  (lo <= Z.min 10 (MAX_BACKOFF_SECONDS cfg))%Z ->
  (MAX_BACKOFF_SECONDS cfg <= hi)%Z ->
  (lo <= rto_sec s <= hi)%Z ->
  exists evs,
    trace (snd (run_loop cfg lib w n backoff s)) = trace s ++ evs
    /\ Forall (fun z => lo <= z <= hi)%Z (sleeps evs)
    /\ (lo <= rto_sec (snd (run_loop cfg lib w n backoff s)) <= hi)%Z.
Proof.
  intros Hlo Hhi. revert backoff s.
  induction n as [|n IH]; intros backoff s Hs.
  - exists []. cbn. rewrite app_nil_r. repeat split; try lia. constructor.
  - cbn [run_loop]. unfold bind.
    destruct (loop_iteration_bounds lo hi backoff s Hlo Hhi Hs)
      as (evs1 & Htr1 & Hsl1 & Hs1).
    destruct (loop_iteration cfg lib w backoff s) as [[b|x] s1];
      cbn [fst snd] in *.
    + destruct (IH b s1 Hs1) as (evs2 & Htr2 & Hsl2 & Hs2).
      exists (evs1 ++ evs2). split; [now rewrite Htr2, Htr1, app_assoc|].
      split; [|exact Hs2]. rewrite sleeps_app. now apply Forall_app.
    + exists evs1. repeat split; assumption || lia.
Qed.

(** Stepping over a call that may raise, keeping what the world said. *)
Lemma ask_r_bind_answer {A B : Type} (q : list event -> result A)
  (ev : result A -> event) (k : A -> M B) s r s' :
  bind (ask_r q ev) k s = (r, s') ->
  (exists a, q (trace s) = Ok a /\ k a (log (ev (Ok a)) s) = (r, s'))
  \/ (exists e, q (trace s) = Raise e /\ r = Raise e
                /\ s' = log (ev (Raise e)) s).
Proof.
  rewrite ask_r_bind. destruct (q (trace s)) as [a|e].
  - left. now exists a.
  - intros [= <- <-]. right. now exists e.
Qed.

(** A heartbeat against a server that cannot be reached, with storage
    that works. *)
Lemma heartbeat_once_unreachable (s : State) (r : result tokens) (s1 : State) :
  (forall h nonce, w_add_nonce w h nonce = Ok tt) ->
  (forall h kind dir raw, w_audit w h kind dir raw = Ok tt) ->
  (forall h payload,
      exists x, w_post w h "/api/devices/heartbeat" payload = Raise x) ->
  heartbeat_once cfg lib w s = (r, s1) ->
  exists x, r = Raise x.
Proof.
  intros Hn Ha Hp H.
  unfold heartbeat_once, time_time, telemetry, _ts, _nonce, add_nonce, audit,
    post in H.
  run_ask H now. run_ask H tm. run_pure H. run_ask H ts. run_ask H nonce.
  run_pure H. apply ask_r_bind_answer in H.
  destruct H as [(u0 & _ & H)|(e & E & _)]; [|rewrite Hn in E; discriminate E].
  cbv beta iota zeta in H.
  run_pure H. apply ask_r_bind_answer in H.
  destruct H as [(u1 & _ & H)|(e & E & _)]; [|rewrite Ha in E; discriminate E].
  cbv beta iota zeta in H.
  run_pure H. apply ask_r_bind_answer in H.
  destruct H as [(pr & E & _)|(e & _ & -> & _)]; [|now exists e].
  match type of E with
  | w_post w ?h _ ?p = _ => destruct (Hp h p) as [x Hx]; rewrite Hx in E
  end.
  discriminate E.
Qed.

Lemma heartbeat_once_raise_keeps_rto (s : State) (x : exc) (s1 : State) :
  heartbeat_once cfg lib w s = (Raise x, s1) -> rto_sec s1 = rto_sec s.
Proof.
  intros H. apply heartbeat_once_shape in H.
  destruct H as (now & tm & ts & nonce & a0 & rest & _ & _ & Hc).
  cbv zeta in Hc.
  destruct Hc as [(y & _ & _ & _ & _ & E)|(_ & _ & Hex)]; [exact E|].
  destruct Hex as [(y & _ & _ & E)|[(y & _ & _ & E)|[(st & tx & y & _ & _ & E)
                                                   |(st & tx & _ & Hd)]]];
    try exact E.
  destruct Hd as [(_ & E & _)|[(_ & y & _ & _ & E)|(_ & d & _ & E & _)]];
    [discriminate E | exact E | discriminate E].
Qed.

(** A turn against a server that cannot be reached. *)
Lemma loop_iteration_unreachable (backoff : Z) (s : State) :
  (forall h nonce, w_add_nonce w h nonce = Ok tt) ->
  (forall h kind dir raw, w_audit w h kind dir raw = Ok tt) ->
  (forall h payload,
      exists x, w_post w h "/api/devices/heartbeat" payload = Raise x) ->
  (MAX_BACKOFF_SECONDS cfg < FLOAT_OVERFLOW)%Z ->
  exists s' evs,
    loop_iteration cfg lib w backoff s = (Ok (failure_backoff cfg backoff), s')
    /\ trace s' = trace s ++ evs
    /\ sleeps evs = [failure_backoff cfg backoff]
    /\ rto_sec s' = rto_sec s.
Proof.
  intros Hn Ha Hp Hfl. unfold loop_iteration.
  destruct (loop_try_no_sleep s) as [_ (evs1 & Htr & Hns)].
  destruct (loop_try cfg lib w s) as [r1 s1] eqn:Ht. cbn [snd] in Htr.
  unfold loop_try in Ht. unfold bind at 1 in Ht.
  destruct (heartbeat_once cfg lib w s) as [rh sh] eqn:Hhb.
  destruct (heartbeat_once_unreachable s rh sh Hn Ha Hp Hhb) as [x ->].
  injection Ht as <- <-.
  apply heartbeat_once_raise_keeps_rto in Hhb.
  fold (failure_backoff cfg backoff).
  assert (Hlt : (failure_backoff cfg backoff <? FLOAT_OVERFLOW)%Z = true).
  { apply Z.ltb_lt. pose proof (failure_backoff_bounds backoff). lia. }
  unfold audit. rewrite ask_r_bind, Ha. unfold sleep. rewrite Hlt.
  unfold bind, ret.
  eexists _, (evs1 ++ [_; EvSleep (failure_backoff cfg backoff)]).
  split; [reflexivity|]. cbn [trace rto_sec log].
  split; [rewrite Htr; now rewrite <- !app_assoc|]. split; [|exact Hhb].
  now rewrite sleeps_app, (sleeps_none _ Hns).
Qed.

Lemma failure_backoff_doubles (k : nat) (backoff : Z) :
  (5 <= backoff)%Z -> (10 <= MAX_BACKOFF_SECONDS cfg)%Z ->
  Z.min (MAX_BACKOFF_SECONDS cfg)
        (2 ^ Z.of_nat (S k) * failure_backoff cfg backoff)
  = Z.min (MAX_BACKOFF_SECONDS cfg) (2 ^ Z.of_nat (S (S k)) * backoff).
Proof.
  intros Hb Hm. unfold failure_backoff.
  rewrite (Nat2Z.inj_succ (S k)), Z.pow_succ_r by lia.
  assert (Hp : (1 <= 2 ^ Z.of_nat (S k))%Z)
    by (apply Z.lt_pred_le, Z.pow_pos_nonneg; lia).
  set (p := (2 ^ Z.of_nat (S k))%Z) in *.
  destruct (Z.le_gt_cases (backoff * 2) (MAX_BACKOFF_SECONDS cfg)) as [L|G].
  - rewrite (Z.max_r 10 (backoff * 2)) by lia.
    rewrite (Z.min_r _ (backoff * 2)) by lia. f_equal. lia.
  - rewrite (Z.max_r 10 (backoff * 2)) by lia.
    rewrite (Z.min_l _ (backoff * 2)) by lia.
    rewrite !Z.min_l; [reflexivity | nia | nia].
Qed.

(** X16.  Exponential backoff.  While the heartbeat endpoint cannot be
    reached (every request to it raises) and the local storage works,
    the loop never stops: each turn fails, is audited and sleeps, and
    the intervals slept are the starting interval doubled turn after
    turn and cut at MAX_BACKOFF_SECONDS - the k-th is
    min(MAX_BACKOFF_SECONDS, 2^k * backoff) - for a starting interval of
    at least 5 and a ceiling of at least 10 that [asyncio.sleep] can
    convert to a float.  The interval the server set last is kept for
    the next successful exchange. *)
Theorem unreachable_server_doubles_interval (n : nat) (backoff : Z)
  (s : State) :
  (forall h nonce, w_add_nonce w h nonce = Ok tt) ->
  (forall h kind dir raw, w_audit w h kind dir raw = Ok tt) ->
  (forall h payload,
      exists x, w_post w h "/api/devices/heartbeat" payload = Raise x) ->
  (5 <= backoff)%Z -> (10 <= MAX_BACKOFF_SECONDS cfg)%Z ->
  (MAX_BACKOFF_SECONDS cfg < FLOAT_OVERFLOW)%Z ->
  exists evs b,
    fst (run_loop cfg lib w n backoff s) = Ok b
    /\ trace (snd (run_loop cfg lib w n backoff s)) = trace s ++ evs
    /\ sleeps evs
       = map (fun k => Z.min (MAX_BACKOFF_SECONDS cfg)
                             (2 ^ Z.of_nat (S k) * backoff))%Z
             (seq 0 n)
    /\ rto_sec (snd (run_loop cfg lib w n backoff s)) = rto_sec s.
Proof.
  intros Hn Ha Hp Hb Hm Hfl. revert backoff s Hb.
  induction n as [|n IH]; intros backoff s Hb.
  - exists [], backoff. cbn. now rewrite app_nil_r.
  - cbn [run_loop]. unfold bind.
    destruct (loop_iteration_unreachable backoff s Hn Ha Hp Hfl)
      as (s1 & evs1 & -> & Htr1 & Hsl1 & Hr1).
    assert (Hb1 : (5 <= failure_backoff cfg backoff)%Z)
      by (unfold failure_backoff; lia).
    destruct (IH (failure_backoff cfg backoff) s1 Hb1)
      as (evs2 & b & Hres & Htr2 & Hsl2 & Hr2).
    exists (evs1 ++ evs2), b. split; [exact Hres|].
    split; [now rewrite Htr2, Htr1, app_assoc|].
    split; [|now rewrite Hr2].
    rewrite sleeps_app, Hsl1, Hsl2. cbn [seq map app].
    f_equal.
    + unfold failure_backoff. change (Z.of_nat 1) with 1%Z.
      rewrite Z.pow_1_r, (Z.max_r 10 (backoff * 2)) by lia. f_equal. lia.
    + rewrite <- seq_shift, map_map. apply map_ext. intros k.
      now apply failure_backoff_doubles.
Qed.

(* ------------------------------------------------------------------ *)
(** ** The firmware pipeline, stage by stage *)
(* ------------------------------------------------------------------ *)

(** X17.  The signature gate of the firmware pipeline.  For a manifest
    whose FW_SIG is absent or empty, or does not verify, or when no
    server key is configured, a run of [firmware_apply_flow] makes one
    call only, the audit record "ERR: invalid FW_SIG": nothing is
    downloaded, read, applied or sent; the flow returns false (or
    raises what that audit call raised) and the client state is as
    before. *)
Theorem firmware_flow_rejects_unsigned_manifest (resp : tokens)
  (force_fail : bool) (s : State) :
  truthy (get resp "FW_SIG") = false
  \/ _verify_server_signature cfg lib (manifest_subset resp)
                              (fstr (get resp "FW_SIG")) = Ok false
  \/ SERVER_PUBLIC_KEY_BASE64 cfg = "" ->
  let r := fst (firmware_apply_flow cfg lib w resp force_fail s) in
  let s' := snd (firmware_apply_flow cfg lib w resp force_fail s) in
  exists a,
    trace s' = trace s ++ [EvAudit "fw_manifest" "in" "ERR: invalid FW_SIG" a]
    /\ r = match a with Ok _ => Ok false | Raise x => Raise x end
    /\ current_fw s' = current_fw s
    /\ rto_sec s' = rto_sec s
    /\ ledger s' = ledger s.
Proof.
  intros Hsig. cbv zeta. unfold firmware_apply_flow.
  assert (E : (if negb (truthy (get resp "FW_SIG")) then ret false
               else lift (_verify_server_signature cfg lib (manifest_subset resp)
                            (fstr (get resp "FW_SIG")))) s = (Ok false, s)).
  { destruct (truthy (get resp "FW_SIG")) eqn:Et; [|reflexivity].
    destruct Hsig as [Hsig|[Hsig|Hsig]]; [discriminate Hsig| |].
    - cbn [negb]. unfold lift. now rewrite Hsig.
    - cbn [negb]. unfold lift, _verify_server_signature. now rewrite Hsig. }
  destruct (bind _ _ s) as [r s'] eqn:H. cbn [fst snd].
  unfold bind at 1 in H. rewrite E in H. cbn [negb] in H.
  unfold audit in H. rewrite ask_r_bind in H.
  destruct (w_audit w (trace s) "fw_manifest" "in" "ERR: invalid FW_SIG")
    as [[]|x]; unfold ret in H; injection H as <- <-; state_simpl.
  - exists (Ok tt). repeat split.
  - exists (Raise x). repeat split.
Qed.

(** X18.  The stages of the firmware pipeline are entered in order and
    each exactly when the ones before it succeeded.  In every run of
    [firmware_apply_flow] the stage calls are, in this order, at most
    one download, at most one digest, at most one apply and at most one
    request.  The download is attempted exactly when the manifest's
    FW_SIG verifies and the manifest names a URL, from that URL to the
    staging path; the digest of the staged file is read exactly when the
    download succeeded and the manifest has a checksum; the apply stage
    runs exactly when the download succeeded, the digest - if the
    manifest has a checksum - is equal to it, and the apply is not forced
    to fail; and a request goes on the transport exactly when the
    download succeeded, the digest is equal to the checksum, the apply
    stage ran or was forced to fail, and the acknowledgment was audited:
    it goes to the firmware acknowledgment endpoint. *)
Theorem firmware_flow_stages_in_order (resp : tokens) (force_fail : bool)
  (s : State) :
  let url := fstr (get resp "FW3") in
  let path := staged_path cfg w resp in
  let checksum := fstr (get resp "FW4") in
  exists evs,
    trace (snd (firmware_apply_flow cfg lib w resp force_fail s))
    = trace s ++ evs
    /\ exists dl dg ap po,
         stage_calls evs = dl ++ dg ++ ap ++ po
         /\ (dl = [] \/ exists ok, dl = [EvDownload url path ok])
         /\ (dg = [] \/ exists d, dg = [EvDigest path d])
         /\ (ap = [] \/ exists b, ap = [EvExists path b])
         /\ (po = [] \/ exists payload a,
                          po = [EvPost "/api/devices/firmware/ack" payload a])
         /\ let downloaded := dl = [EvDownload url path true] in
            let checked :=
              truthy (get resp "FW4") = true ->
              dg = [EvDigest path (Ok checksum)] in
            (dl <> [] <->
             manifest_signed cfg lib resp /\ truthy (get resp "FW3") = true)
            /\ (dg <> [] <-> downloaded /\ truthy (get resp "FW4") = true)
            /\ (ap <> [] <-> downloaded /\ checked /\ force_fail = false)
            /\ (po <> [] <->
                downloaded /\ checked /\ (force_fail = true \/ ap <> [])
                /\ exists payload,
                     In (EvAudit "fw_ack" "out" payload (Ok tt)) evs).
Proof.
  cbv zeta.
  destruct (firmware_apply_flow cfg lib w resp force_fail s) as [r s'] eqn:H.
  cbn [fst snd].
  apply firmware_apply_flow_shape in H. destruct H as (evs & Htr & Hrun).
  exists evs. split; [exact Htr|]. clear Htr.
  unfold pipeline_run in Hrun. cbv zeta in Hrun.
  set (path := staged_path cfg w resp) in *.
  set (url := fstr (get resp "FW3")) in *.
  assert (Hsigned : forall v,
             (if truthy (get resp "FW_SIG")
              then _verify_server_signature cfg lib (manifest_subset resp)
                                            (fstr (get resp "FW_SIG"))
              else Ok false) = v ->
             manifest_signed cfg lib resp <-> v = Ok true).
  { intros v <-. unfold manifest_signed.
    destruct (truthy (get resp "FW_SIG")); split.
    - now intros [_ E].
    - now intros E.
    - intros [E _]. discriminate E.
    - intros E. discriminate E. }
  destruct Hrun as [(x & Hv & -> & -> & Hfw)
                   |[(a & Hv & -> & -> & Hfw)
                   |[(a & Hv & Hu & -> & -> & Hfw)
                   |[(a & Hv & Hu & -> & -> & Hfw)
                   |[(x & Hv & Hu & Hc & -> & -> & Hfw)
                   |[(h0 & a & Hv & Hu & Hc & Hne & -> & -> & Hfw)
                   |(applied & ts & nonce & ack & Hv & Hu & Hff & -> & Hex)]]]]]];
    apply Hsigned in Hv; clear Hsigned.
  1-6: match goal with
       | |- context [stage_calls ?l] =>
           let st := eval cbn in (stage_calls l) in
           match st with
           | [] => exists [], [], [], []
           | [?d] => exists [d], [], [], []
           | [?d; ?g] => exists [d], [g], [], []
           end
       end;
    (split; [reflexivity|]);
    (split; [first [left; reflexivity | right; eexists; reflexivity]|]);
    (split; [first [left; reflexivity | right; eexists; reflexivity]|]);
    (split; [left; reflexivity|]); (split; [left; reflexivity|]);
    cbv zeta.
  1-6: split;
    [split; [intros N; first [now destruct N
                             | split; [now apply Hv | exact Hu]]
            |intros [E1 E2];
             first [discriminate
                   | exfalso; first [apply Hv in E1; discriminate E1
                                    | congruence]]]|].
  1-6: split;
    [split; [intros N; first [now destruct N | split; [reflexivity | exact Hc]]
            |intros [E1 E2];
             first [discriminate
                   | exfalso; first [discriminate E1 | congruence]]]|].
  1-6: split;
    [split; [intros N; now destruct N
            |intros (E1 & E2 & E3); exfalso;
             first [discriminate E1
                   | specialize (E2 Hc);
                     first [discriminate E2
                           | injection E2 as E2; congruence]]]|].
  1-6: split; [intros N; now destruct N|];
    intros (E1 & E2 & E3 & E4); exfalso;
    first [discriminate E1
          | specialize (E2 Hc);
            first [discriminate E2 | injection E2 as E2; congruence]].
  (* the run went on to the acknowledgment *)
  assert (Happ : (force_fail = true /\ applied = false)
                 \/ force_fail = false).
  { destruct force_fail; [left; auto | now right]. }
  clear Hff.
  exists [EvDownload url path true],
    (if truthy (get resp "FW4")
     then [EvDigest path (Ok (fstr (get resp "FW4")))] else []),
    (if force_fail then [] else [EvExists path applied]),
    (stage_calls ack).
  split.
  { unfold stage_calls. cbn [filter is_stage_call].
    rewrite !filter_app. cbn [filter is_stage_call app].
    destruct (truthy (get resp "FW4")), force_fail; reflexivity. }
  split; [right; eexists; reflexivity|].
  split; [destruct (truthy (get resp "FW4"));
          [right; eexists; reflexivity | now left]|].
  split; [destruct force_fail; [now left | right; eexists; reflexivity]|].
  destruct Hex as [(x & -> & -> & Hfw)
                  |[(x & -> & -> & Hfw)
                  |[(st & tx & x & -> & -> & Hfw)
                  |(st & tx & -> & -> & Hfw)]]];
    cbn [stage_calls filter is_stage_call];
    (split; [first [left; reflexivity | right; eexists _, _; reflexivity]|]);
    cbv zeta;
    (split; [split; [intros _; split; [now apply Hv | exact Hu]
                    |discriminate]|]);
    (split; [destruct (truthy (get resp "FW4"));
             (split; [intros N; first [now destruct N | now split]
                     |intros [_ E]; first [discriminate | discriminate E]])|]);
    (split; [destruct Happ as [[-> ->]| ->];
             (split; [intros N; first [now destruct N
                                      | repeat split; intros E;
                                        rewrite E; reflexivity]
                     |intros (_ & _ & E); first [discriminate | discriminate E]])
            |]).
  all: split;
    [intros N;
     first [now destruct N
           | clear N; split; [reflexivity|];
             split; [intros E; rewrite E; reflexivity|];
             split; [destruct Happ as [[-> ->]| ->];
                     [now left | right; discriminate]|];
             eexists; right; apply in_or_app; right; apply in_or_app; right;
             cbn [In app]; auto]
    |first [discriminate
           | intros (_ & _ & _ & payload & I); exfalso;
             destruct (truthy (get resp "FW4")), force_fail;
             cbn [app In] in I; in_cases I; discriminate I]].
Qed.

(* ------------------------------------------------------------------ *)
(** ** [run_forever] and a refused registration *)
(* ------------------------------------------------------------------ *)

Lemma loop_try_no_register :
  preserves no_field is_register_post (loop_try cfg lib w).
Proof.
  unfold loop_try, heartbeat_once, commands_poll, firmware_check,
    firmware_apply_flow, firmware_ack, _download_to, _apply_staged,
    file_sha256_hex, add_nonce, audit, post, http_get, _ts, _nonce,
    time_time, telemetry.
  preserves_tac.
  unfold _handle_command, command_ack, audit, post, _ts, _nonce, time_time.
  preserves_tac.
Qed.

Lemma loop_iteration_preserves (p : event -> bool) (backoff : Z) :
  preserves no_field p (loop_try cfg lib w) ->
  (forall kind dir raw a, p (EvAudit kind dir raw a) = false) ->
  (forall z, p (EvSleep z) = false) ->
  preserves no_field p (loop_iteration cfg lib w backoff).
Proof.
  intros Ht Ha Hs s. split; [reflexivity|]. unfold loop_iteration.
  destruct (Ht s) as [_ (evs1 & Htr & Hp)].
  destruct (loop_try cfg lib w s) as [[[]|x] s1]; cbn [snd] in Htr.
  - rewrite gets_bind. unfold sleep.
    destruct (rto_sec s1 <? FLOAT_OVERFLOW)%Z;
      unfold bind, ret, raise; cbn [snd trace log].
    + exists (evs1 ++ [EvSleep (rto_sec s1)]).
      split; [now rewrite Htr, app_assoc|].
      rewrite existsb_app, Hp. cbn. now rewrite Hs.
    + exists evs1. split; [exact Htr | exact Hp].
  - unfold audit. rewrite ask_r_bind.
    fold (failure_backoff cfg backoff).
    destruct (w_audit w (trace s1) "error" "in" (exc_name x ++ ":" ++ exc_msg x))
      as [[]|y];
      [unfold sleep; destruct (failure_backoff cfg backoff <? FLOAT_OVERFLOW)%Z|];
      unfold bind, ret, raise; cbn [snd trace log].
    + eexists (evs1 ++ [_; _]). split; [rewrite Htr; now rewrite <- !app_assoc|].
      rewrite existsb_app, Hp. cbn. now rewrite Ha, Hs.
    + eexists (evs1 ++ [_]). split; [rewrite Htr; now rewrite <- !app_assoc|].
      rewrite existsb_app, Hp. cbn. now rewrite Ha.
    + eexists (evs1 ++ [_]). split; [rewrite Htr; now rewrite <- !app_assoc|].
      rewrite existsb_app, Hp. cbn. now rewrite Ha.
Qed.

Lemma run_loop_preserves (p : event -> bool) (n : nat) :
  preserves no_field p (loop_try cfg lib w) ->
  (forall kind dir raw a, p (EvAudit kind dir raw a) = false) ->
  (forall z, p (EvSleep z) = false) ->
  forall backoff, preserves no_field p (run_loop cfg lib w n backoff).
Proof.
  intros Ht Ha Hs. induction n as [|n IH]; intros backoff; cbn [run_loop].
  - apply preserves_ret.
  - apply preserves_bind; [now apply loop_iteration_preserves | exact IH].
Qed.

Lemma register_no_sleep_no_nonce :
  preserves no_field (fun e => is_sleep e || is_add_nonce e)
            (register cfg lib w).
Proof.
  unfold register, audit, post, _ts, _nonce. preserves_tac.
Qed.

(** X19.  A refused registration is final.  In a run of [run_forever],
    when the registration endpoint answered, the answer was audited and
    its status S1 is neither "registered" nor "ok", the run ends there
    with RuntimeError "Registration failed: <answer>": the loop is not
    entered, so the client sends no heartbeat (no nonce is stored),
    sleeps not once, and does not try to register again. *)
Theorem run_forever_stops_on_refused_registration (n : nat) (s : State) :
  let r := fst (run_forever cfg lib w n s) in
  let s' := snd (run_forever cfg lib w n s) in
  exists evs,
    trace s' = trace s ++ evs
    /\ forall payload status text,
         In (EvPost "/api/devices/register" payload (Ok (status, text))) evs ->
         In (EvAudit "register" "in" text (Ok tt)) evs ->
         accepted (parse_tokens text) = false ->
         r = Raise (mk_exc RuntimeError ("Registration failed: " ++ text))
         /\ sleeps evs = []
         /\ existsb is_add_nonce evs = false
         /\ List.length (filter is_post evs) = 1.
Proof.
  cbv zeta. unfold run_forever, init_db.
  destruct (bind _ _ s) as [r s'] eqn:H. cbn [fst snd].
  run_ask_r H u0 x0.
  2:{ state_simpl. eexists. split; [reflexivity|].
      intros ? ? ? I. cbn [In] in I. in_cases I. discriminate I. }
  destruct u0.
  pose proof (register_run (log (EvInitDb (Ok tt)) s)) as Hreg.
  destruct (register_no_sleep_no_nonce (log (EvInitDb (Ok tt)) s))
    as [_ (evsR' & HtrR' & HnsR)].
  unfold bind at 1 in H.
  destruct (register cfg lib w (log (EvInitDb (Ok tt)) s)) as [r1 s2] eqn:Er.
  cbn [fst snd] in Hreg, HtrR'.
  destruct Hreg as (ts & nonce & a & evsR & Htr & Hverdict & Hok & _ & Hex).
  state_simpl.
  assert (EevsR : evsR' = [EvTs ts; EvNonce nonce;
                           EvAudit "register" "out"
                             (signed_payload lib (register_tokens cfg lib ts nonce))
                             a] ++ evsR).
  { rewrite HtrR' in Htr. now apply app_inv_head in Htr. }
  destruct r1 as [[]|x].
  - (* the registration was accepted *)
    destruct (Hok eq_refl) as (st & tx & -> & Hacc).
    rewrite gets_bind in H.
    destruct (run_loop_preserves is_register_post n loop_try_no_register
                (fun _ _ _ _ => eq_refl) (fun _ => eq_refl) (rto_sec s2) s2)
      as [_ (evsL & HtrL & HnL)].
    rewrite H in HtrL. cbn [snd] in HtrL.
    eexists. split; [rewrite HtrL, Htr; trace_norm; reflexivity|].
    intros payload status text I _ Hrej. exfalso.
    cbn [In app] in I. in_cases I; try discriminate I.
    + injection I as _ _ <-. congruence.
    + apply (no_stage_event is_register_post _ _ HnL) in I. discriminate I.
  - (* the registration raised *)
    injection H as <- <-.
    eexists. split; [rewrite Htr; trace_norm; reflexivity|].
    intros payload status text I1 I2 Hrej.
    destruct Hex as [->|[(y & ->)|(st & tx & a2 & ->)]];
      cbn [In app] in I1; in_cases I1; try discriminate I1.
    injection I1 as <- -> ->.
    cbn [In app] in I2. in_cases I2; try discriminate I2.
    injection I2 as ->.
    destruct (Hverdict status text (or_introl eq_refl)
                (or_intror (or_introl eq_refl))) as [Hv _].
    destruct (Hv Hrej) as [Hr _]. injection Hr as ->.
    repeat split.
Qed.

End ClientMore.

(* ------------------------------------------------------------------ *)
(** ** Further runs in the scripted world *)
(* ------------------------------------------------------------------ *)

Lemma run_loop_sleeps_within_bounds_witness :
  let s := snd (register toy_cfg toy_lib toy_world (init_state toy_cfg)) in
  rto_sec s = 30%Z
  /\ exists evs,
       trace (snd (run_loop toy_cfg toy_lib toy_world 2 30 s)) = trace s ++ evs
       /\ Forall (fun z => 10 <= z <= 600)%Z (sleeps evs)
       /\ (10 <= rto_sec (snd (run_loop toy_cfg toy_lib toy_world 2 30 s))
           <= 600)%Z.
Proof.
  split; [reflexivity|].
  apply (run_loop_sleeps_within_bounds toy_cfg toy_lib toy_world 2 30 10 600).
  - vm_compute. discriminate.
  - vm_compute. discriminate.
  - vm_compute. split; discriminate.
Defined.

Lemma unreachable_server_doubles_interval_witness :
  let wd := scripted_world unreachable_reply true "ffff" true in
  let s := init_state toy_cfg in
  exists evs b,
    fst (run_loop toy_cfg toy_lib wd 5 60 s) = Ok b
    /\ trace (snd (run_loop toy_cfg toy_lib wd 5 60 s)) = trace s ++ evs
    /\ sleeps evs = [120; 240; 480; 600; 600]%Z
    /\ rto_sec (snd (run_loop toy_cfg toy_lib wd 5 60 s)) = 60%Z.
Proof.
  apply (unreachable_server_doubles_interval toy_cfg toy_lib
           (scripted_world unreachable_reply true "ffff" true) 5 60
           (init_state toy_cfg)).
  - reflexivity.
  - reflexivity.
  - intros h payload. eexists. reflexivity.
  - vm_compute. discriminate.
  - vm_compute. discriminate.
  - vm_compute. reflexivity.
Defined.

Lemma firmware_flow_rejects_unsigned_manifest_witness :
  let forged := dict_set "FW_SIG" (Some "SKEY0") toy_manifest in
  let run := firmware_apply_flow toy_cfg toy_lib toy_world forged false
                                 (init_state toy_cfg) in
  _verify_server_signature toy_cfg toy_lib (manifest_subset forged)
                           (fstr (get forged "FW_SIG")) = Ok false
  /\ exists a,
       trace (snd run)
       = trace (init_state toy_cfg)
         ++ [EvAudit "fw_manifest" "in" "ERR: invalid FW_SIG" a]
       /\ fst run = match a with Ok _ => Ok false | Raise x => Raise x end
       /\ current_fw (snd run) = current_fw (init_state toy_cfg)
       /\ rto_sec (snd run) = rto_sec (init_state toy_cfg)
       /\ ledger (snd run) = ledger (init_state toy_cfg).
Proof.
  split; [reflexivity|].
  apply (firmware_flow_rejects_unsigned_manifest toy_cfg toy_lib toy_world
           (dict_set "FW_SIG" (Some "SKEY0") toy_manifest) false
           (init_state toy_cfg)).
  right. left. reflexivity.
Defined.

Example registration_directive_has_no_ceiling :
  let wd := scripted_world (fun _ _ => Ok (200%Z, "S1:registered|RTO:100000"))
                           true "ffff" true in
  let run := register toy_cfg toy_lib wd (init_state toy_cfg) in
  fst run = Ok tt
  /\ rto_sec (snd run) = 100000%Z
  /\ MAX_BACKOFF_SECONDS toy_cfg = 600%Z.
Proof. vm_compute. repeat split. Qed.

Example refused_registration_ends_the_client :
  let wd := scripted_world refusing_reply true "ffff" true in
  let run := run_forever toy_cfg toy_lib wd 3 (init_state toy_cfg) in
  fst run = Raise (mk_exc RuntimeError
                     "Registration failed: S1:denied|ERR:unknown device")
  /\ sleeps (trace (snd run)) = []
  /\ List.length (filter is_post (trace (snd run))) = 1.
Proof. vm_compute. repeat split. Qed.

Example malformed_directive_fails_the_heartbeat :
  let wd := scripted_world (fun _ _ => Ok (200%Z, "S1:ok|RTO:soon"))
                           true "ffff" true in
  let run := heartbeat_once toy_cfg toy_lib wd (init_state toy_cfg) in
  fst run = Raise (mk_exc ValueError "invalid literal for int()")
  /\ rto_sec (snd run) = 60%Z
  /\ map row_nonce (ledger (snd run)) = ["n3"].
Proof. vm_compute. repeat split. Qed.

(** [int()] skips the blanks around a number - also the characters 133
    and 160 - but not the separators 28 to 31, which [str.strip]
    removes; it accepts a sign and single underscores between digits;
    and it converts no more than 4300 digits. *)
Example int_blanks_and_digit_limit :
  PyStr.int " 120 " = Some 120%Z
  /\ PyStr.int (String (ascii_of_nat 133) "120") = Some 120%Z
  /\ PyStr.int (String (ascii_of_nat 31) "120") = None
  /\ PyStr.strip (String (ascii_of_nat 31) "120") = "120"
  /\ PyStr.int "1_000" = Some 1000%Z
  /\ PyStr.int "-7" = Some (-7)%Z
  /\ PyStr.int "1__0" = None
  /\ PyStr.int (string_of_list_ascii (List.repeat "1"%char 4301)) = None.
Proof. vm_compute. repeat split. Qed.

(** A directive with a separator before its digits is no integer for
    [int()]: the heartbeat raises and the interval is kept. *)
Example separator_before_directive_fails_the_heartbeat :
  let wd := scripted_world
              (fun _ _ => Ok (200%Z, ("S1:ok|RTO:"
                                      ++ String (ascii_of_nat 31) "120")%string))
              true "ffff" true in
  let run := heartbeat_once toy_cfg toy_lib wd (init_state toy_cfg) in
  fst run = Raise (mk_exc ValueError "invalid literal for int()")
  /\ rto_sec (snd run) = 60%Z.
Proof. vm_compute. repeat split. Qed.

(** An interval in force that is out of the range of floats - the
    registration stores a directive without a ceiling - makes the sleep
    of a turn raise, although the heartbeat went through: the turn ends
    with OverflowError and nothing is slept. *)
Example oversized_interval_overflows_the_sleep :
  let wd := scripted_world (fun _ _ => Ok (200%Z, "S1:ok")) true "ffff" true in
  let s := set_rto_sec (2 ^ 1024) (init_state toy_cfg) in
  let run := loop_iteration toy_cfg toy_lib wd 60 s in
  fst (loop_try toy_cfg toy_lib wd s) = Ok tt
  /\ fst run = Raise (mk_exc OverflowError "int too large to convert to float")
  /\ sleeps (trace (snd run)) = []
  /\ fst (loop_iteration toy_cfg toy_lib wd 60
                         (set_rto_sec (2 ^ 1023) (init_state toy_cfg)))
     = Ok (2 ^ 1023)%Z.
Proof. vm_compute. repeat split. Qed.

(* ================================================================== *)
(** * Properties of the key file *)
(* ================================================================== *)

Lemma lookup_disk_remove_eq (k : string) (d : KeyFile.Disk) :
  lookup k (KeyFile.disk_remove k d) = None.
Proof.
  unfold KeyFile.disk_remove. induction d as [|[k' f] d IH]; [reflexivity|].
  simpl. destruct (String.eqb k' k) eqn:E; simpl; [exact IH|].
  now rewrite E.
Qed.

Lemma lookup_disk_remove_neq (k k' : string) (d : KeyFile.Disk) :
  k <> k' -> lookup k' (KeyFile.disk_remove k d) = lookup k' d.
Proof.
  intros N. unfold KeyFile.disk_remove.
  induction d as [|[k0 f] d IH]; [reflexivity|].
  simpl. destruct (String.eqb_spec k0 k) as [->|N0]; simpl.
  - destruct (String.eqb_spec k k') as [E|_]; [now destruct N | exact IH].
  - now rewrite IH.
Qed.

Lemma mem_false_lookup {V : Type} (k : string) (d : dict V) :
  mem k d = false -> lookup k d = None.
Proof. unfold mem. now destruct (lookup k d). Qed.

Section KeyFileFacts.
Variable kl : KeyFile.KeyLib.
Variable dw : KeyFile.DiskWorld.
Variable KEYS_PATH : string.

Let tmp : string := KeyFile.dw_with_suffix dw KEYS_PATH ".tmp".

(** The disk after the four steps of [_write_secure] went through. *)
Lemma written_disk_lookup (d d3 : KeyFile.Disk) (f : KeyFile.File) :
  tmp <> KEYS_PATH ->
  lookup tmp d3 = Some f ->
  (forall p, p <> tmp -> lookup p d3 = lookup p d) ->
  lookup KEYS_PATH (KeyFile.disk_replace tmp KEYS_PATH d3) = Some f
  /\ lookup tmp (KeyFile.disk_replace tmp KEYS_PATH d3) = None
  /\ (forall p, p <> KEYS_PATH -> p <> tmp ->
        lookup p (KeyFile.disk_replace tmp KEYS_PATH d3) = lookup p d).
Proof.
  intros N Hf Hd. unfold KeyFile.disk_replace.
  destruct (String.eqb_spec tmp KEYS_PATH) as [E|_]; [now destruct N|].
  rewrite Hf. split; [apply lookup_dict_set_eq|]. split.
  - rewrite lookup_dict_set_neq by (intros E; now apply N).
    apply lookup_disk_remove_eq.
  - intros p N1 N2. rewrite lookup_dict_set_neq by (intros E; now apply N1).
    rewrite lookup_disk_remove_neq by (intros E; now apply N2).
    now apply Hd.
Qed.

(** Every run of [load_or_create_keys] that starts without a key
    file. *)
Lemma create_keys_outcome (d : KeyFile.Disk) :
  mem KEYS_PATH d = false ->
  tmp <> KEYS_PATH ->
  let r := fst (KeyFile.load_or_create_keys kl dw KEYS_PATH d) in
  let d' := snd (KeyFile.load_or_create_keys kl dw KEYS_PATH d) in
  ((r = KeyFile.Got (fresh_keys kl)
    /\ lookup KEYS_PATH d' = Some (key_file kl (fresh_keys kl))
    /\ lookup tmp d' = None)
   \/ (exists op e, KeyFile.dw_fails dw op = Some e
                    /\ r = KeyFile.Failed (KeyFile.FileError e)
                    /\ lookup KEYS_PATH d' = None))
  /\ (forall p, p <> KEYS_PATH -> p <> tmp -> lookup p d' = lookup p d).
Proof.
  intros Hm N. cbv zeta.
  pose proof (mem_false_lookup _ _ Hm) as Hnone.
  unfold KeyFile.load_or_create_keys. rewrite Hm.
  unfold KeyFile._write_secure. fold tmp. cbv zeta.
  fold (fresh_keys kl). fold (key_doc kl (fresh_keys kl)).
  assert (Hset : forall f (d0 : KeyFile.Disk),
             lookup KEYS_PATH (dict_set tmp f d0) = lookup KEYS_PATH d0).
  { intros f d0. now apply lookup_dict_set_neq. }
  assert (Hother : forall f (d0 : KeyFile.Disk) p, p <> tmp ->
             lookup p (dict_set tmp f d0) = lookup p d0).
  { intros f d0 p Np. apply lookup_dict_set_neq. intros E. now apply Np. }
  destruct (KeyFile.dw_fails dw (KeyFile.OpenWrite tmp)) as [e|] eqn:F1;
    cbn [fst snd].
  { split; [right; now exists (KeyFile.OpenWrite tmp), e | reflexivity]. }
  destruct (KeyFile.dw_fails dw (KeyFile.WriteJson tmp)) as [e|] eqn:F2;
    cbn [fst snd].
  { split; [right; exists (KeyFile.WriteJson tmp), e; now rewrite Hset|].
    intros p _ Np. now rewrite Hother. }
  destruct (KeyFile.dw_fails dw (KeyFile.Chmod tmp KeyFile.OWNER_ONLY))
    as [e|] eqn:F3; cbn [fst snd].
  { split; [right; exists (KeyFile.Chmod tmp KeyFile.OWNER_ONLY), e;
            now rewrite !Hset|].
    intros p _ Np. now rewrite !Hother. }
  destruct (KeyFile.dw_fails dw (KeyFile.Replace tmp KEYS_PATH)) as [e|] eqn:F4;
    cbn [fst snd].
  { split; [right; exists (KeyFile.Replace tmp KEYS_PATH), e; now rewrite !Hset|].
    intros p _ Np. now rewrite !Hother. }
  match goal with
  | |- context [KeyFile.disk_replace tmp KEYS_PATH ?d3] =>
      destruct (written_disk_lookup d d3 (key_file kl (fresh_keys kl)) N)
        as (H1 & H2 & H3)
  end.
  - apply lookup_dict_set_eq.
  - intros p Np. now rewrite !Hother.
  - split; [left; repeat split; assumption | exact H3].
Qed.

(** X20.  The key file is written atomically.  Starting without a key
    file, and with a temporary path other than the key path, a run of
    [load_or_create_keys] ends in one of two ways, whichever file
    operation fails: it returns the generated key pair and the key path
    holds the complete key file, readable by its owner only, with
    nothing left at the temporary path; or it raises the [OSError] of
    the operation that failed and there is still no file at the key
    path.  The key path never holds a partial file or a file with other
    permission bits, and no other file but the temporary one is
    touched. *)
Theorem key_file_is_written_atomically (d : KeyFile.Disk) :
  mem KEYS_PATH d = false ->
  KeyFile.dw_with_suffix dw KEYS_PATH ".tmp" <> KEYS_PATH ->
  let r := fst (KeyFile.load_or_create_keys kl dw KEYS_PATH d) in
  let d' := snd (KeyFile.load_or_create_keys kl dw KEYS_PATH d) in
  ((r = KeyFile.Got (fresh_keys kl)
    /\ lookup KEYS_PATH d' = Some (key_file kl (fresh_keys kl))
    /\ lookup (KeyFile.dw_with_suffix dw KEYS_PATH ".tmp") d' = None)
   \/ (exists op e, KeyFile.dw_fails dw op = Some e
                    /\ r = KeyFile.Failed (KeyFile.FileError e)
                    /\ lookup KEYS_PATH d' = None))
  /\ (forall p, p <> KEYS_PATH ->
                p <> KeyFile.dw_with_suffix dw KEYS_PATH ".tmp" ->
                lookup p d' = lookup p d).
Proof. exact (create_keys_outcome d). Qed.

(** X21.  The device identity persists.  When there is no key file, no
    file operation fails and the libraries keep their promise (decoding
    undoes encoding, the bytes of the generated key build that key
    again), [load_or_create_keys] returns the generated key pair and
    leaves the complete key file at the key path; and a later call on
    that disk returns the very same key pair and leaves the disk as it
    is. *)
Theorem generated_keys_are_loaded_again (d : KeyFile.Disk) :
  mem KEYS_PATH d = false ->
  KeyFile.dw_with_suffix dw KEYS_PATH ".tmp" <> KEYS_PATH ->
  disk_works dw ->
  key_lib_contract kl ->
  let d' := snd (KeyFile.load_or_create_keys kl dw KEYS_PATH d) in
  KeyFile.load_or_create_keys kl dw KEYS_PATH d
  = (KeyFile.Got (fresh_keys kl), d')
  /\ lookup KEYS_PATH d' = Some (key_file kl (fresh_keys kl))
  /\ KeyFile.load_or_create_keys kl dw KEYS_PATH d'
     = (KeyFile.Got (fresh_keys kl), d').
Proof.
  intros Hm N Hw (Hb64 & Hsk). cbv zeta.
  destruct (create_keys_outcome d Hm N) as [Hr _]. cbv zeta in Hr.
  destruct (KeyFile.load_or_create_keys kl dw KEYS_PATH d) as [r d'] eqn:E.
  cbn [fst snd] in *.
  destruct Hr as [(-> & Hf & _)|(op & e & F & _)];
    [|rewrite Hw in F; discriminate F].
  split; [reflexivity|]. split; [exact Hf|].
  unfold KeyFile.load_or_create_keys, mem. rewrite Hf.
  unfold KeyFile.load_keys. rewrite Hw, Hf.
  cbn [option_map key_file KeyFile.f_content key_doc lookup String.eqb
       Ascii.eqb Bool.eqb].
  unfold KeyFile.private_key_b64. rewrite Hb64.
  cbn [fresh_keys KeyFile.signing_key]. rewrite Hsk. reflexivity.
Qed.

(** X22.  An existing key file is never replaced.  When a file exists at
    the key path, [load_or_create_keys] writes nothing - the disk is
    left as it is, whether the call returns or raises - and the key
    pair it returns, if any, is the one read from the file: the
    private key the file names, decoded and turned into a signing key,
    with its verify key.  In particular a file it cannot read makes it
    raise rather than generate a new identity. *)
Theorem existing_key_file_is_read_not_replaced (d : KeyFile.Disk) :
  mem KEYS_PATH d = true ->
  snd (KeyFile.load_or_create_keys kl dw KEYS_PATH d) = d
  /\ (forall keys,
        fst (KeyFile.load_or_create_keys kl dw KEYS_PATH d) = KeyFile.Got keys ->
        read_from_file kl KEYS_PATH d keys)
  /\ (option_map KeyFile.f_content (lookup KEYS_PATH d)
      = Some KeyFile.OtherContent ->
      exists e, fst (KeyFile.load_or_create_keys kl dw KEYS_PATH d)
                = KeyFile.Failed e).
Proof.
  intros Hm. unfold KeyFile.load_or_create_keys. rewrite Hm. cbn [fst snd].
  split; [reflexivity|]. unfold KeyFile.load_keys. split.
  - intros keys.
    destruct (KeyFile.dw_fails dw (KeyFile.OpenRead KEYS_PATH));
      [intros E; discriminate E|].
    destruct (option_map KeyFile.f_content (lookup KEYS_PATH d))
      as [[doc|]|] eqn:Ef; try (intros E; discriminate E).
    destruct (lookup "private_key_b64" doc) as [b64|] eqn:Eb;
      [|intros E; discriminate E].
    destruct (KeyFile.kl_b64decode kl b64) as [sk_bytes|e] eqn:Ed;
      [|intros E; discriminate E].
    destruct (KeyFile.kl_signing_key kl sk_bytes) as [sk|e] eqn:Es;
      [|intros E; discriminate E].
    intros [= <-]. exists doc, b64, sk_bytes. repeat split; assumption.
  - intros ->. destruct (KeyFile.dw_fails dw (KeyFile.OpenRead KEYS_PATH));
      eexists; reflexivity.
Qed.

End KeyFileFacts.

Lemma key_file_is_written_atomically_witness :
  let run := KeyFile.load_or_create_keys toy_key_lib toy_disk_world
               toy_keys_path toy_disk in
  fst run = KeyFile.Got {| KeyFile.signing_key := "SEED";
                           KeyFile.verify_key := "pub-SEED" |}
  /\ snd run
     = toy_disk
       ++ [ (toy_keys_path,
             {| KeyFile.f_content :=
                  KeyFile.JsonObject [ ("private_key_b64", "SEED");
                                       ("public_key_b64", "pub-SEED") ];
                KeyFile.f_mode := 384 |}) ]
  /\ ((fst run = KeyFile.Got (fresh_keys toy_key_lib)
       /\ lookup toy_keys_path (snd run)
          = Some (key_file toy_key_lib (fresh_keys toy_key_lib))
       /\ lookup "/home/pi/.toon/device_keys.tmp" (snd run) = None)
      \/ (exists op e, KeyFile.dw_fails toy_disk_world op = Some e
                       /\ fst run = KeyFile.Failed (KeyFile.FileError e)
                       /\ lookup toy_keys_path (snd run) = None)).
Proof.
  split; [reflexivity|]. split; [reflexivity|].
  apply (key_file_is_written_atomically toy_key_lib toy_disk_world
           toy_keys_path toy_disk).
  - reflexivity.
  - discriminate.
Defined.

Lemma generated_keys_are_loaded_again_witness :
  let d' := snd (KeyFile.load_or_create_keys toy_key_lib toy_disk_world
                   toy_keys_path toy_disk) in
  KeyFile.load_or_create_keys toy_key_lib toy_disk_world toy_keys_path toy_disk
  = (KeyFile.Got (fresh_keys toy_key_lib), d')
  /\ lookup toy_keys_path d' = Some (key_file toy_key_lib (fresh_keys toy_key_lib))
  /\ KeyFile.load_or_create_keys toy_key_lib toy_disk_world toy_keys_path d'
     = (KeyFile.Got (fresh_keys toy_key_lib), d').
Proof.
  apply (generated_keys_are_loaded_again toy_key_lib toy_disk_world
           toy_keys_path toy_disk).
  - reflexivity.
  - discriminate.
  - intros op. reflexivity.
  - split; [intros x; reflexivity | reflexivity].
Defined.

Lemma existing_key_file_is_read_not_replaced_witness :
  let run := KeyFile.load_or_create_keys toy_key_lib toy_disk_world
               toy_keys_path toy_disk_with_key in
  fst run = KeyFile.Got {| KeyFile.signing_key := "OLDK";
                           KeyFile.verify_key := "pub-OLDK" |}
  /\ snd run = toy_disk_with_key
  /\ (forall keys, fst run = KeyFile.Got keys ->
        read_from_file toy_key_lib toy_keys_path toy_disk_with_key keys).
Proof.
  split; [reflexivity|].
  pose proof (existing_key_file_is_read_not_replaced toy_key_lib toy_disk_world
                toy_keys_path toy_disk_with_key eq_refl) as (H1 & H2 & _).
  split; [exact H1 | exact H2].
Defined.
